(** * DreamControl: the monitor-controller plugin processor

    A shallow embedding of [src/plugin/PluginProcessor.cpp]: the telemetry
    byte encoding, the 10 ms timer callback (meter normalisation, peak hold,
    clip indicators, SysEx meter packet), the mode-change callback with its
    exclusivity and reset side effects, the incoming MIDI handler and the
    band solo router of [processBlock].

    Numbers.  A C++ [float] (decibel readings, levels, hold time) is
    embedded as the rational number it denotes; infinities and NaN are not
    represented.  Where a single-precision result decides something discrete
    (a comparison, a clip flag, a byte of the meter packet) the operation is
    followed by [fl32], the rounding to the nearest binary32 number, ties to
    even: the product [peakHold * 1000.0f], the differences
    [reading - 3.0f] and [lufsMaxVal - lufsMinVal], the sum
    [peakLval + 3.0f], and the narrowing of the double product
    [fractional * 100.0] in front of [roundf].  The normalised values
    written to the float meter parameters are continuous quantities and are
    kept as the exact value of their expression.  Bytes and button numbers
    are [Z]. *)

From Stdlib Require Import ZArith QArith Qabs Qround Qminmax Qpower Lqa Lia List Bool String.
Import ListNotations.

Local Open Scope Z_scope.
Local Open Scope Q_scope.

(** ** Float helpers *)

Module FloatOps.

  (** [a < b], [a > b], [a >= b] on floats, as boolean tests. *)
Definition Qltb (a b : Q) : bool := negb (Qle_bool b a).
Definition Qgtb (a b : Q) : bool := Qltb b a.
Definition Qgeb (a b : Q) : bool := Qle_bool b a.

  (** Truncation toward zero, as done by [modf] and by a float-to-integer
      cast. *)
Definition Qtrunc (q : Q) : Z := Z.quot (Qnum q) (Zpos (Qden q)).

  (** [modf val &integral]: returns the fractional part and stores the
      integral part (both carry the sign of [val]). *)
Definition modf (val : Q) : Q * Q :=
    let integral := inject_Z (Qtrunc val) in
    (val - integral, integral).

  (** Nearest integer, halfway cases away from zero. *)
Definition round_half_away (x : Q) : Z :=
    if Qle_bool 0 x then Qfloor (x + (1 # 2))
    else (- Qfloor (- x + (1 # 2)))%Z.

  (** C's [roundf]: the result is again a float. *)
Definition roundf (x : Q) : Q := inject_Z (round_half_away x).

  (** [(char) x] for a float [x]: the fractional part is discarded. *)
Definition to_char (x : Q) : Z := Qtrunc x.

  (** *** Rounding to a binary format

      [roundTo prec emin] rounds to the nearest number [m * 2^e] with
      [|m| < 2^prec] and [e >= emin], ties to the even [m]: the result of an
      IEEE 754 operation from its exact value, as long as it does not
      overflow. *)

Definition pow2 (e : Z) : Q := 2 ^ e.

  (** The binary order of magnitude of a positive [x]: the [e] with
      [2^e <= x < 2^(e+1)]. *)
Definition mag (x : Q) : Z :=
    let l := (Z.log2 (Qnum x) - Z.log2 (Zpos (Qden x)))%Z in
    if Qle_bool (pow2 l) x then l else (l - 1)%Z.

  (** Nearest integer, ties to even. *)
Definition rne (m : Q) : Z :=
    let z := Qfloor m in
    match Qcompare (m - inject_Z z) (1 # 2) with
    | Lt => z
    | Gt => (z + 1)%Z
    | Eq => if Z.even z then z else (z + 1)%Z
    end.

  (** The exponent of the last place of a positive [x]; [emin] is that of
      the subnormal numbers. *)
Definition cexp (prec emin : Z) (x : Q) : Z := Z.max (mag x - (prec - 1)) emin.

Definition roundPos (prec emin : Z) (x : Q) : Q :=
    let c := cexp prec emin x in
    inject_Z (rne (x / pow2 c)) * pow2 c.

Definition roundTo (prec emin : Z) (x : Q) : Q :=
    match Qcompare x 0 with
    | Eq => 0
    | Gt => roundPos prec emin x
    | Lt => - roundPos prec emin (- x)
    end.

  (** [float]: 24 significant bits, least exponent -149.
      [double]: 53 significant bits, least exponent -1074. *)
Definition fl32 : Q -> Q := roundTo 24 (-149).
Definition fl64 : Q -> Q := roundTo 53 (-1074).

End FloatOps.
Import FloatOps.

(** ** Constants of the translation unit *)

Definition CALLBACK_TIMER_PERIOD_MS : Q := 10.
Definition LOWEST_TRUE_PEAK_VALUE : Q := -125.
Definition LOWEST_LUFS_VALUE : Q := -64.
Definition LOWEST_VOLUME_VALUE : Q := -64.
Definition HIGHEST_TRUE_PEAK_VALUE : Q := 3.

Definition sysexManufacturerId : list Z := [0x00; 0x21; 0x69]%Z.

Definition SYSEX_COMMAND_METER_DATA : Z := 1.
Definition SYSEX_COMMAND_SYNC_BUTTONS : Z := 2.

(** ** Telemetry byte pairs *)

(** [getMeterIntegralFractional]: the two bytes [output[0]], [output[1]].
    [fractional * 100.0] is a [double] product; [roundf] takes a [float],
    so the product is narrowed before it is rounded to an integer. *)
Definition getMeterIntegralFractional (val : Q) : Z * Z :=
  let '(fractional, integral) := modf val in
  let fractional := Qabs (roundf (fl32 (fl64 (fractional * 100)))) in
  let integral := Qabs integral in
  let fractional := if Qgtb fractional 99 then 99 else fractional in
  let integral := if Qgtb integral 99 then 99 else integral in
  (to_char integral, to_char fractional).

(** The encoding in the words of the specification:
    integral = |trunc(value)| clamped to [0,99],
    fractional = round(|frac(value)| x 100) clamped to [0,99]. *)
Module EncodingSpec.

Definition clamp_0_99 (z : Z) : Z := Z.max 0 (Z.min 99 z).

Definition frac (v : Q) : Q := v - inject_Z (Qtrunc v).

Definition encode_spec (v : Q) : Z * Z :=
    (clamp_0_99 (Z.abs (Qtrunc v)),
     clamp_0_99 (round_half_away (Qabs (frac v) * 100))).

  (** The same with the product brought to single precision before it is
      rounded to the nearest integer (a half goes up: the floor of the
      product plus one half). *)
Definition narrowed (x : Q) : Q := fl32 (fl64 x).

Definition encode_narrowed (v : Q) : Z * Z :=
    (clamp_0_99 (Z.abs (Qtrunc v)),
     clamp_0_99 (Qfloor (narrowed (Qabs (frac v) * 100) + (1 # 2)))).

End EncodingSpec.

(** ** Parameters and plugin state *)

(** The [AudioParameterBoolNotify] objects, in the order in which the
    constructor registers them with [addParameter]. *)
Inductive BoolParam : Type :=
| muteMode | dimMode | refMode
| solo1 | solo2 | solo3 | solo4
| midSolo | sideSolo | loudnessMode
| lufsReset
| lufsMode | peakWithMomentaryMode | relativeMode | is1dbPeakScale
| volModMode.

Definition BoolParam_eq_dec (a b : BoolParam) : {a = b} + {a <> b}.
Proof. decide equality. Defined.

Definition paramID (p : BoolParam) : string :=
  match p with
  | muteMode => "muteMode" | dimMode => "dimMode" | refMode => "refMode"
  | solo1 => "solo1" | solo2 => "solo2" | solo3 => "solo3" | solo4 => "solo4"
  | midSolo => "midSolo" | sideSolo => "sideSolo" | loudnessMode => "loudMode"
  | lufsReset => "lufsReset"
  | lufsMode => "lufsMode"
  | peakWithMomentaryMode => "peakWithMomentaryMode"
  | relativeMode => "relativeMode"
  | is1dbPeakScale => "is1dbPeakScale"
  | volModMode => "volModMode"
  end%string.

(** [getParameters()] restricted to the entries that pass the
    [dynamic_cast<AudioParameterBoolNotify*>]. *)
Definition boolNotifyParameters : list BoolParam :=
  [ muteMode; dimMode; refMode; solo1; solo2; solo3; solo4;
    midSolo; sideSolo; loudnessMode; lufsReset;
    lufsMode; peakWithMomentaryMode; relativeMode; is1dbPeakScale;
    volModMode ].

(** The vector [bandSolo]; [numBands = numCrossovers + 1]. *)
Definition numCrossovers : nat := 3.
Definition numBands : nat := numCrossovers + 1.
Definition bandSolo : list BoolParam := [solo1; solo2; solo3; solo4].

(** [enum midiNoteCommand]. *)
Definition BUTTON_LOUD : Z := 0.
Definition BUTTON_MONO : Z := 1.
Definition BUTTON_SIDE : Z := 2.
Definition BUTTON_LOW : Z := 3.
Definition BUTTON_LOMID : Z := 4.
Definition BUTTON_HIMID : Z := 5.
Definition BUTTON_HIGH : Z := 6.
Definition BUTTON_MONMUTE : Z := 18.
Definition BUTTON_DIM : Z := 19.
Definition BUTTON_REF : Z := 20.
Definition BUTTON_RESET_METER : Z := 35.
Definition BUTTON_PEAK_LUFS : Z := 36.
Definition BUTTON_ABS_REL : Z := 37.
Definition BUTTON_VOL_MOD : Z := 45.
Definition BUTTON_3RD_METER_IS_MOMENTARY : Z := 46.
Definition BUTTON_1DB_PEAK_SCALE : Z := 47.

(** [button_param_map], a [std::map] and so iterated by increasing key. *)
Definition button_param_map : list (Z * BoolParam) :=
  [ (BUTTON_LOUD, loudnessMode);
    (BUTTON_MONO, midSolo);
    (BUTTON_SIDE, sideSolo);
    (BUTTON_LOW, solo1);
    (BUTTON_LOMID, solo2);
    (BUTTON_HIMID, solo3);
    (BUTTON_HIGH, solo4);
    (BUTTON_MONMUTE, muteMode);
    (BUTTON_DIM, dimMode);
    (BUTTON_REF, refMode);
    (BUTTON_RESET_METER, lufsReset);
    (BUTTON_PEAK_LUFS, lufsMode);
    (BUTTON_ABS_REL, relativeMode);
    (BUTTON_VOL_MOD, volModMode);
    (BUTTON_3RD_METER_IS_MOMENTARY, peakWithMomentaryMode);
    (BUTTON_1DB_PEAK_SCALE, is1dbPeakScale) ].

(** The [AudioParameterFloat] meters the timer writes.  The store keeps the
    normalised argument of the last [setValueNotifyingHost]. *)
Inductive MeterParam : Type :=
| lufsShort | lufsMomentary | lufsIntegrated | lufsRangeMin | lufsRangeMax
| peakMeterLeft | peakMeterRight | peakMeterMaxLeft | peakMeterMaxRight.

Definition MeterParam_eq_dec (a b : MeterParam) : {a = b} + {a <> b}.
Proof. decide equality. Defined.

(** Messages handed to [MidiOutput::sendMessageNow].  [SysExMessage] carries
    the data bytes given to [MidiMessage::createSysExMessage]. *)
Inductive MidiMessage : Type :=
| noteOn (channel : Z) (noteNumber : Z) (velocity : Q)
| SysExMessage (sysexData : list Z).

(** The external loudness unit, as far as this file drives it: the number of
    audio blocks measured since the last [reset()], and how often [reset()]
    has been called. *)
Record LufsProcessor : Type := mkLufs {
  accumulated : nat;
  resets : nat
}.

(** What the loudness unit reports on one tick (the entries at
    [validSize - 1] and the range bounds), in dB. *)
Record Readings : Type := mkReadings {
  lufsSval : Q;
  lufsMval : Q;
  lufsIval : Q;
  lufsMinVal : Q;
  lufsMaxVal : Q;
  truePeakL : Q;
  truePeakR : Q
}.

(** The members of [DreamControlAudioProcessor] used below.  [midiOutput] is
    [None] for the [NULL] pointer and otherwise holds the messages sent on
    the port so far, oldest first. *)
Record Plugin : Type := mkPlugin {
  boolv : BoolParam -> bool;
  meterv : MeterParam -> Q;
  clipMeterLeft : bool;
  clipMeterRight : bool;
  lufsTarget : Q;
  peakHoldSeconds : Q;
  lastMaxLeft : Q;
  lastMaxRight : Q;
  msSinceLastPeakReset : Q;
  lufsProcessor : LufsProcessor;
  midiOutput : option (list MidiMessage)
}.

Module Upd.

Definition boolv' (p : BoolParam) (v : bool) (s : Plugin) : Plugin :=
    mkPlugin (fun q => if BoolParam_eq_dec q p then v else boolv s q)
      (meterv s) (clipMeterLeft s) (clipMeterRight s) (lufsTarget s)
      (peakHoldSeconds s) (lastMaxLeft s) (lastMaxRight s)
      (msSinceLastPeakReset s) (lufsProcessor s) (midiOutput s).

Definition meterv' (p : MeterParam) (v : Q) (s : Plugin) : Plugin :=
    mkPlugin (boolv s)
      (fun q => if MeterParam_eq_dec q p then v else meterv s q)
      (clipMeterLeft s) (clipMeterRight s) (lufsTarget s)
      (peakHoldSeconds s) (lastMaxLeft s) (lastMaxRight s)
      (msSinceLastPeakReset s) (lufsProcessor s) (midiOutput s).

Definition clipMeterLeft' (v : bool) (s : Plugin) : Plugin :=
    mkPlugin (boolv s) (meterv s) v (clipMeterRight s) (lufsTarget s)
      (peakHoldSeconds s) (lastMaxLeft s) (lastMaxRight s)
      (msSinceLastPeakReset s) (lufsProcessor s) (midiOutput s).

Definition clipMeterRight' (v : bool) (s : Plugin) : Plugin :=
    mkPlugin (boolv s) (meterv s) (clipMeterLeft s) v (lufsTarget s)
      (peakHoldSeconds s) (lastMaxLeft s) (lastMaxRight s)
      (msSinceLastPeakReset s) (lufsProcessor s) (midiOutput s).

Definition lastMaxLeft' (v : Q) (s : Plugin) : Plugin :=
    mkPlugin (boolv s) (meterv s) (clipMeterLeft s) (clipMeterRight s)
      (lufsTarget s) (peakHoldSeconds s) v (lastMaxRight s)
      (msSinceLastPeakReset s) (lufsProcessor s) (midiOutput s).

Definition lastMaxRight' (v : Q) (s : Plugin) : Plugin :=
    mkPlugin (boolv s) (meterv s) (clipMeterLeft s) (clipMeterRight s)
      (lufsTarget s) (peakHoldSeconds s) (lastMaxLeft s) v
      (msSinceLastPeakReset s) (lufsProcessor s) (midiOutput s).

Definition msSinceLastPeakReset' (v : Q) (s : Plugin) : Plugin :=
    mkPlugin (boolv s) (meterv s) (clipMeterLeft s) (clipMeterRight s)
      (lufsTarget s) (peakHoldSeconds s) (lastMaxLeft s) (lastMaxRight s)
      v (lufsProcessor s) (midiOutput s).

Definition lufsProcessor' (v : LufsProcessor) (s : Plugin) : Plugin :=
    mkPlugin (boolv s) (meterv s) (clipMeterLeft s) (clipMeterRight s)
      (lufsTarget s) (peakHoldSeconds s) (lastMaxLeft s) (lastMaxRight s)
      (msSinceLastPeakReset s) v (midiOutput s).

Definition midiOutput' (v : option (list MidiMessage)) (s : Plugin) : Plugin :=
    mkPlugin (boolv s) (meterv s) (clipMeterLeft s) (clipMeterRight s)
      (lufsTarget s) (peakHoldSeconds s) (lastMaxLeft s) (lastMaxRight s)
      (msSinceLastPeakReset s) (lufsProcessor s) v.

End Upd.

(** ** Running member functions: state, null dereference, recursion depth *)

Inductive Result (A : Type) : Type :=
| Ok (a : A)
| NullDeref
| OutOfFuel.
Arguments Ok {A} a.
Arguments NullDeref {A}.
Arguments OutOfFuel {A}.

Definition M (A : Type) : Type := Plugin -> Result (A * Plugin).

Definition ret {A : Type} (a : A) : M A := fun s => Ok (a, s).

Definition bind {A B : Type} (m : M A) (k : A -> M B) : M B :=
  fun s =>
    match m s with
    | Ok (a, s') => k a s'
    | NullDeref => NullDeref
    | OutOfFuel => OutOfFuel
    end.

Definition gets {A : Type} (f : Plugin -> A) : M A := fun s => Ok (f s, s).
Definition modify (f : Plugin -> Plugin) : M unit := fun s => Ok (tt, f s).
Definition when (c : bool) (m : M unit) : M unit := if c then m else ret tt.

Declare Scope plugin_scope.
Delimit Scope plugin_scope with plugin.
Notation "x <- m ;; k" := (bind m (fun x => k))
  (at level 61, m at next level, right associativity) : plugin_scope.
Notation "m ;; k" := (bind m (fun _ => k))
  (at level 61, right associativity) : plugin_scope.
Local Open Scope plugin_scope.

(** [for (auto x : xs) body(x)]. *)
Fixpoint forEach {A : Type} (xs : list A) (body : A -> M unit) : M unit :=
  match xs with
  | [] => ret tt
  | x :: xs' => body x ;; forEach xs' body
  end.

(** [midiOutput->sendMessageNow(m)]: dereferences [midiOutput]. *)
Definition sendMessageNow (m : MidiMessage) : M unit :=
  fun s =>
    match midiOutput s with
    | None => NullDeref
    | Some sent => Ok (tt, Upd.midiOutput' (Some (sent ++ [m])) s)
    end.

(** [lufsProcessor->reset()]. *)
Definition lufsProcessor_reset : M unit :=
  modify (fun s =>
    Upd.lufsProcessor' (mkLufs 0 (S (resets (lufsProcessor s)))) s).

(** ** The mode-change callback *)

(** The search that ends at [found_button]: the first registered parameter
    whose id is [paramName] and which is a value of [button_param_map] gives
    its key; [button] stays 0 when there is none. *)
Fixpoint keyOfParam (param : BoolParam) (m : list (Z * BoolParam)) : option Z :=
  match m with
  | [] => None
  | (key, val) :: m' =>
      if BoolParam_eq_dec val param then Some key else keyOfParam param m'
  end.

Fixpoint findButton (paramName : string) (params : list BoolParam) : Z :=
  match params with
  | [] => 0%Z
  | param :: rest =>
      if String.eqb (paramID param) paramName then
        match keyOfParam param button_param_map with
        | Some button => button
        | None => findButton paramName rest
        end
      else findButton paramName rest
  end.

Definition neqs (a b : string) : bool := negb (String.eqb a b).

(** The lambda [modeChangedFunction].  [setValueNotifyingHost] is the write
    operation of the parameter objects, passed in because a write runs this
    callback again. *)
Definition modeChangedFunction
    (setValueNotifyingHost : BoolParam -> bool -> M unit)
    (paramName : string) (newValue : bool) : M unit :=
  when (neqs paramName "dimMode" && neqs paramName "refMode"
        && neqs paramName "muteMode" && neqs paramName "volModMode")
    lufsProcessor_reset ;;
  when (newValue && String.eqb paramName "midSolo")
    (setValueNotifyingHost sideSolo false) ;;
  when (newValue && String.eqb paramName "sideSolo")
    (setValueNotifyingHost midSolo false) ;;
  when (newValue && String.eqb paramName "dimMode")
    (setValueNotifyingHost refMode false) ;;
  when (newValue && String.eqb paramName "refMode")
    (setValueNotifyingHost dimMode false) ;;
  let button := findButton paramName boolNotifyParameters in
  sendMessageNow (noteOn 1 button (if newValue then 1 else 0)).

(** Modelled from the spec: the class [AudioParameterBoolNotify] is declared
    outside this translation unit.  A Parameter holds a current value and a
    change-notification callback fired on externally- or internally-driven
    writes: a write stores the value and then runs the callback given at
    construction, here always [modeChangedFunction], with the parameter's id
    and the new value.  [fuel] bounds the nesting of writes inside
    callbacks. *)
Fixpoint setValueNotifyingHost (fuel : nat) (p : BoolParam) (v : bool) : M unit :=
  match fuel with
  | O => fun _ => OutOfFuel
  | S fuel' =>
      modify (Upd.boolv' p v) ;;
      modeChangedFunction (setValueNotifyingHost fuel') (paramID p) v
  end.

(** ** The timer callback *)

(** The expression written out at every meter write:
    [((val >= lowest ? val : lowest) - lowest) / -lowest]. *)
Definition normalised (lowest val : Q) : Q :=
  ((if Qgeb val lowest then val else lowest) - lowest) / - lowest.

(** A float meter's [setValueNotifyingHost]; these parameters have no
    callback. *)
Definition setMeter (p : MeterParam) (v : Q) : M unit :=
  modify (Upd.meterv' p v).

(** Lines 520-524: the loudness meters. *)
Definition writeLufsMeters (r : Readings) : M unit :=
  setMeter lufsShort (normalised LOWEST_LUFS_VALUE (lufsSval r)) ;;
  setMeter lufsMomentary (normalised LOWEST_LUFS_VALUE (lufsMval r)) ;;
  setMeter lufsIntegrated (normalised LOWEST_LUFS_VALUE (lufsIval r)) ;;
  setMeter lufsRangeMin (normalised LOWEST_LUFS_VALUE (lufsMinVal r)) ;;
  setMeter lufsRangeMax (normalised LOWEST_LUFS_VALUE (lufsMaxVal r)).

(** Lines 526-531: the reset trigger. *)
Definition handleLufsReset (fuel : nat) : M unit :=
  trigger <- gets (fun s => boolv s lufsReset) ;;
  when trigger
    (setValueNotifyingHost fuel lufsReset false ;;
     lufsProcessor_reset ;;
     modify (Upd.msSinceLastPeakReset' 0)).

Definition truePeakRange : Q := LOWEST_TRUE_PEAK_VALUE - HIGHEST_TRUE_PEAK_VALUE.

(** The floats [peakLval] and [peakRval]: the reading less the ceiling, a
    single-precision difference. *)
Definition peakLval (r : Readings) : Q :=
  fl32 (truePeakL r - HIGHEST_TRUE_PEAK_VALUE).
Definition peakRval (r : Readings) : Q :=
  fl32 (truePeakR r - HIGHEST_TRUE_PEAK_VALUE).

(** What a true-peak meter parameter is given for a reading.  The source
    normalises [peakLval]; the parameter is a continuous value and is
    modelled with the difference before it is rounded. *)
Definition peakMeterValue (reading : Q) : Q :=
  normalised truePeakRange (reading - HIGHEST_TRUE_PEAK_VALUE).

(** Lines 534-538: the instantaneous true-peak meters. *)
Definition writePeakMeters (r : Readings) : M unit :=
  setMeter peakMeterLeft (peakMeterValue (truePeakL r)) ;;
  setMeter peakMeterRight (peakMeterValue (truePeakR r)).

(** The test [peakHold == 0.0f || msSinceLastPeakReset >= peakHold * 1000.0f].
    The product is a single-precision one.  The counter holds whole
    milliseconds and is declared in the header: as an integer it is
    converted to [float] for the comparison, as a [float] the conversion
    changes nothing. *)
Definition holdExpired (s : Plugin) : bool :=
  Qeq_bool (peakHoldSeconds s) 0
  || Qgeb (fl32 (msSinceLastPeakReset s)) (fl32 (peakHoldSeconds s * 1000)).

(** The clip test [peak + HIGHEST_TRUE_PEAK_VALUE > 0.0f] on a peak that has
    had the ceiling taken off; the sum is a single-precision one. *)
Definition aboveClipThreshold (peak : Q) : bool :=
  Qgtb (fl32 (peak + HIGHEST_TRUE_PEAK_VALUE)) 0.

(** The tests in front of the two held-peak updates:
    [... || peakLval > lastMaxLeft] and [... || peakRval > lastMaxRight]. *)
Definition updatesLeft (r : Readings) (s : Plugin) : bool :=
  holdExpired s || Qgtb (peakLval r) (lastMaxLeft s).
Definition updatesRight (r : Readings) (s : Plugin) : bool :=
  holdExpired s || Qgtb (peakRval r) (lastMaxRight s).

(** Lines 540-558: peak hold, clip meters and the elapsed time. *)
Definition peakHoldStep (r : Readings) : M unit :=
  peakHold <- gets peakHoldSeconds ;;
  updL <- gets (updatesLeft r) ;;
  when updL
    (setMeter peakMeterMaxLeft (peakMeterValue (truePeakL r)) ;;
     modify (Upd.clipMeterLeft' (aboveClipThreshold (peakLval r))) ;;
     modify (Upd.lastMaxLeft' (peakLval r))) ;;
  updR <- gets (updatesRight r) ;;
  when updR
    (setMeter peakMeterMaxRight (peakMeterValue (truePeakR r)) ;;
     modify (Upd.clipMeterRight' (aboveClipThreshold (peakRval r))) ;;
     modify (Upd.lastMaxRight' (peakRval r))) ;;
  expired <- gets holdExpired ;;
  when expired (modify (Upd.msSinceLastPeakReset' 0)) ;;
  when (Qgtb peakHold 0)
    (modify (fun s =>
       Upd.msSinceLastPeakReset'
         (msSinceLastPeakReset s + CALLBACK_TIMER_PERIOD_MS) s)).

(** The array [sysexData] of lines 581-597. *)
Definition pairBytes (p : Z * Z) : list Z := [fst p; snd p].

Definition sysexData (r : Readings) (s : Plugin) : list Z :=
  let lufsSints := getMeterIntegralFractional (lufsSval r) in
  let lufsMints := getMeterIntegralFractional (lufsMval r) in
  let lufsIints := getMeterIntegralFractional (lufsIval r) in
  let lufsMinInts := getMeterIntegralFractional (lufsMinVal r) in
  let lufsMaxInts := getMeterIntegralFractional (lufsMaxVal r) in
  let lufsRangeVal := fl32 (lufsMaxVal r - lufsMinVal r) in
  let lufsRangeInts := getMeterIntegralFractional lufsRangeVal in
  let lufsTargetVal := getMeterIntegralFractional (lufsTarget s) in
  let peakLints := getMeterIntegralFractional (peakLval r) in
  let peakRints := getMeterIntegralFractional (peakRval r) in
  let lastMaxLeftInts := getMeterIntegralFractional (lastMaxLeft s) in
  let lastMaxRightInts := getMeterIntegralFractional (lastMaxRight s) in
  let lastMaxTotalVal :=
    if Qgtb (lastMaxLeft s) (lastMaxRight s)
    then lastMaxLeft s else lastMaxRight s in
  let lastMaxTotalInts := getMeterIntegralFractional lastMaxTotalVal in
  sysexManufacturerId
  ++ [SYSEX_COMMAND_METER_DATA]
  ++ pairBytes lufsSints
  ++ pairBytes lufsMints
  ++ pairBytes lufsIints
  ++ pairBytes lufsMinInts
  ++ pairBytes lufsMaxInts
  ++ pairBytes lufsRangeInts
  ++ pairBytes lufsTargetVal
  ++ pairBytes peakLints
  ++ pairBytes peakRints
  ++ pairBytes lastMaxLeftInts
  ++ pairBytes lastMaxRightInts
  ++ pairBytes lastMaxTotalInts
  ++ [ (if aboveClipThreshold (peakLval r) then 1 else 0)%Z;
       (if aboveClipThreshold (peakRval r) then 1 else 0)%Z ].

(** Lines 563-601: the meter packet, sent only through an open port. *)
Definition sendMeterData (r : Readings) : M unit :=
  out <- gets midiOutput ;;
  match out with
  | Some _ =>
      data <- gets (sysexData r) ;;
      sendMessageNow (SysExMessage data)
  | None => ret tt
  end.

(** [hiResTimerCallback], run every 10 ms.  [r] is what
    [lufsProcessor->update()] makes available on this tick.  The final
    [updateFilters] call writes crossover coefficients only, which are not
    part of [Plugin]. *)
Definition hiResTimerCallback (fuel : nat) (r : Readings) : M unit :=
  writeLufsMeters r ;;
  handleLufsReset fuel ;;
  writePeakMeters r ;;
  peakHoldStep r ;;
  sendMeterData r.

(** Successive ticks, one reading each. *)
Fixpoint runTicks (fuel : nat) (rs : list Readings) : M unit :=
  match rs with
  | [] => ret tt
  | r :: rs' => hiResTimerCallback fuel r ;; runTicks fuel rs'
  end.

(** ** Incoming MIDI *)

(** What [handleIncomingMidiMessage] looks at: a SysEx message with its data
    bytes, a note-on with note number and velocity, anything else. *)
Inductive IncomingMidi : Type :=
| isSysEx (data : list Z)
| isNoteOn (noteNumber : Z) (velocity : Z)
| otherMidi.

(** [handleIncomingMidiMessage].  [data[0]] is the first data byte of the
    SysEx message; a message without data bytes carries no command. *)
Definition handleIncomingMidiMessage (fuel : nat) (m : IncomingMidi) : M unit :=
  match m with
  | isSysEx data =>
      match data with
      | d0 :: _ =>
          when (d0 =? SYSEX_COMMAND_SYNC_BUTTONS)%Z
            (forEach button_param_map (fun p =>
               v <- gets (fun s => boolv s (snd p)) ;;
               sendMessageNow (noteOn 1 (fst p) (if v then 1 else 0))))
      | [] => ret tt
      end
  | isNoteOn button velocity =>
      when (velocity =? 127)%Z
        match find (fun kv => (fst kv =? button)%Z) button_param_map with
        | Some kv =>
            v <- gets (fun s => boolv s (snd kv)) ;;
            setValueNotifyingHost fuel (snd kv) (negb v)
        | None => ret tt
        end
  | otherMidi => ret tt
  end.

(** ** The band solo router of [processBlock] (lines 417-454) *)

(** [isAnyBandSolo]. *)
Fixpoint anySolo (s : Plugin) (bands : list BoolParam) : bool :=
  match bands with
  | [] => false
  | b :: bands' => if boolv s b then true else anySolo s bands'
  end.

Definition isAnyBandSolo (s : Plugin) : bool := anySolo s bandSolo.

(** [filtCount]: four filters for an inner band, two for an edge band. *)
Definition filtCount (band : nat) : nat :=
  if (0 <? band)%nat && (band <? numBands - 1)%nat then 4%nat else 2%nat.

Section BandSoloRouter.

(** Samples with their zero and sum, and the external filter unit: one call
    of [applyFilter] reads a block, writes a block of the same length and
    advances the filter's own state. *)
Variable sample : Type.
Variable zero : sample.
Variable add : sample -> sample -> sample.
Variable CrossoverFilter : Type.
Variable applyFilter : CrossoverFilter -> list sample -> CrossoverFilter * list sample.

(** One channel of an [AudioBuffer] is a list of samples. *)
Definition Channel : Type := list sample.

(** [buffer[sample] += chanBuffer[sample]] over the block. *)
Fixpoint sumInto (buffer chanBuffer : Channel) : Channel :=
  match buffer, chanBuffer with
  | x :: buffer', y :: chanBuffer' => add x y :: sumInto buffer' chanBuffer'
  | _, _ => buffer
  end.

(** The loop over [i]: the first filter reads the input channel, each later
    one reads [chanBuffer], all write [chanBuffer]. *)
Fixpoint applyChain (chain : list CrossoverFilter) (source : Channel)
  : list CrossoverFilter * Channel :=
  match chain with
  | [] => ([], source)
  | f :: chain' =>
      let '(f', chanBuffer) := applyFilter f source in
      let '(chain'', out) := applyChain chain' chanBuffer in
      (f' :: chain'', out)
  end.

(** The loop over [band] for one channel.  [filters] is what is left of the
    channel's row from [filtIndex] on. *)
Fixpoint routeBands (s : Plugin) (band : nat) (bands : list BoolParam)
    (filters : list CrossoverFilter) (input output : Channel)
  : list CrossoverFilter * Channel :=
  match bands with
  | [] => (filters, output)
  | b :: bands' =>
      let chain := firstn (filtCount band) filters in
      let later := skipn (filtCount band) filters in
      if boolv s b then
        let '(chain', chanBuffer) := applyChain chain input in
        let '(later', output') :=
          routeBands s (S band) bands' later input (sumInto output chanBuffer) in
        (chain' ++ later', output')
      else
        let '(later', output') :=
          routeBands s (S band) bands' later input output in
        (chain ++ later', output')
  end.

(** [buffer.clear()] on one channel. *)
Definition cleared (c : Channel) : Channel := map (fun _ => zero) c.

(** The loop over [chan]: one row of [crossoverFilters] per input channel;
    channels beyond the input channels stay cleared. *)
Fixpoint routeChannels (s : Plugin) (crossoverFilters : list (list CrossoverFilter))
    (inputBuffer : list Channel)
  : list (list CrossoverFilter) * list Channel :=
  match crossoverFilters, inputBuffer with
  | row :: rows, input :: inputs =>
      let '(row', output) := routeBands s 0 bandSolo row input (cleared input) in
      let '(rows', outputs) := routeChannels s rows inputs in
      (row' :: rows', output :: outputs)
  | _, _ => (crossoverFilters, map cleared inputBuffer)
  end.

(** The first stage of [processBlock]. *)
Definition bandSoloRouter (s : Plugin) (crossoverFilters : list (list CrossoverFilter))
    (buffer : list Channel)
  : list (list CrossoverFilter) * list Channel :=
  if isAnyBandSolo s then routeChannels s crossoverFilters buffer
  else (crossoverFilters, buffer).

End BandSoloRouter.


(** ** A freshly constructed processor *)

(** The members as the constructor leaves them: every mode off, target
    -16 LUFS, hold 5 s, no time elapsed, the meter parameters at their
    default 0 dB (normalised over their ranges).  [lastMaxLeft] and
    [lastMaxRight] are not assigned by the constructor and are given by
    [held]; [out] is the result of opening the output port. *)
Definition constructed (out : option (list MidiMessage)) (held : Q) : Plugin :=
  mkPlugin
    (fun _ => false)
    (fun m =>
       match m with
       | peakMeterLeft | peakMeterRight | peakMeterMaxLeft | peakMeterMaxRight =>
           125 # 128
       | _ => 1
       end)
    false false
    (-16) 5
    held held
    0
    (mkLufs 0 0)
    out.

(** A reading with every loudness at [lufs] and both true peaks at [peak]. *)
Definition steady (lufs peak : Q) : Readings :=
  mkReadings lufs lufs lufs lufs lufs peak peak.

(** ** Names used in the statements *)

(** The pairs [(p, q)] for which the callback clears [q] when [p] is set. *)
Definition exclusivePairs : list (BoolParam * BoolParam) :=
  [ (midSolo, sideSolo); (sideSolo, midSolo);
    (dimMode, refMode); (refMode, dimMode) ].

(** The parameters named in the guard in front of [lufsProcessor->reset()]. *)
Definition resetExempt : list BoolParam :=
  [dimMode; refMode; muteMode; volModMode].

(** The members as the peak-hold step of a tick finds them: a pending reset
    request has zeroed the elapsed time by then. *)
Definition holdView (s : Plugin) : Plugin :=
  Upd.msSinceLastPeakReset'
    (if boolv s lufsReset then 0 else msSinceLastPeakReset s) s.

(** The twelve quantities a meter packet carries as byte pairs, in packet
    order, read after the tick: short-term, momentary and integrated
    loudness, range minimum, range maximum, range span (a single-precision
    difference), loudness target, true peak left and right less the 3 dB
    ceiling (the floats [peakLval] and [peakRval]), held peak left and
    right (which are earlier values of [peakLval] and [peakRval]), and the
    larger held peak. *)
Definition packetValues (r : Readings) (s : Plugin) : list Q :=
  [ lufsSval r; lufsMval r; lufsIval r; lufsMinVal r; lufsMaxVal r;
    fl32 (lufsMaxVal r - lufsMinVal r);
    lufsTarget s;
    peakLval r;
    peakRval r;
    lastMaxLeft s; lastMaxRight s;
    if Qgtb (lastMaxLeft s) (lastMaxRight s)
    then lastMaxLeft s else lastMaxRight s ].

(** The clip parameter of a channel agrees with its held peak: it is set
    exactly when the held peak passes the clip test. *)
Definition clipAgreesLeft (s : Plugin) : Prop :=
  clipMeterLeft s = aboveClipThreshold (lastMaxLeft s).
Definition clipAgreesRight (s : Plugin) : Prop :=
  clipMeterRight s = aboveClipThreshold (lastMaxRight s).

(** The clip test sees a true peak only when it exceeds 0 dB by more than
    this: [2^-23] dB. *)
Definition clipMargin : Q := 1 # 8388608.

(** The hold duration in milliseconds as the expiry test computes it. *)
Definition holdMilliseconds (s : Plugin) : Q := fl32 (peakHoldSeconds s * 1000).

(** ** Proof automation *)

(** Unfolds the steps of the timer callback down to the tests on the
    members, and splits on those tests. *)
Ltac run_tick :=
  cbv [hiResTimerCallback writeLufsMeters writePeakMeters peakHoldStep
       sendMeterData setMeter sendMessageNow bind gets modify when ret
       Upd.boolv' Upd.meterv' Upd.clipMeterLeft' Upd.clipMeterRight'
       Upd.lastMaxLeft' Upd.lastMaxRight' Upd.msSinceLastPeakReset'
       Upd.lufsProcessor' Upd.midiOutput'
       boolv meterv clipMeterLeft clipMeterRight lufsTarget peakHoldSeconds
       lastMaxLeft lastMaxRight msSinceLastPeakReset lufsProcessor midiOutput
       updatesLeft updatesRight holdExpired].

Ltac split_tests :=
  repeat (run_tick;
          match goal with
          | |- context [if ?c then _ else _] => destruct c eqn:?
          | |- context [match ?o with Some _ => _ | None => _ end] => destruct o
          end).

(** * Further parts of the processor *)

(** ** Reading a byte pair back *)

(** The value a byte pair stands for on the hardware side: "we send float
    values as 2 bytes, integral and fractional", hundredths in the second
    byte. *)
Definition pairValue (p : Z * Z) : Q := inject_Z (fst p) + inject_Z (snd p) / 100.

(** ** Exclusive modes *)

(** Neither exclusive pair has both members on. *)
Definition exclusive (s : Plugin) : Prop :=
  boolv s midSolo && boolv s sideSolo = false
  /\ boolv s dimMode && boolv s refMode = false.

(** ** Buttons and partners of the mode parameters *)

(** The note number the callback finds for a parameter. *)
Definition buttonOf (p : BoolParam) : Z :=
  findButton (paramID p) boolNotifyParameters.

(** The parameter the callback clears when [p] is set, if any. *)
Definition partnerOf (p : BoolParam) : option BoolParam :=
  option_map snd
    (find (fun pq => if BoolParam_eq_dec (fst pq) p then true else false)
       exclusivePairs).

(** The button-state messages of one write of [v] to [p]: the echo of a
    cleared partner first, the echo of [p] last. *)
Definition echoes (p : BoolParam) (v : bool) : list MidiMessage :=
  (if v then
     match partnerOf p with
     | Some q => [noteOn 1 (buttonOf q) 0]
     | None => []
     end
   else [])
  ++ [noteOn 1 (buttonOf p) (if v then 1 else 0)].

(** ** The crossover filter topology *)

(** Four filters per crossover in each channel's row, as allocated by
    [prepareToPlay]. *)
Definition filtersPerRow : nat := numCrossovers * 4.

(** [v[i] = x] on a vector. *)
Fixpoint replaceAt {A : Type} (i : nat) (x : A) (v : list A) : list A :=
  match v, i with
  | [], _ => []
  | _ :: v', O => x :: v'
  | y :: v', S i' => y :: replaceAt i' x v'
  end.

Section FilterTopology.

(** The external filter unit: [makeCrossover frequency sampleRate enabled
    highpass] on a filter object, and a newly made object. *)
Variable CrossoverFilter : Type.
Variable makeCrossover : CrossoverFilter -> Q -> Q -> bool -> bool -> CrossoverFilter.
Variable newCrossoverFilter : CrossoverFilter.

(** [makeCrossover] on [crossoverFilters[chan][filtIndex]] with the value
    of [crossoverFreq[k]], enabled, as a high-pass or a low-pass; [None]
    when an index is outside its vector. *)
Definition configureAt (crossoverFreq : list Q) (sampleRate : Q)
    (row : list CrossoverFilter) (filtIndex k : nat) (highpass : bool)
  : option (list CrossoverFilter) :=
  match nth_error row filtIndex, nth_error crossoverFreq k with
  | Some f, Some freq =>
      Some (replaceAt filtIndex (makeCrossover f freq sampleRate true highpass) row)
  | _, _ => None
  end.

(** One pass of the loop over [i] for a band, on the row and [filtIndex]. *)
Definition configureBand (crossoverFreq : list Q) (sampleRate : Q) (band : nat)
    (st : list CrossoverFilter * nat) : option (list CrossoverFilter * nat) :=
  let '(row, filtIndex) := st in
  if (band =? 0)%nat then
    match configureAt crossoverFreq sampleRate row filtIndex band false with
    | Some row' => Some (row', (filtIndex + 1)%nat)
    | None => None
    end
  else if (band <? numBands - 1)%nat then
    match configureAt crossoverFreq sampleRate row filtIndex (band - 1) true with
    | Some row' =>
        match configureAt crossoverFreq sampleRate row' (filtIndex + 1) band false with
        | Some row'' => Some (row'', (filtIndex + 2)%nat)
        | None => None
        end
    | None => None
    end
  else
    match configureAt crossoverFreq sampleRate row filtIndex (band - 1) true with
    | Some row' => Some (row', (filtIndex + 1)%nat)
    | None => None
    end.

(** The loop over [band], with its two passes ([i = 0, 1]) per band. *)
Fixpoint configureBands (crossoverFreq : list Q) (sampleRate : Q)
    (bands : list nat) (st : list CrossoverFilter * nat)
  : option (list CrossoverFilter * nat) :=
  match bands with
  | [] => Some st
  | band :: bands' =>
      match configureBand crossoverFreq sampleRate band st with
      | Some st1 =>
          match configureBand crossoverFreq sampleRate band st1 with
          | Some st2 => configureBands crossoverFreq sampleRate bands' st2
          | None => None
          end
      | None => None
      end
  end.

(** The body of the loop over [chan]: [filtIndex] starts at 0. *)
Definition updateRow (crossoverFreq : list Q) (sampleRate : Q)
    (row : list CrossoverFilter) : option (list CrossoverFilter) :=
  option_map fst
    (configureBands crossoverFreq sampleRate (seq 0 numBands) (row, 0%nat)).

(** [updateFilters]: every channel's row in turn. *)
Fixpoint updateFilters (crossoverFreq : list Q) (sampleRate : Q)
    (crossoverFilters : list (list CrossoverFilter))
  : option (list (list CrossoverFilter)) :=
  match crossoverFilters with
  | [] => Some []
  | row :: rows =>
      match updateRow crossoverFreq sampleRate row with
      | Some row' =>
          match updateFilters crossoverFreq sampleRate rows with
          | Some rows' => Some (row' :: rows')
          | None => None
          end
      | None => None
      end
  end.

(** The crossover part of [prepareToPlay] (lines 319-335): one row per
    channel, [numCrossovers * 4] new filters per row, then
    [updateFilters]. *)
Definition prepareCrossovers (numChannels : nat) (crossoverFreq : list Q)
    (sampleRate : Q) : option (list (list CrossoverFilter)) :=
  updateFilters crossoverFreq sampleRate
    (repeat (repeat newCrossoverFilter filtersPerRow) numChannels).

End FilterTopology.

(** ** The remaining stages of [processBlock] *)

(** The level parameters read by the gain stage. *)
Record Levels : Type := mkLevels {
  monitorLevel : Q;
  dimLevel : Q;
  refLevel : Q
}.

(** Lines 459-463, over the samples of channels 0 and 1:
    [buffer[0][i] = (buffer[0][i] + buffer[1][i]) / 2.0; buffer[1][i] = buffer[0][i]]. *)
Fixpoint midLoop (ch0 ch1 : list Q) : list Q * list Q :=
  match ch0, ch1 with
  | l :: ch0', r :: ch1' =>
      let m := (l + r) / 2 in
      let '(o0, o1) := midLoop ch0' ch1' in
      (m :: o0, m :: o1)
  | _, _ => (ch0, ch1)
  end.

(** Lines 470-475, reading the copy [inputBuffer]. *)
Fixpoint sideLoop (in0 in1 : list Q) : list Q * list Q :=
  match in0, in1 with
  | l :: in0', r :: in1' =>
      let d := ((r - l) + - (l - r)) / 2 in
      let '(o0, o1) := sideLoop in0' in1' in
      (d :: o0, d :: o1)
  | _, _ => (in0, in1)
  end.

(** A loop over the samples that touches channels 0 and 1.  With no sample
    the body never runs; with samples and fewer than two channels channel 1
    is read outside the buffer ([None]). *)
Definition onStereo (loop : list Q -> list Q -> list Q * list Q)
    (buffer : list (list Q)) : option (list (list Q)) :=
  match buffer with
  | ch0 :: ch1 :: rest =>
      let '(o0, o1) := loop ch0 ch1 in Some (o0 :: o1 :: rest)
  | [[]] => Some buffer
  | [] => Some buffer
  | [_ :: _] => None
  end.

(** Lines 456-476: mid solo, else side solo, else nothing. *)
Definition midSideStage (s : Plugin) (buffer : list (list Q))
  : option (list (list Q)) :=
  if boolv s midSolo then onStereo midLoop buffer
  else if boolv s sideSolo then onStereo sideLoop buffer
  else Some buffer.

(** Lines 491-503: the level by priority, then silence or gain. *)
Definition currentGainDb (s : Plugin) (lv : Levels) : Q :=
  if boolv s dimMode then dimLevel lv
  else if boolv s refMode then refLevel lv
  else monitorLevel lv.

Section ProcessBlock.

(** External units: the crossover filter of the router, the IIR filter of
    the loudness equaliser ([processSamples] works in place on one channel)
    and the decibel-to-gain conversion. *)
Variable CrossoverFilter : Type.
Variable applyFilter : CrossoverFilter -> list Q -> CrossoverFilter * list Q.
Variable IIRFilter : Type.
Variable processSamples : IIRFilter -> list Q -> IIRFilter * list Q.
Variable decibelsToGain : Q -> Q.

(** The loop over [i] of lines 483-484: filters in series on one channel. *)
Fixpoint eqChain (filters : list IIRFilter) (channel : list Q)
  : list IIRFilter * list Q :=
  match filters with
  | [] => ([], channel)
  | f :: filters' =>
      let '(f', channel') := processSamples f channel in
      let '(filters'', out) := eqChain filters' channel' in
      (f' :: filters'', out)
  end.

(** The loop over [chan] of lines 481-485: the first 7 filters of each
    channel's row ([prepareToPlay] makes rows of 7). *)
Fixpoint eqChannels (loudnessEqFilters : list (list IIRFilter))
    (buffer : list (list Q)) : list (list IIRFilter) * list (list Q) :=
  match loudnessEqFilters, buffer with
  | row :: rows, channel :: channels =>
      let '(used, out) := eqChain (firstn 7 row) channel in
      let '(rows', outs) := eqChannels rows channels in
      ((used ++ skipn 7 row) :: rows', out :: outs)
  | _, _ => (loudnessEqFilters, buffer)
  end.

Definition loudnessEqStage (s : Plugin) (loudnessEqFilters : list (list IIRFilter))
    (buffer : list (list Q)) : list (list IIRFilter) * list (list Q) :=
  if boolv s loudnessMode then eqChannels loudnessEqFilters buffer
  else (loudnessEqFilters, buffer).

Definition gainStage (s : Plugin) (lv : Levels) (buffer : list (list Q))
  : list (list Q) :=
  if boolv s muteMode || Qle_bool (currentGainDb s lv) LOWEST_VOLUME_VALUE
  then map (cleared Q 0) buffer
  else
    let gain := decibelsToGain (currentGainDb s lv) in
    map (map (fun x => x * gain)) buffer.

(** What one call of [processBlock] leaves: the filter objects, the block
    handed to [lufsProcessor->processBlock], the processor, and the
    buffer. *)
Record Processed : Type := mkProcessed {
  crossoverFiltersAfter : list (list CrossoverFilter);
  loudnessEqFiltersAfter : list (list IIRFilter);
  measured : list (list Q);
  pluginAfter : Plugin;
  bufferAfter : list (list Q)
}.

(** [processBlock]. *)
Definition processBlock (s : Plugin) (lv : Levels)
    (crossoverFilters : list (list CrossoverFilter))
    (loudnessEqFilters : list (list IIRFilter))
    (buffer : list (list Q)) : option Processed :=
  let '(xf, b1) :=
    bandSoloRouter Q 0 Qplus CrossoverFilter applyFilter s crossoverFilters buffer in
  match midSideStage s b1 with
  | None => None
  | Some b2 =>
      let '(ef, b3) := loudnessEqStage s loudnessEqFilters b2 in
      let lp := lufsProcessor s in
      Some (mkProcessed xf ef b3
              (Upd.lufsProcessor' (mkLufs (S (accumulated lp)) (resets lp)) s)
              (gainStage s lv b3))
  end.

End ProcessBlock.
(** * Properties *)

(** ** Float helpers *)

Lemma Qgtb_true (a b : Q) : Qgtb a b = true <-> b < a.
Proof.
  unfold Qgtb, Qltb. rewrite negb_true_iff.
  split; intro H.
  - apply Qnot_le_lt. intro L. apply Qle_bool_iff in L. congruence.
  - destruct (Qle_bool a b) eqn:E; [|reflexivity].
    apply Qle_bool_iff in E. exfalso. apply (Qlt_not_le _ _ H E).
Qed.

Lemma Qgtb_false (a b : Q) : Qgtb a b = false <-> a <= b.
Proof.
  unfold Qgtb, Qltb. rewrite negb_false_iff. apply Qle_bool_iff.
Qed.

Lemma Qgeb_true (a b : Q) : Qgeb a b = true <-> b <= a.
Proof. unfold Qgeb. apply Qle_bool_iff. Qed.

Lemma Qgeb_false (a b : Q) : Qgeb a b = false <-> a < b.
Proof.
  unfold Qgeb. split; intro H.
  - apply Qnot_le_lt. intro L. apply Qle_bool_iff in L. congruence.
  - destruct (Qle_bool b a) eqn:E; [|reflexivity].
    apply Qle_bool_iff in E. exfalso. apply (Qlt_not_le _ _ H E).
Qed.

Lemma Qtrunc_inject_Z (z : Z) : Qtrunc (inject_Z z) = z.
Proof. unfold Qtrunc. simpl. apply Z.quot_1_r. Qed.

Lemma Qabs_inject_Z (z : Z) : Qabs (inject_Z z) = inject_Z (Z.abs z).
Proof. reflexivity. Qed.

Lemma Qle_bool_comp (a b c d : Q) :
  a == c -> b == d -> Qle_bool a b = Qle_bool c d.
Proof.
  intros H1 H2.
  destruct (Qle_bool a b) eqn:E1, (Qle_bool c d) eqn:E2; try reflexivity.
  - apply Qle_bool_iff in E1. rewrite H1, H2 in E1.
    apply Qle_bool_iff in E1. congruence.
  - apply Qle_bool_iff in E2. rewrite <- H1, <- H2 in E2.
    apply Qle_bool_iff in E2. congruence.
Qed.

(** ** Rounding to a binary format *)

Lemma pow2_pos e : 0 < pow2 e.
Proof. apply Qpower_0_lt. reflexivity. Qed.

Lemma pow2_add a b : pow2 (a + b) == pow2 a * pow2 b.
Proof. apply Qpower_plus. discriminate. Qed.

Lemma pow2_le a b : (a <= b)%Z -> pow2 a <= pow2 b.
Proof. intros H. apply Qpower_le_compat_l; [exact H | discriminate]. Qed.

Lemma pow2_lt a b : (a < b)%Z -> pow2 a < pow2 b.
Proof. intros H. apply Qpower_lt_compat_l; [exact H | reflexivity]. Qed.

Lemma pow2_lt_inv a b : pow2 a < pow2 b -> (a < b)%Z.
Proof. intros H. apply (Qpower_lt_compat_l_inv 2); [exact H | reflexivity]. Qed.

Lemma pow2_Z e : (0 <= e)%Z -> pow2 e == inject_Z (2 ^ e).
Proof. intros H. unfold pow2. rewrite (Zpower_Qpower 2 e H). reflexivity. Qed.

Lemma pow2_succ e : pow2 (e + 1) == 2 * pow2 e.
Proof. rewrite pow2_add. change (pow2 1) with 2. ring. Qed.

(** [mag x] is the binary order of magnitude of a positive [x]. *)
Lemma mag_spec x : 0 < x -> pow2 (mag x) <= x /\ x < pow2 (mag x + 1).
Proof.
  intros Hx. destruct x as [n d].
  assert (Hn : (0 < n)%Z).
  { unfold Qlt in Hx. simpl in Hx. lia. }
  unfold mag. cbn [Qnum Qden].
  set (a := Z.log2 n). set (b := Z.log2 (Zpos d)).
  destruct (Z.log2_spec n Hn) as [Ha1 Ha2]. fold a in Ha1, Ha2.
  destruct (Z.log2_spec (Zpos d) (Pos2Z.is_pos d)) as [Hb1 Hb2]. fold b in Hb1, Hb2.
  assert (Ha0 : (0 <= a)%Z) by apply Z.log2_nonneg.
  assert (Hb0 : (0 <= b)%Z) by apply Z.log2_nonneg.
  assert (HD : 0 < inject_Z (Zpos d)) by reflexivity.
  assert (Hxd : (n # d) * inject_Z (Zpos d) == inject_Z n).
  { unfold Qeq, Qmult, inject_Z. simpl. lia. }
  assert (Lo : pow2 (a - b - 1) <= n # d).
  { apply (Qmult_le_r _ _ (inject_Z (Zpos d)) HD). rewrite Hxd.
    apply Qle_trans with (pow2 (a - b - 1) * pow2 (b + 1)).
    - apply Qmult_le_l; [apply pow2_pos|].
      rewrite (pow2_Z (b + 1)) by lia. rewrite <- Zle_Qle.
      replace (Z.succ b) with (b + 1)%Z in Hb2 by lia. lia.
    - rewrite <- pow2_add. replace (a - b - 1 + (b + 1))%Z with a by lia.
      rewrite (pow2_Z a Ha0). rewrite <- Zle_Qle. exact Ha1. }
  assert (Hi : n # d < pow2 (a - b + 1)).
  { apply (Qmult_lt_r _ _ (inject_Z (Zpos d)) HD). rewrite Hxd.
    apply Qlt_le_trans with (pow2 (a - b + 1) * pow2 b).
    - rewrite <- pow2_add. replace (a - b + 1 + b)%Z with (a + 1)%Z by lia.
      rewrite (pow2_Z (a + 1)) by lia. rewrite <- Zlt_Qlt.
      replace (Z.succ a) with (a + 1)%Z in Ha2 by lia. exact Ha2.
    - apply Qmult_le_l; [apply pow2_pos|].
      rewrite (pow2_Z b Hb0). rewrite <- Zle_Qle. exact Hb1. }
  destruct (Qle_bool (pow2 (a - b)) (n # d)) eqn:E.
  - split; [apply Qle_bool_iff; exact E | exact Hi].
  - split.
    + exact Lo.
    + replace (a - b - 1 + 1)%Z with (a - b)%Z by lia.
      apply Qnot_le_lt. intros C. apply Qle_bool_iff in C. congruence.
Qed.

Lemma mag_unique x e : pow2 e <= x -> x < pow2 (e + 1) -> mag x = e.
Proof.
  intros H1 H2.
  assert (Hx : 0 < x) by (eapply Qlt_le_trans; [apply (pow2_pos e) | exact H1]).
  destruct (mag_spec x Hx) as [M1 M2].
  assert (A : (mag x < e + 1)%Z)
    by (apply pow2_lt_inv; eapply Qle_lt_trans; eassumption).
  assert (B : (e < mag x + 1)%Z)
    by (apply pow2_lt_inv; eapply Qle_lt_trans; eassumption).
  lia.
Qed.

Lemma mag_le x y : 0 < x -> x <= y -> (mag x <= mag y)%Z.
Proof.
  intros Hx Hxy.
  assert (Hy : 0 < y) by (eapply Qlt_le_trans; eassumption).
  destruct (mag_spec x Hx) as [M1 _]. destruct (mag_spec y Hy) as [_ M2].
  assert (mag x < mag y + 1)%Z.
  { apply pow2_lt_inv. eapply Qle_lt_trans; [exact M1|].
    eapply Qle_lt_trans; eassumption. }
  lia.
Qed.

Lemma mag_comp x y : 0 < x -> x == y -> mag x = mag y.
Proof.
  intros Hx E. destruct (mag_spec x Hx) as [M1 M2].
  symmetry. apply mag_unique; rewrite <- E; assumption.
Qed.

(** Nearest integer, ties to even. *)
Lemma rne_cases m :
  (rne m = Qfloor m /\ m - inject_Z (Qfloor m) <= 1 # 2)
  \/ (rne m = (Qfloor m + 1)%Z /\ 1 # 2 <= m - inject_Z (Qfloor m)).
Proof.
  unfold rne. destruct (Qcompare_spec (m - inject_Z (Qfloor m)) (1 # 2)) as [E|E|E].
  - destruct (Z.even (Qfloor m)); [left | right]; (split; [reflexivity | rewrite E; apply Qle_refl]).
  - left. split; [reflexivity | apply Qlt_le_weak; exact E].
  - right. split; [reflexivity | apply Qlt_le_weak; exact E].
Qed.

Lemma rne_comp x y : x == y -> rne x = rne y.
Proof.
  intros E. unfold rne. rewrite (Qfloor_comp _ _ E).
  rewrite (Qcompare_comp (x - inject_Z (Qfloor y)) (y - inject_Z (Qfloor y))
             ltac:(rewrite E; reflexivity) (1 # 2) (1 # 2) ltac:(reflexivity)).
  reflexivity.
Qed.

Lemma rne_ge m k : inject_Z k <= m -> (k <= rne m)%Z.
Proof.
  intros H. assert (F : (k <= Qfloor m)%Z).
  { rewrite <- (Qfloor_Z k). apply Qfloor_resp_le. exact H. }
  destruct (rne_cases m) as [[-> _]|[-> _]]; lia.
Qed.

Lemma rne_le m k : m <= inject_Z k -> (rne m <= k)%Z.
Proof.
  intros H. pose proof (Qfloor_le m) as F.
  destruct (rne_cases m) as [[-> _]|[-> D]].
  - rewrite Zle_Qle. lra.
  - assert (K : inject_Z (Qfloor m) < inject_Z k) by lra.
    rewrite <- Zlt_Qlt in K. lia.
Qed.

Lemma rne_Z k : rne (inject_Z k) = k.
Proof.
  pose proof (rne_ge (inject_Z k) k (Qle_refl _)).
  pose proof (rne_le (inject_Z k) k (Qle_refl _)). lia.
Qed.

Lemma rne_near m : Qabs (inject_Z (rne m) - m) <= 1 # 2.
Proof.
  pose proof (Qfloor_le m) as F. pose proof (Qlt_floor m) as G.
  rewrite inject_Z_plus in G. change (inject_Z 1) with 1 in G.
  apply Qabs_Qle_condition.
  destruct (rne_cases m) as [[-> D]|[-> D]].
  - split; lra.
  - rewrite inject_Z_plus. change (inject_Z 1) with 1. split; lra.
Qed.

Lemma rne_mono x y : x <= y -> (rne x <= rne y)%Z.
Proof.
  intros H.
  pose proof (Qfloor_resp_le x y H) as F.
  destruct (Z.eq_dec (Qfloor x) (Qfloor y)) as [E|N].
  - unfold rne. rewrite E.
    destruct (Qcompare_spec (x - inject_Z (Qfloor y)) (1 # 2)) as [A|A|A];
      destruct (Qcompare_spec (y - inject_Z (Qfloor y)) (1 # 2)) as [B|B|B];
      try lia; try (exfalso; lra);
      destruct (Z.even (Qfloor y)); lia.
  - assert (rne x <= Qfloor x + 1)%Z by (destruct (rne_cases x) as [[-> _]|[-> _]]; lia).
    assert (Qfloor y <= rne y)%Z by (destruct (rne_cases y) as [[-> _]|[-> _]]; lia).
    lia.
Qed.

Lemma rne_floor m k : inject_Z k <= m -> m < inject_Z k + (1 # 2) -> rne m = k.
Proof.
  intros L U. pose proof (rne_ge m k L) as G.
  pose proof (rne_near m) as N. apply Qabs_Qle_condition in N.
  assert (K : inject_Z (rne m) < inject_Z (k + 1)).
  { rewrite inject_Z_plus. change (inject_Z 1) with 1. lra. }
  rewrite <- Zlt_Qlt in K. lia.
Qed.

Section Rounding.
Variables prec emin : Z.
Hypothesis prec_pos : (1 <= prec)%Z.

Lemma cexp_le x y : 0 < x -> x <= y -> (cexp prec emin x <= cexp prec emin y)%Z.
Proof. intros Hx H. unfold cexp. pose proof (mag_le x y Hx H). lia. Qed.

Lemma roundPos_comp x y : 0 < x -> x == y -> roundPos prec emin x = roundPos prec emin y.
Proof.
  intros Hx E. unfold roundPos, cexp. rewrite (mag_comp x y Hx E).
  set (c := Z.max (mag y - (prec - 1)) emin).
  rewrite (rne_comp (x / pow2 c) (y / pow2 c)); [reflexivity | rewrite E; reflexivity].
Qed.

Lemma roundPos_nonneg x : 0 < x -> 0 <= roundPos prec emin x.
Proof.
  intros Hx. unfold roundPos. apply Qmult_le_0_compat.
  - change 0 with (inject_Z 0). rewrite <- Zle_Qle. apply rne_ge.
    change (inject_Z 0) with 0. apply Qle_shift_div_l; [apply pow2_pos|]. lra.
  - apply Qlt_le_weak, pow2_pos.
Qed.

Lemma scaled_pow2 a c : pow2 a / pow2 c == pow2 (a - c).
Proof.
  replace a with (a - c + c)%Z at 1 by lia. rewrite pow2_add.
  apply Qdiv_mult_l. intros E. pose proof (pow2_pos c). lra.
Qed.

(** A power of two above the rounding step is left alone: rounding does not
    cross it. *)
Lemma roundPos_le_pow2 x a :
  0 < x -> x <= pow2 a -> (cexp prec emin x <= a)%Z -> roundPos prec emin x <= pow2 a.
Proof.
  intros Hx H C. unfold roundPos. set (c := cexp prec emin x) in *.
  assert (K : pow2 a == inject_Z (2 ^ (a - c)) * pow2 c).
  { rewrite <- pow2_Z by lia. rewrite <- pow2_add.
    replace (a - c + c)%Z with a by lia. reflexivity. }
  rewrite K. apply Qmult_le_r; [apply pow2_pos|].
  rewrite <- Zle_Qle. apply rne_le.
  rewrite <- pow2_Z by lia. rewrite <- scaled_pow2.
  apply Qmult_le_r; [apply Qinv_lt_0_compat, pow2_pos | exact H].
Qed.

Lemma roundPos_ge_pow2 x a :
  pow2 a <= x -> (cexp prec emin x <= a)%Z -> pow2 a <= roundPos prec emin x.
Proof.
  intros H C. unfold roundPos. set (c := cexp prec emin x) in *.
  assert (K : pow2 a == inject_Z (2 ^ (a - c)) * pow2 c).
  { rewrite <- pow2_Z by lia. rewrite <- pow2_add.
    replace (a - c + c)%Z with a by lia. reflexivity. }
  rewrite K. apply Qmult_le_r; [apply pow2_pos|].
  rewrite <- Zle_Qle. apply rne_ge.
  rewrite <- pow2_Z by lia. rewrite <- scaled_pow2.
  apply Qmult_le_r; [apply Qinv_lt_0_compat, pow2_pos | exact H].
Qed.

Lemma roundPos_mono x y :
  0 < x -> x <= y -> roundPos prec emin x <= roundPos prec emin y.
Proof.
  intros Hx H.
  assert (Hy : 0 < y) by (eapply Qlt_le_trans; eassumption).
  pose proof (cexp_le x y Hx H) as C.
  destruct (Z.eq_dec (cexp prec emin x) (cexp prec emin y)) as [E|N].
  - unfold roundPos. rewrite E. apply Qmult_le_r; [apply pow2_pos|].
    rewrite <- Zle_Qle. apply rne_mono.
    apply Qmult_le_r; [apply Qinv_lt_0_compat, pow2_pos | exact H].
  - destruct (mag_spec x Hx) as [_ X2]. destruct (mag_spec y Hy) as [Y1 _].
    assert (M : (mag x + 1 <= mag y)%Z) by (unfold cexp in *; lia).
    apply Qle_trans with (pow2 (mag y)).
    + apply roundPos_le_pow2; [exact Hx | | unfold cexp in *; lia].
      apply Qlt_le_weak. eapply Qlt_le_trans; [exact X2 | apply pow2_le; exact M].
    + apply roundPos_ge_pow2; [exact Y1 | unfold cexp in *; lia].
Qed.

(** The rounding error is at most half a step. *)
Lemma roundPos_error x k :
  0 < x -> x < pow2 k ->
  Qabs (roundPos prec emin x - x) <= pow2 (Z.max (k - prec) emin) * (1 # 2).
Proof.
  intros Hx H. destruct (mag_spec x Hx) as [M1 _].
  assert (M : (mag x < k)%Z) by (apply pow2_lt_inv; eapply Qle_lt_trans; eassumption).
  unfold roundPos. set (c := cexp prec emin x).
  assert (C : (c <= Z.max (k - prec) emin)%Z) by (unfold c, cexp; lia).
  pose proof (pow2_pos c) as Pc.
  assert (E : inject_Z (rne (x / pow2 c)) * pow2 c - x
              == (inject_Z (rne (x / pow2 c)) - x / pow2 c) * pow2 c).
  { field. intros Z0. lra. }
  rewrite E, Qabs_Qmult, (Qabs_pos (pow2 c)) by lra.
  apply Qle_trans with ((1 # 2) * pow2 c).
  - apply Qmult_le_r; [exact Pc | apply rne_near].
  - pose proof (pow2_le _ _ C). lra.
Qed.

Lemma roundTo_comp x y : x == y -> roundTo prec emin x = roundTo prec emin y.
Proof.
  intros E. unfold roundTo.
  rewrite (Qcompare_comp x y E 0 0 ltac:(reflexivity)).
  destruct (Qcompare_spec y 0) as [A|A|A]; [reflexivity| |].
  - f_equal. apply roundPos_comp; [rewrite E; lra | rewrite E; reflexivity].
  - apply roundPos_comp; [rewrite E; exact A | exact E].
Qed.

Lemma roundTo_nonneg x : 0 <= x -> 0 <= roundTo prec emin x.
Proof.
  intros H. unfold roundTo. destruct (Qcompare_spec x 0) as [A|A|A].
  - apply Qle_refl.
  - exfalso; lra.
  - apply roundPos_nonneg; exact A.
Qed.

Lemma roundTo_nonpos x : x <= 0 -> roundTo prec emin x <= 0.
Proof.
  intros H. unfold roundTo. destruct (Qcompare_spec x 0) as [A|A|A].
  - apply Qle_refl.
  - pose proof (roundPos_nonneg (- x) ltac:(lra)). lra.
  - exfalso; lra.
Qed.

Lemma roundTo_opp x : roundTo prec emin (- x) == - roundTo prec emin x.
Proof.
  unfold roundTo.
  destruct (Qcompare_spec x 0) as [A|A|A];
    destruct (Qcompare_spec (- x) 0) as [B|B|B]; try (exfalso; lra).
  - reflexivity.
  - ring.
  - rewrite (roundPos_comp (- - x) x); [reflexivity | lra | ring].
Qed.

(** Rounding is monotone. *)
Lemma roundTo_mono x y : x <= y -> roundTo prec emin x <= roundTo prec emin y.
Proof.
  intros H. destruct (Qlt_le_dec 0 x) as [Px|Nx].
  - unfold roundTo.
    destruct (Qcompare_spec x 0) as [A|A|A]; try (exfalso; lra).
    destruct (Qcompare_spec y 0) as [B|B|B]; try (exfalso; lra).
    apply roundPos_mono; assumption.
  - destruct (Qlt_le_dec y 0) as [Ny|Py].
    + unfold roundTo.
      destruct (Qcompare_spec x 0) as [A|A|A]; try (exfalso; lra).
      destruct (Qcompare_spec y 0) as [B|B|B]; try (exfalso; lra).
      pose proof (roundPos_mono (- y) (- x) ltac:(lra) ltac:(lra)). lra.
    + apply Qle_trans with 0; [apply roundTo_nonpos | apply roundTo_nonneg]; assumption.
Qed.

Lemma roundTo_abs x : Qabs (roundTo prec emin x) == roundTo prec emin (Qabs x).
Proof.
  destruct (Qlt_le_dec x 0) as [N|P].
  - rewrite (roundTo_comp (Qabs x) (- x)) by (apply Qabs_neg; lra).
    rewrite roundTo_opp. apply Qabs_neg. apply roundTo_nonpos. lra.
  - rewrite (roundTo_comp (Qabs x) x) by (apply Qabs_pos; exact P).
    apply Qabs_pos. apply roundTo_nonneg. exact P.
Qed.

Lemma roundTo_error x k :
  Qabs x < pow2 k ->
  Qabs (roundTo prec emin x - x) <= pow2 (Z.max (k - prec) emin) * (1 # 2).
Proof.
  intros H. unfold roundTo. destruct (Qcompare_spec x 0) as [A|A|A].
  - rewrite A. change (Qabs (0 - 0)) with 0.
    pose proof (pow2_pos (Z.max (k - prec) emin)). lra.
  - rewrite (Qabs_neg x) in H by lra.
    pose proof (roundPos_error (- x) k ltac:(lra) H) as R.
    rewrite <- Qabs_opp.
    erewrite Qabs_wd; [exact R | ring].
  - rewrite (Qabs_pos x) in H by lra.
    apply roundPos_error; assumption.
Qed.

End Rounding.

(** *** Single and double precision *)

Lemma fl32_comp (x y : Q) : x == y -> fl32 x = fl32 y.
Proof. apply roundTo_comp. Qed.

Lemma fl32_mono (x y : Q) : x <= y -> fl32 x <= fl32 y.
Proof. apply roundTo_mono. lia. Qed.

Lemma fl32_nonpos (x : Q) : x <= 0 -> fl32 x <= 0.
Proof. apply roundTo_nonpos. Qed.

Lemma narrowed_comp (x y : Q) :
  x == y -> EncodingSpec.narrowed x = EncodingSpec.narrowed y.
Proof.
  intro E. unfold EncodingSpec.narrowed, fl64.
  rewrite (roundTo_comp 53 (-1074) x y E). reflexivity.
Qed.

Lemma narrowed_nonneg (x : Q) : 0 <= x -> 0 <= EncodingSpec.narrowed x.
Proof. intro H. apply roundTo_nonneg, roundTo_nonneg, H. Qed.

Lemma narrowed_mono (x y : Q) :
  x <= y -> EncodingSpec.narrowed x <= EncodingSpec.narrowed y.
Proof. intro H. apply fl32_mono. apply roundTo_mono; [lia | exact H]. Qed.

(** Narrowing commutes with the absolute value. *)
Lemma narrowed_abs (x : Q) :
  Qabs (EncodingSpec.narrowed x) == EncodingSpec.narrowed (Qabs x).
Proof.
  unfold EncodingSpec.narrowed, fl32, fl64. rewrite roundTo_abs.
  rewrite (roundTo_comp 24 (-149) _ _ (roundTo_abs 53 (-1074) x)).
  reflexivity.
Qed.

(** Up to 100 in magnitude narrowing moves a number by at most [2^-17]. *)
Lemma narrowed_error (x : Q) :
  Qabs x <= 100 -> Qabs (EncodingSpec.narrowed x - x) <= 1 # 131072.
Proof.
  intro H. unfold EncodingSpec.narrowed.
  assert (B : Qabs (fl64 x) <= 100).
  { apply Qabs_Qle_condition in H. apply Qabs_Qle_condition.
    assert (F : fl64 100 == 100) by (vm_compute; reflexivity).
    assert (G : fl64 (- (100)) == - (100)) by (vm_compute; reflexivity).
    split.
    - rewrite <- G. apply roundTo_mono; [lia | tauto].
    - rewrite <- F. apply roundTo_mono; [lia | tauto]. }
  pose proof (roundTo_error 53 (-1074) x 7) as E1.
  pose proof (roundTo_error 24 (-149) (fl64 x) 7) as E2.
  change (pow2 7) with 128 in E1, E2.
  change (pow2 (Z.max (7 - 53) (-1074)) * (1 # 2)) with (1 # 140737488355328) in E1.
  change (pow2 (Z.max (7 - 24) (-149)) * (1 # 2)) with (1 # 262144) in E2.
  specialize (E1 ltac:(lra)). specialize (E2 ltac:(lra)).
  fold fl64 in E1. fold fl32 in E2.
  apply Qabs_Qle_condition in E1. apply Qabs_Qle_condition in E2.
  apply Qabs_Qle_condition. split; lra.
Qed.

(** ** Rounding to an integer *)

Lemma round_half_away_comp (x y : Q) :
  x == y -> round_half_away x = round_half_away y.
Proof.
  intro H. unfold round_half_away.
  rewrite (Qle_bool_comp 0 x 0 y) by (reflexivity || assumption).
  destruct (Qle_bool 0 y).
  - apply Qfloor_comp. rewrite H. reflexivity.
  - f_equal. apply Qfloor_comp. rewrite H. reflexivity.
Qed.

Lemma round_half_away_nonneg (x : Q) : 0 <= x -> (0 <= round_half_away x)%Z.
Proof.
  intro H. unfold round_half_away.
  apply Qle_bool_iff in H. rewrite H. apply Qle_bool_iff in H.
  change 0%Z with (Qfloor 0). apply Qfloor_resp_le. lra.
Qed.

(** Rounding half away from zero commutes with the absolute value. *)
Lemma abs_round_half_away (x : Q) :
  Z.abs (round_half_away x) = round_half_away (Qabs x).
Proof.
  destruct (Qlt_le_dec x 0) as [Hn | Hp].
  - assert (Hx : Qabs x == - x) by (apply Qabs_neg; lra).
    rewrite (round_half_away_comp _ _ Hx).
    assert (H0 : (0 <= round_half_away (- x))%Z)
      by (apply round_half_away_nonneg; lra).
    unfold round_half_away in *.
    assert (E1 : Qle_bool 0 x = false).
    { destruct (Qle_bool 0 x) eqn:E; [|reflexivity].
      apply Qle_bool_iff in E. lra. }
    assert (E2 : Qle_bool 0 (- x) = true) by (apply Qle_bool_iff; lra).
    rewrite E1. rewrite E2 in *. lia.
  - assert (Hx : Qabs x == x) by (apply Qabs_pos; assumption).
    rewrite (round_half_away_comp _ _ Hx).
    apply Z.abs_eq. apply round_half_away_nonneg. assumption.
Qed.

(** The two clamping tests followed by the cast, on an integral float. *)
Lemma clamp_cast (z : Z) :
  (0 <= z)%Z ->
  to_char (if Qgtb (inject_Z z) 99 then 99 else inject_Z z)
  = EncodingSpec.clamp_0_99 z.
Proof.
  intro Hz. unfold EncodingSpec.clamp_0_99.
  destruct (Qgtb (inject_Z z) 99) eqn:E.
  - apply Qgtb_true in E. change 99 with (inject_Z 99) in E.
    rewrite <- Zlt_Qlt in E.
    change (to_char 99) with 99%Z. lia.
  - apply Qgtb_false in E. change 99 with (inject_Z 99) in E.
    rewrite <- Zle_Qle in E.
    unfold to_char. rewrite Qtrunc_inject_Z. lia.
Qed.

Lemma round_half_away_floor (x : Q) :
  0 <= x -> round_half_away x = Qfloor (x + (1 # 2)).
Proof.
  intro H. unfold round_half_away. apply Qle_bool_iff in H. rewrite H.
  reflexivity.
Qed.

(** The code computes the encoding with the product narrowed. *)
Lemma getMeterIntegralFractional_narrowed (v : Q) :
  getMeterIntegralFractional v = EncodingSpec.encode_narrowed v.
Proof.
  unfold getMeterIntegralFractional, EncodingSpec.encode_narrowed, modf, roundf.
  rewrite !Qabs_inject_Z.
  rewrite !clamp_cast by apply Z.abs_nonneg.
  f_equal. f_equal.
  rewrite abs_round_half_away.
  fold (EncodingSpec.narrowed ((v - inject_Z (Qtrunc v)) * 100)).
  rewrite (round_half_away_comp _ _ (narrowed_abs _)).
  rewrite round_half_away_floor by (apply narrowed_nonneg, Qabs_nonneg).
  rewrite (narrowed_comp (Qabs ((v - inject_Z (Qtrunc v)) * 100))
             (Qabs (EncodingSpec.frac v) * 100)); [reflexivity|].
  unfold EncodingSpec.frac. rewrite Qabs_Qmult. reflexivity.
Qed.

Lemma clamp_0_99_range (z : Z) : (0 <= EncodingSpec.clamp_0_99 z <= 99)%Z.
Proof. unfold EncodingSpec.clamp_0_99. lia. Qed.

(** Both bytes of a pair lie in 0..99. *)
Lemma getMeterIntegralFractional_range (v : Q) :
  (0 <= fst (getMeterIntegralFractional v) <= 99)%Z
  /\ (0 <= snd (getMeterIntegralFractional v) <= 99)%Z.
Proof.
  rewrite getMeterIntegralFractional_narrowed.
  unfold EncodingSpec.encode_narrowed.
  simpl. split; apply clamp_0_99_range.
Qed.

(** Magnitude = integral part + fractional part, the latter below 1. *)
Lemma Qabs_trunc_frac (v : Q) :
  Qabs v == inject_Z (Z.abs (Qtrunc v)) + Qabs (EncodingSpec.frac v)
  /\ 0 <= Qabs (EncodingSpec.frac v) < 1.
Proof.
  destruct v as [n d].
  assert (Hd : (0 < Zpos d)%Z) by lia.
  assert (Hfrac : EncodingSpec.frac (n # d) == (Z.rem n (Zpos d) # d)).
  { unfold EncodingSpec.frac, Qtrunc. cbn [Qnum Qden].
    unfold Qeq, Qminus, Qplus, Qopp, inject_Z. cbn [Qnum Qden].
    pose proof (Z.quot_rem' n (Zpos d)) as E.
    rewrite Pos2Z.inj_mul. nia. }
  assert (Habs : Qabs (EncodingSpec.frac (n # d))
                 == (Z.abs (Z.rem n (Zpos d)) # d)).
  { rewrite Hfrac. reflexivity. }
  pose proof (Z.rem_abs n (Zpos d) ltac:(lia)) as R1.
  pose proof (Z.quot_abs n (Zpos d) ltac:(lia)) as R2.
  pose proof (Z.quot_rem' (Z.abs n) (Z.abs (Zpos d))) as R3.
  pose proof (Z.rem_bound_pos (Z.abs n) (Zpos d) ltac:(lia) Hd) as R4.
  change (Z.abs (Zpos d)) with (Zpos d) in *.
  split; [|split].
  - rewrite Habs. unfold Qtrunc. cbn [Qnum Qden].
    unfold Qeq, Qabs, Qplus, inject_Z. cbn [Qnum Qden].
    rewrite Pos2Z.inj_mul. rewrite <- R1, <- R2 in *. nia.
  - apply Qabs_nonneg.
  - rewrite Habs. unfold Qlt. cbn [Qnum Qden]. rewrite <- R1 in *. lia.
Qed.

(** The scaled fraction lies in [0, 100), and so does its narrowing, up to
    100 itself. *)
Lemma scaled_fraction_bounds (v : Q) :
  0 <= Qabs (EncodingSpec.frac v) * 100 < 100
  /\ 0 <= EncodingSpec.narrowed (Qabs (EncodingSpec.frac v) * 100) <= 100.
Proof.
  destruct (Qabs_trunc_frac v) as (_ & F0 & F1).
  assert (B : 0 <= Qabs (EncodingSpec.frac v) * 100 < 100) by (split; lra).
  split; [exact B|]. split.
  - apply narrowed_nonneg. tauto.
  - assert (K : EncodingSpec.narrowed 100 == 100) by (vm_compute; reflexivity).
    apply Qle_trans with (EncodingSpec.narrowed 100);
      [apply narrowed_mono; lra | rewrite K; apply Qle_refl].
Qed.

(** The fractional byte is the integer nearest to the narrowed product, a
    half going up, and 99 from 99.5 on. *)
Lemma fractional_byte_nearest (v : Q) :
  (EncodingSpec.narrowed (Qabs (EncodingSpec.frac v) * 100) < 199 # 2 ->
   inject_Z (snd (getMeterIntegralFractional v)) - (1 # 2)
   <= EncodingSpec.narrowed (Qabs (EncodingSpec.frac v) * 100)
   /\ EncodingSpec.narrowed (Qabs (EncodingSpec.frac v) * 100)
      < inject_Z (snd (getMeterIntegralFractional v)) + (1 # 2))
  /\ (199 # 2 <= EncodingSpec.narrowed (Qabs (EncodingSpec.frac v) * 100) ->
      snd (getMeterIntegralFractional v) = 99%Z).
Proof.
  rewrite getMeterIntegralFractional_narrowed.
  unfold EncodingSpec.encode_narrowed. cbn [snd].
  destruct (scaled_fraction_bounds v) as (_ & N0 & N1).
  set (x := EncodingSpec.narrowed (Qabs (EncodingSpec.frac v) * 100)) in *.
  pose proof (Qfloor_le (x + (1 # 2))) as A.
  pose proof (Qlt_floor (x + (1 # 2))) as B.
  rewrite inject_Z_plus in B. change (inject_Z 1) with 1 in B.
  assert (P : (0 <= Qfloor (x + (1 # 2)))%Z).
  { change 0%Z with (Qfloor 0). apply Qfloor_resp_le. lra. }
  set (k := Qfloor (x + (1 # 2))) in *. clearbody k x.
  unfold EncodingSpec.clamp_0_99. split; intro H.
  - assert (K : inject_Z k < inject_Z 100)
      by (change (inject_Z 100) with 100; lra).
    rewrite <- Zlt_Qlt in K.
    replace (Z.max 0 (Z.min 99 k)) with k by lia. split; lra.
  - assert (K : inject_Z 99 < inject_Z (k + 1)).
    { rewrite inject_Z_plus. change (inject_Z 99) with 99.
      change (inject_Z 1) with 1. lra. }
    rewrite <- Zlt_Qlt in K. lia.
Qed.

(** C8 (as amended).  For every value the integral byte is |trunc(value)|
    clamped to [0,99], and the fractional byte is round(p) clamped to
    [0,99], where p is the product |frac(value)| x 100 brought to single
    precision first: the integer nearest to p, a half going up, and 99 from
    99.5 on.  Narrowing moves the product by at most 2^-17.  So -23.7 (the
    number itself and the float nearest to it) gives (23,70), 0.0 gives
    (0,0) and -150.0 gives (99,0); 0.125 gives (0,13); the float 0.005,
    whose product 0.49999998882 is narrowed to 0.5, gives (0,1); and the
    float -9.665, whose product 66.49999618 is narrowed to 66.5, gives
    (9,67). *)
Theorem telemetry_pair_encoding :
  (forall v : Q, getMeterIntegralFractional v = EncodingSpec.encode_narrowed v)
  /\ (forall v : Q,
        fst (getMeterIntegralFractional v) = Z.min 99 (Z.abs (Qtrunc v))
        /\ (0 <= snd (getMeterIntegralFractional v) <= 99)%Z
        /\ (EncodingSpec.narrowed (Qabs (EncodingSpec.frac v) * 100) < 199 # 2 ->
            inject_Z (snd (getMeterIntegralFractional v)) - (1 # 2)
            <= EncodingSpec.narrowed (Qabs (EncodingSpec.frac v) * 100)
            /\ EncodingSpec.narrowed (Qabs (EncodingSpec.frac v) * 100)
               < inject_Z (snd (getMeterIntegralFractional v)) + (1 # 2))
        /\ (199 # 2 <= EncodingSpec.narrowed (Qabs (EncodingSpec.frac v) * 100) ->
            snd (getMeterIntegralFractional v) = 99%Z)
        /\ Qabs (EncodingSpec.narrowed (Qabs (EncodingSpec.frac v) * 100)
                 - Qabs (EncodingSpec.frac v) * 100) <= 1 # 131072)
  /\ getMeterIntegralFractional (-237 # 10) = (23, 70)%Z
  /\ getMeterIntegralFractional (-6212813 # 262144) = (23, 70)%Z
  /\ getMeterIntegralFractional 0 = (0, 0)%Z
  /\ getMeterIntegralFractional (-150) = (99, 0)%Z
  /\ getMeterIntegralFractional (1 # 8) = (0, 13)%Z
  /\ getMeterIntegralFractional (5368709 # 1073741824) = (0, 1)%Z
  /\ getMeterIntegralFractional (-10134487 # 1048576) = (9, 67)%Z.
Proof.
  split; [exact getMeterIntegralFractional_narrowed|].
  split; [|repeat split; vm_compute; reflexivity].
  intro v. destruct (fractional_byte_nearest v) as [N1 N2].
  split; [|split; [|split; [|split]]].
  - rewrite getMeterIntegralFractional_narrowed.
    unfold EncodingSpec.encode_narrowed, EncodingSpec.clamp_0_99. cbn [fst].
    pose proof (Z.abs_nonneg (Qtrunc v)). lia.
  - apply getMeterIntegralFractional_range.
  - exact N1.
  - exact N2.
  - apply narrowed_error. destruct (scaled_fraction_bounds v) as (B & _).
    rewrite Qabs_pos by tauto. lra.
Qed.

(** The float nearest to -9.665: the product 66.49999618 lies half a
    single-precision step below 66.5 and is narrowed to 66.5, the nearest
    integer with a half going up is 67. *)
Lemma telemetry_pair_encoding_witness :
  EncodingSpec.narrowed
    (Qabs (EncodingSpec.frac (-10134487 # 1048576)) * 100) == 133 # 2
  /\ inject_Z (snd (getMeterIntegralFractional (-10134487 # 1048576))) - (1 # 2)
     <= EncodingSpec.narrowed
          (Qabs (EncodingSpec.frac (-10134487 # 1048576)) * 100).
Proof.
  split; [vm_compute; reflexivity|].
  destruct telemetry_pair_encoding as (_ & P & _).
  destruct (P (-10134487 # 1048576)) as (_ & _ & N & _).
  apply N. vm_compute. reflexivity.
Defined.

(** C8 as stated fails.  The float 0.005 is 5368709 / 2^30 =
    0.004999999888; its fraction times 100 is 0.4999999888, below one half,
    so round(|frac(value)| x 100) is 0 and the pair of the claim is (0,0).
    The code narrows the product to the float 0.5 before [roundf] and
    returns (0,1).  Likewise the float -9.665 is -10134487 / 2^20; its
    fraction times 100 is 66.49999618, the pair of the claim is (9,66) and
    the code returns (9,67). *)
Lemma telemetry_pair_claim_counterexample :
  (fl32 (5368709 # 1073741824) == 5368709 # 1073741824
   /\ Qabs (EncodingSpec.frac (5368709 # 1073741824)) * 100 < 1 # 2
   /\ EncodingSpec.encode_spec (5368709 # 1073741824) = (0, 0)%Z
   /\ getMeterIntegralFractional (5368709 # 1073741824) = (0, 1)%Z
   /\ getMeterIntegralFractional (5368709 # 1073741824)
      <> EncodingSpec.encode_spec (5368709 # 1073741824))
  /\ (fl32 (-10134487 # 1048576) == -10134487 # 1048576
      /\ Qabs (EncodingSpec.frac (-10134487 # 1048576)) * 100 < 133 # 2
      /\ EncodingSpec.encode_spec (-10134487 # 1048576) = (9, 66)%Z
      /\ getMeterIntegralFractional (-10134487 # 1048576) = (9, 67)%Z).
Proof.
  split.
  - repeat split; try (vm_compute; reflexivity).
    vm_compute. discriminate.
  - repeat split; vm_compute; reflexivity.
Qed.

(** ** Writes to mode parameters *)

(** Two levels of nesting are all a write ever needs. *)
Lemma setValueNotifyingHost_fuel (fuel : nat) (p : BoolParam) (v : bool) (s : Plugin) :
  (2 <= fuel)%nat ->
  setValueNotifyingHost fuel p v s = setValueNotifyingHost 2 p v s.
Proof.
  intro H. destruct fuel as [|[|f]]; try lia.
  destruct v; [destruct p|]; reflexivity.
Qed.

Lemma setValueNotifyingHost_open (p : BoolParam) (v : bool) (s : Plugin) :
  midiOutput s <> None ->
  exists s', setValueNotifyingHost 2 p v s = Ok (tt, s').
Proof.
  intro H. destruct s as [bv mv cl cr lt ph ll lr ms lp [sent|]];
    [|contradiction H; reflexivity].
  destruct p, v; eexists; cbv -[BoolParam_eq_dec app]; reflexivity.
Qed.

Lemma setValueNotifyingHost_null (p : BoolParam) (v : bool) (s : Plugin) :
  midiOutput s = None ->
  setValueNotifyingHost 2 p v s = NullDeref.
Proof.
  intro H. destruct s; cbn in H; subst.
  destruct p, v; reflexivity.
Qed.

Lemma setValueNotifyingHost_ok_open (p : BoolParam) (v : bool) (s s' : Plugin) :
  setValueNotifyingHost 2 p v s = Ok (tt, s') -> midiOutput s <> None.
Proof.
  intros H E. rewrite (setValueNotifyingHost_null p v s E) in H. discriminate.
Qed.

(** What a completed write leaves behind: the written parameter has the new
    value, its exclusive partner is cleared when the value is [true], every
    other mode keeps its value; the loudness unit is reset unless the
    parameter is exempt; nothing else changes but the port's log. *)
Lemma setValueNotifyingHost_effect (p : BoolParam) (v : bool) (s s' : Plugin) :
  setValueNotifyingHost 2 p v s = Ok (tt, s') ->
  (forall q, boolv s' q =
     if BoolParam_eq_dec q p then v
     else if v && existsb (fun pq =>
                    if BoolParam_eq_dec (fst pq) p then
                      if BoolParam_eq_dec (snd pq) q then true else false
                    else false) exclusivePairs
          then false else boolv s q)
  /\ (if existsb (fun q => if BoolParam_eq_dec q p then true else false) resetExempt
      then lufsProcessor s' = lufsProcessor s
      else accumulated (lufsProcessor s') = 0%nat
           /\ (resets (lufsProcessor s) < resets (lufsProcessor s'))%nat)
  /\ meterv s' = meterv s
  /\ clipMeterLeft s' = clipMeterLeft s
  /\ clipMeterRight s' = clipMeterRight s
  /\ lufsTarget s' = lufsTarget s
  /\ peakHoldSeconds s' = peakHoldSeconds s
  /\ lastMaxLeft s' = lastMaxLeft s
  /\ lastMaxRight s' = lastMaxRight s
  /\ msSinceLastPeakReset s' = msSinceLastPeakReset s
  /\ midiOutput s' <> None.
Proof.
  intros H.
  destruct s as [bv mv cl cr lt ph ll lr ms [acc n] [sent|]];
    [|rewrite setValueNotifyingHost_null in H by reflexivity; discriminate].
  destruct p, v; cbv -[BoolParam_eq_dec app] in H; injection H as <-;
    (split; [intro q; destruct q; reflexivity|]);
    (split; [cbn; first [reflexivity | split; [reflexivity | lia]]|]);
    cbn; repeat split; discriminate.
Qed.

(** ** One tick of the timer *)

Lemma handleLufsReset_effect (fuel : nat) (s s1 : Plugin) :
  (2 <= fuel)%nat ->
  handleLufsReset fuel s = Ok (tt, s1) ->
  meterv s1 = meterv s
  /\ clipMeterLeft s1 = clipMeterLeft s
  /\ clipMeterRight s1 = clipMeterRight s
  /\ lufsTarget s1 = lufsTarget s
  /\ peakHoldSeconds s1 = peakHoldSeconds s
  /\ lastMaxLeft s1 = lastMaxLeft s
  /\ lastMaxRight s1 = lastMaxRight s
  /\ msSinceLastPeakReset s1
     = (if boolv s lufsReset then 0 else msSinceLastPeakReset s)
  /\ (midiOutput s = None <-> midiOutput s1 = None)
  /\ boolv s1 lufsReset = false.
Proof.
  intros Hf H. unfold handleLufsReset, bind, gets in H.
  destruct (boolv s lufsReset) eqn:B; cbn in H.
  - rewrite setValueNotifyingHost_fuel in H by assumption.
    destruct (setValueNotifyingHost 2 lufsReset false s) as [[[] s0]| |] eqn:E;
      try discriminate.
    pose proof (setValueNotifyingHost_ok_open _ _ _ _ E) as Hopen.
    apply setValueNotifyingHost_effect in E.
    destruct E as (Hb & _ & Hm & Hcl & Hcr & Hlt & Hph & Hll & Hlr & _ & Hout).
    injection H as <-. cbn.
    repeat split; try assumption; try tauto.
    apply (Hb lufsReset).
  - injection H as <-. rewrite B. repeat split; tauto.
Qed.

Lemma handleLufsReset_total (fuel : nat) (s : Plugin) :
  (2 <= fuel)%nat ->
  boolv s lufsReset = false \/ midiOutput s <> None ->
  exists s1, handleLufsReset fuel s = Ok (tt, s1).
Proof.
  intros Hf H. unfold handleLufsReset, bind, gets.
  destruct (boolv s lufsReset) eqn:B; cbn.
  - destruct H as [H | H]; [discriminate|].
    rewrite setValueNotifyingHost_fuel by assumption.
    destruct (setValueNotifyingHost_open lufsReset false s H) as [s0 E].
    rewrite E. eexists. reflexivity.
  - eexists. reflexivity.
Qed.

(** The part of the tick after the reset trigger never fails; its effect on
    every member. *)
Lemma meter_tail_effect (r : Readings) (s : Plugin) :
  exists s',
    (writePeakMeters r ;; peakHoldStep r ;; sendMeterData r) s = Ok (tt, s')
    /\ lastMaxLeft s' = (if updatesLeft r s then peakLval r else lastMaxLeft s)
    /\ clipMeterLeft s'
       = (if updatesLeft r s
          then aboveClipThreshold (peakLval r)
          else clipMeterLeft s)
    /\ meterv s' peakMeterMaxLeft
       = (if updatesLeft r s
          then peakMeterValue (truePeakL r)
          else meterv s peakMeterMaxLeft)
    /\ lastMaxRight s' = (if updatesRight r s then peakRval r else lastMaxRight s)
    /\ clipMeterRight s'
       = (if updatesRight r s
          then aboveClipThreshold (peakRval r)
          else clipMeterRight s)
    /\ meterv s' peakMeterMaxRight
       = (if updatesRight r s
          then peakMeterValue (truePeakR r)
          else meterv s peakMeterMaxRight)
    /\ msSinceLastPeakReset s'
       = (if Qgtb (peakHoldSeconds s) 0
          then (if holdExpired s then 0 else msSinceLastPeakReset s)
               + CALLBACK_TIMER_PERIOD_MS
          else (if holdExpired s then 0 else msSinceLastPeakReset s))
    /\ meterv s' peakMeterLeft = peakMeterValue (truePeakL r)
    /\ meterv s' peakMeterRight = peakMeterValue (truePeakR r)
    /\ meterv s' lufsShort = meterv s lufsShort
    /\ meterv s' lufsMomentary = meterv s lufsMomentary
    /\ meterv s' lufsIntegrated = meterv s lufsIntegrated
    /\ meterv s' lufsRangeMin = meterv s lufsRangeMin
    /\ meterv s' lufsRangeMax = meterv s lufsRangeMax
    /\ boolv s' = boolv s
    /\ lufsProcessor s' = lufsProcessor s
    /\ lufsTarget s' = lufsTarget s
    /\ peakHoldSeconds s' = peakHoldSeconds s
    /\ midiOutput s'
       = match midiOutput s with
         | Some sent => Some (sent ++ [SysExMessage (sysexData r s')])
         | None => None
         end.
Proof.
  destruct s as [bv mv cl cr lt ph ll lr ms lp mo].
  split_tests; (eexists; split; [reflexivity|]); cbn; repeat split; reflexivity.
Qed.

Lemma writeLufsMeters_effect (r : Readings) (s : Plugin) :
  exists s0,
    writeLufsMeters r s = Ok (tt, s0)
    /\ meterv s0 lufsShort = normalised LOWEST_LUFS_VALUE (lufsSval r)
    /\ meterv s0 lufsMomentary = normalised LOWEST_LUFS_VALUE (lufsMval r)
    /\ meterv s0 lufsIntegrated = normalised LOWEST_LUFS_VALUE (lufsIval r)
    /\ meterv s0 lufsRangeMin = normalised LOWEST_LUFS_VALUE (lufsMinVal r)
    /\ meterv s0 lufsRangeMax = normalised LOWEST_LUFS_VALUE (lufsMaxVal r)
    /\ meterv s0 peakMeterMaxLeft = meterv s peakMeterMaxLeft
    /\ meterv s0 peakMeterMaxRight = meterv s peakMeterMaxRight
    /\ boolv s0 = boolv s
    /\ clipMeterLeft s0 = clipMeterLeft s
    /\ clipMeterRight s0 = clipMeterRight s
    /\ lufsTarget s0 = lufsTarget s
    /\ peakHoldSeconds s0 = peakHoldSeconds s
    /\ lastMaxLeft s0 = lastMaxLeft s
    /\ lastMaxRight s0 = lastMaxRight s
    /\ msSinceLastPeakReset s0 = msSinceLastPeakReset s
    /\ midiOutput s0 = midiOutput s.
Proof.
  eexists. split; [reflexivity|]. cbn. repeat split; reflexivity.
Qed.

Lemma updates_agree (r : Readings) (a b : Plugin) :
  peakHoldSeconds a = peakHoldSeconds b ->
  msSinceLastPeakReset a = msSinceLastPeakReset b ->
  lastMaxLeft a = lastMaxLeft b ->
  lastMaxRight a = lastMaxRight b ->
  holdExpired a = holdExpired b
  /\ updatesLeft r a = updatesLeft r b
  /\ updatesRight r a = updatesRight r b.
Proof.
  intros H1 H2 H3 H4. unfold updatesLeft, updatesRight, holdExpired.
  rewrite H1, H2, H3, H4. repeat split; reflexivity.
Qed.

(** A completed tick, member by member. *)
Lemma tick_effect (fuel : nat) (r : Readings) (s s' : Plugin) :
  (2 <= fuel)%nat ->
  hiResTimerCallback fuel r s = Ok (tt, s') ->
  (lastMaxLeft s'
   = (if updatesLeft r (holdView s) then peakLval r else lastMaxLeft s)
   /\ clipMeterLeft s'
      = (if updatesLeft r (holdView s)
         then aboveClipThreshold (peakLval r)
         else clipMeterLeft s)
   /\ meterv s' peakMeterMaxLeft
      = (if updatesLeft r (holdView s)
         then peakMeterValue (truePeakL r)
         else meterv s peakMeterMaxLeft))
  /\ (lastMaxRight s'
      = (if updatesRight r (holdView s) then peakRval r else lastMaxRight s)
      /\ clipMeterRight s'
         = (if updatesRight r (holdView s)
            then aboveClipThreshold (peakRval r)
            else clipMeterRight s)
      /\ meterv s' peakMeterMaxRight
         = (if updatesRight r (holdView s)
            then peakMeterValue (truePeakR r)
            else meterv s peakMeterMaxRight))
  /\ msSinceLastPeakReset s'
     = (if Qgtb (peakHoldSeconds s) 0
        then (if holdExpired (holdView s) then 0
              else msSinceLastPeakReset (holdView s))
             + CALLBACK_TIMER_PERIOD_MS
        else (if holdExpired (holdView s) then 0
              else msSinceLastPeakReset (holdView s)))
  /\ (meterv s' lufsShort = normalised LOWEST_LUFS_VALUE (lufsSval r)
      /\ meterv s' lufsMomentary = normalised LOWEST_LUFS_VALUE (lufsMval r)
      /\ meterv s' lufsIntegrated = normalised LOWEST_LUFS_VALUE (lufsIval r)
      /\ meterv s' lufsRangeMin = normalised LOWEST_LUFS_VALUE (lufsMinVal r)
      /\ meterv s' lufsRangeMax = normalised LOWEST_LUFS_VALUE (lufsMaxVal r)
      /\ meterv s' peakMeterLeft = peakMeterValue (truePeakL r)
      /\ meterv s' peakMeterRight = peakMeterValue (truePeakR r))
  /\ lufsTarget s' = lufsTarget s
  /\ peakHoldSeconds s' = peakHoldSeconds s
  /\ boolv s' lufsReset = false
  /\ (midiOutput s = None -> midiOutput s' = None)
  /\ (midiOutput s <> None ->
      exists earlier,
        midiOutput s' = Some (earlier ++ [SysExMessage (sysexData r s')])).
Proof.
  intros Hf H. unfold hiResTimerCallback in H.
  destruct (writeLufsMeters_effect r s)
    as (s0 & E0 & L1 & L2 & L3 & L4 & L5 & L6 & L7 & F1 & F2 & F3 & F4 & F5
        & F6 & F7 & F8 & F9).
  unfold bind at 1 in H. rewrite E0 in H.
  unfold bind at 1 in H.
  destruct (handleLufsReset fuel s0) as [[[] s1]| |] eqn:E1; try discriminate.
  apply handleLufsReset_effect in E1; [|assumption].
  destruct E1 as (R1 & R2 & R3 & R4 & R5 & R6 & R7 & R8 & R9 & R10).
  rewrite F1, F8 in R8.
  destruct (meter_tail_effect r s1)
    as (s2 & E2 & T1 & T2 & T3 & T4 & T5 & T6 & T7 & T8 & T9 & T10 & T11
        & T12 & T13 & T14 & T15 & T16 & T17 & T18 & T19).
  rewrite E2 in H. injection H as <-.
  assert (A : holdExpired s1 = holdExpired (holdView s)
              /\ updatesLeft r s1 = updatesLeft r (holdView s)
              /\ updatesRight r s1 = updatesRight r (holdView s)).
  { apply updates_agree; cbn; congruence. }
  destruct A as (A1 & A2 & A3).
  rewrite A2 in T1, T2, T3. rewrite A3 in T4, T5, T6. rewrite A1 in T7.
  assert (Hms : msSinceLastPeakReset s1 = msSinceLastPeakReset (holdView s))
    by (cbn; congruence).
  rewrite R6, F6 in T1. rewrite R2, F2 in T2. rewrite R1, L6 in T3.
  rewrite R7, F7 in T4. rewrite R3, F3 in T5. rewrite R1, L7 in T6.
  rewrite R5, F5, Hms in T7.
  rewrite R1, L1 in T10. rewrite R1, L2 in T11. rewrite R1, L3 in T12.
  rewrite R1, L4 in T13. rewrite R1, L5 in T14.
  repeat split; try assumption; try congruence.
  - intro N. rewrite T19.
    assert (N1 : midiOutput s1 = None) by (apply R9; congruence).
    rewrite N1. reflexivity.
  - intro N. rewrite T19.
    destruct (midiOutput s1) as [sent|] eqn:O.
    + exists sent. reflexivity.
    + exfalso. apply N. rewrite <- F9. apply R9. reflexivity.
Qed.

Lemma tick_total (fuel : nat) (r : Readings) (s : Plugin) :
  (2 <= fuel)%nat ->
  boolv s lufsReset = false \/ midiOutput s <> None ->
  exists s', hiResTimerCallback fuel r s = Ok (tt, s').
Proof.
  intros Hf H. unfold hiResTimerCallback.
  destruct (writeLufsMeters_effect r s)
    as (s0 & E0 & _ & _ & _ & _ & _ & _ & _ & F1 & _ & _ & _ & _
        & _ & _ & _ & F9).
  unfold bind at 1. rewrite E0.
  destruct (handleLufsReset_total fuel s0 Hf) as [s1 E1].
  { rewrite F1, F9. exact H. }
  unfold bind at 1. rewrite E1.
  destruct (meter_tail_effect r s1) as (s2 & E2 & _).
  exists s2. exact E2.
Qed.

(** ** Mode changes: reset and exclusivity *)

(** C5 (as amended).  A completed mode-parameter change resets the loudness
    accumulation if and only if the changed parameter is none of mute, dim,
    reference and the volume/modulate mode; a change of any other mode
    parameter, the reset trigger included, resets it.  The change completes
    whenever the output port is open. *)
Theorem lufs_reset_on_mode_change (fuel : nat) (p : BoolParam) (v : bool) (s : Plugin) :
  (2 <= fuel)%nat ->
  (midiOutput s <> None ->
   exists s', setValueNotifyingHost fuel p v s = Ok (tt, s'))
  /\ (forall s',
        setValueNotifyingHost fuel p v s = Ok (tt, s') ->
        ((resets (lufsProcessor s) < resets (lufsProcessor s'))%nat
         <-> ~ In p [muteMode; dimMode; refMode; volModMode])
        /\ (~ In p [muteMode; dimMode; refMode; volModMode] ->
            accumulated (lufsProcessor s') = 0%nat)
        /\ (In p [muteMode; dimMode; refMode; volModMode] ->
            lufsProcessor s' = lufsProcessor s)).
Proof.
  intro Hf. rewrite setValueNotifyingHost_fuel by assumption. split.
  - apply setValueNotifyingHost_open.
  - intros s' E. apply setValueNotifyingHost_effect in E.
    destruct E as (_ & L & _).
    destruct p; cbn in L;
      match type of L with
      | _ /\ _ => destruct L as [L1 L2]
      | _ => rewrite L
      end;
      (split; [split|split]); cbn; intros; try tauto; try lia;
      try (intuition discriminate).
Qed.

(** At a concrete input: soloing the low band on a fresh processor with an
    open port resets the loudness unit. *)
Lemma lufs_reset_on_mode_change_witness :
  exists s',
    setValueNotifyingHost 2 solo1 true (constructed (Some []) 0) = Ok (tt, s')
    /\ (resets (lufsProcessor (constructed (Some []) 0))
        < resets (lufsProcessor s'))%nat.
Proof.
  destruct (lufs_reset_on_mode_change 2 solo1 true (constructed (Some []) 0))
    as [T P]; [lia|].
  destruct T as [s' E]; [discriminate|].
  exists s'. split; [exact E|].
  apply (P s' E). cbn. intuition discriminate.
Defined.

(** C5 as stated fails twice: a change of the volume/modulate mode does not
    reset the loudness unit, and a change of the reset trigger does. *)
Lemma lufs_reset_claim_counterexample :
  (exists s',
     setValueNotifyingHost 2 volModMode true (constructed (Some []) 0)
     = Ok (tt, s')
     /\ lufsProcessor s' = lufsProcessor (constructed (Some []) 0))
  /\ (exists s',
        setValueNotifyingHost 2 lufsReset true (constructed (Some []) 0)
        = Ok (tt, s')
        /\ resets (lufsProcessor s')
           = S (resets (lufsProcessor (constructed (Some []) 0)))).
Proof.
  split; (eexists; split; [cbv -[BoolParam_eq_dec app]; reflexivity|]);
    reflexivity.
Qed.

(** C7.  From every prior state, a completed write of [true] to one member
    of an exclusive pair leaves that member [true] and the other [false]:
    mid-solo clears side-solo, side-solo clears mid-solo, dim clears
    reference, reference clears dim.  The write completes whenever the
    output port is open. *)
Theorem exclusive_pair_cleared (fuel : nat) (p q : BoolParam) (s : Plugin) :
  (2 <= fuel)%nat ->
  In (p, q) [ (midSolo, sideSolo); (sideSolo, midSolo);
              (dimMode, refMode); (refMode, dimMode) ] ->
  (midiOutput s <> None ->
   exists s', setValueNotifyingHost fuel p true s = Ok (tt, s'))
  /\ (forall s',
        setValueNotifyingHost fuel p true s = Ok (tt, s') ->
        boolv s' p = true /\ boolv s' q = false).
Proof.
  intros Hf Hin. rewrite setValueNotifyingHost_fuel by assumption. split.
  - apply setValueNotifyingHost_open.
  - intros s' E. apply setValueNotifyingHost_effect in E.
    destruct E as (B & _).
    destruct Hin as [H | [H | [H | [H | []]]]]; injection H as <- <-;
      rewrite !B; split; reflexivity.
Qed.

(** The example of the specification: side-solo on, then mid-solo set. *)
Lemma exclusive_pair_cleared_witness :
  boolv (Upd.boolv' sideSolo true (constructed (Some []) 0)) sideSolo = true
  /\ exists s',
       setValueNotifyingHost 2 midSolo true
         (Upd.boolv' sideSolo true (constructed (Some []) 0)) = Ok (tt, s')
       /\ boolv s' midSolo = true /\ boolv s' sideSolo = false.
Proof.
  split; [reflexivity|].
  destruct (exclusive_pair_cleared 2 midSolo sideSolo
              (Upd.boolv' sideSolo true (constructed (Some []) 0)))
    as [T P]; [lia | left; reflexivity |].
  destruct T as [s' E]; [discriminate|].
  exists s'. split; [exact E | exact (P s' E)].
Defined.

(** C10.  A completed write of [false] to one member of an exclusive pair
    leaves the other member as it was (as it leaves every other mode
    parameter): the callback clears a partner only for a new value of
    [true]. *)
Theorem exclusive_pair_kept_on_false (fuel : nat) (p q : BoolParam) (s : Plugin) :
  (2 <= fuel)%nat ->
  In (p, q) [ (midSolo, sideSolo); (sideSolo, midSolo);
              (dimMode, refMode); (refMode, dimMode) ] ->
  (midiOutput s <> None ->
   exists s', setValueNotifyingHost fuel p false s = Ok (tt, s'))
  /\ (forall s',
        setValueNotifyingHost fuel p false s = Ok (tt, s') ->
        boolv s' q = boolv s q
        /\ forall q', q' <> p -> boolv s' q' = boolv s q').
Proof.
  intros Hf Hin. rewrite setValueNotifyingHost_fuel by assumption. split.
  - apply setValueNotifyingHost_open.
  - intros s' E. apply setValueNotifyingHost_effect in E.
    destruct E as (B & _). split.
    + destruct Hin as [H | [H | [H | [H | []]]]]; injection H as <- <-;
        rewrite !B; reflexivity.
    + intros q' N. rewrite B.
      destruct (BoolParam_eq_dec q' p); [contradiction|reflexivity].
Qed.

(** Dim released while reference is on: reference stays on. *)
Lemma exclusive_pair_kept_on_false_witness :
  exists s',
    setValueNotifyingHost 2 dimMode false
      (Upd.boolv' refMode true (constructed (Some []) 0)) = Ok (tt, s')
    /\ boolv s' refMode = true.
Proof.
  destruct (exclusive_pair_kept_on_false 2 dimMode refMode
              (Upd.boolv' refMode true (constructed (Some []) 0)))
    as [T P]; [lia | right; right; left; reflexivity |].
  destruct T as [s' E]; [discriminate|].
  exists s'. split; [exact E|].
  destruct (P s' E) as [K _]. rewrite K. reflexivity.
Defined.

(** ** A closed output port *)

(** C6, evaluated on the code.  With [midiOutput == NULL] the timer tick
    skips the meter packet and completes, but every mode-parameter write
    (the button-state echo) and the sync-request dump dereference the null
    pointer. *)
Theorem null_port_is_dereferenced (fuel : nat) (s : Plugin) :
  (2 <= fuel)%nat ->
  midiOutput s = None ->
  (forall p v, setValueNotifyingHost fuel p v s = NullDeref)
  /\ handleIncomingMidiMessage fuel (isSysEx [SYSEX_COMMAND_SYNC_BUTTONS]) s
     = NullDeref
  /\ (forall r,
        boolv s lufsReset = false ->
        exists s', hiResTimerCallback fuel r s = Ok (tt, s')
                   /\ midiOutput s' = None).
Proof.
  intros Hf Hn. repeat split.
  - intros p v. rewrite setValueNotifyingHost_fuel by assumption.
    apply setValueNotifyingHost_null. assumption.
  - cbn. unfold bind, gets, sendMessageNow. rewrite Hn. reflexivity.
  - intros r Hr.
    destruct (tick_total fuel r s Hf (or_introl Hr)) as [s' E].
    exists s'. split; [exact E|].
    apply (tick_effect fuel r s s' Hf) in E.
    apply E. assumption.
Qed.

(** A processor constructed without the hardware: the host toggles mute. *)
Lemma null_port_is_dereferenced_witness :
  midiOutput (constructed None 0) = None
  /\ setValueNotifyingHost 2 muteMode true (constructed None 0) = NullDeref
  /\ handleIncomingMidiMessage 2 (isSysEx [SYSEX_COMMAND_SYNC_BUTTONS])
       (constructed None 0) = NullDeref.
Proof.
  split; [reflexivity|].
  destruct (null_port_is_dereferenced 2 (constructed None 0)) as (A & B & _);
    [lia | reflexivity |].
  split; [apply A | exact B].
Defined.

(** ** Normalisation of the meter parameters *)

Lemma normalised_clamp (lowest val : Q) :
  normalised lowest val == (Qmax val lowest - lowest) / - lowest.
Proof.
  unfold normalised.
  destruct (Qgeb val lowest) eqn:E;
    [apply Qgeb_true in E | apply Qgeb_false in E];
    destruct (Q.max_spec val lowest) as [[H M] | [H M]];
    rewrite M; try reflexivity; exfalso; lra.
Qed.

Lemma normalised_below (lowest val : Q) :
  lowest < 0 -> val <= lowest -> normalised lowest val == 0.
Proof.
  intros Hl Hv. rewrite normalised_clamp.
  rewrite Q.max_r by assumption.
  setoid_replace (lowest - lowest) with 0 by ring.
  unfold Qdiv. apply Qmult_0_l.
Qed.

Lemma normalised_at_zero (lowest val : Q) :
  lowest < 0 -> val == 0 -> normalised lowest val == 1.
Proof.
  intros Hl Hv. rewrite normalised_clamp.
  rewrite Q.max_l by lra. rewrite Hv.
  field. lra.
Qed.

(** C4 (as amended).  On every completed tick each loudness meter parameter
    is written with (clamp(value, floor) - floor) / (-floor) for the floor
    -64, so a value at or below the floor gives 0 and 0 dB gives 1.  Each
    true-peak meter parameter is written with the same expression applied to
    the reading less the 3 dB ceiling, with floor -125 - 3 = -128: a reading
    at or below -125 dB gives 0, a reading of +3 dB gives 1, and a reading
    of 0 dB gives 125/128.  A held-peak parameter is either left alone or
    written with the value of its channel's true-peak parameter. *)
Theorem meter_normalisation (fuel : nat) (r : Readings) (s : Plugin) :
  (2 <= fuel)%nat ->
  (boolv s lufsReset = false \/ midiOutput s <> None ->
   exists s', hiResTimerCallback fuel r s = Ok (tt, s'))
  /\ (forall s',
        hiResTimerCallback fuel r s = Ok (tt, s') ->
        (forall m x,
           In (m, x) [ (lufsShort, lufsSval r); (lufsMomentary, lufsMval r);
                       (lufsIntegrated, lufsIval r);
                       (lufsRangeMin, lufsMinVal r);
                       (lufsRangeMax, lufsMaxVal r) ] ->
           meterv s' m
           == (Qmax x LOWEST_LUFS_VALUE - LOWEST_LUFS_VALUE)
              / - LOWEST_LUFS_VALUE
           /\ (x <= LOWEST_LUFS_VALUE -> meterv s' m == 0)
           /\ (x == 0 -> meterv s' m == 1))
        /\ (forall m x,
              In (m, x) [ (peakMeterLeft, truePeakL r);
                          (peakMeterRight, truePeakR r) ] ->
              meterv s' m
              == (Qmax (x - HIGHEST_TRUE_PEAK_VALUE) truePeakRange
                  - truePeakRange) / - truePeakRange
              /\ (x <= LOWEST_TRUE_PEAK_VALUE -> meterv s' m == 0)
              /\ (x == HIGHEST_TRUE_PEAK_VALUE -> meterv s' m == 1)
              /\ (x == 0 -> meterv s' m == 125 # 128))
        /\ (meterv s' peakMeterMaxLeft = meterv s' peakMeterLeft
            \/ meterv s' peakMeterMaxLeft = meterv s peakMeterMaxLeft)
        /\ (meterv s' peakMeterMaxRight = meterv s' peakMeterRight
            \/ meterv s' peakMeterMaxRight = meterv s peakMeterMaxRight)).
Proof.
  intro Hf. split; [apply tick_total; assumption|].
  intros s' E. apply (tick_effect fuel r s s' Hf) in E.
  destruct E as ((_ & _ & ML) & (_ & _ & MR) & _
                 & (L1 & L2 & L3 & L4 & L5 & P1 & P2) & _).
  assert (Lufs : forall x,
             normalised LOWEST_LUFS_VALUE x
             == (Qmax x LOWEST_LUFS_VALUE - LOWEST_LUFS_VALUE)
                / - LOWEST_LUFS_VALUE
             /\ (x <= LOWEST_LUFS_VALUE -> normalised LOWEST_LUFS_VALUE x == 0)
             /\ (x == 0 -> normalised LOWEST_LUFS_VALUE x == 1)).
  { intro x. split; [apply normalised_clamp|].
    split; intro H.
    - apply normalised_below; [reflexivity | assumption].
    - apply normalised_at_zero; [reflexivity | assumption]. }
  assert (Peak : forall x,
             normalised truePeakRange (x - HIGHEST_TRUE_PEAK_VALUE)
             == (Qmax (x - HIGHEST_TRUE_PEAK_VALUE) truePeakRange
                 - truePeakRange) / - truePeakRange
             /\ (x <= LOWEST_TRUE_PEAK_VALUE ->
                 normalised truePeakRange (x - HIGHEST_TRUE_PEAK_VALUE) == 0)
             /\ (x == HIGHEST_TRUE_PEAK_VALUE ->
                 normalised truePeakRange (x - HIGHEST_TRUE_PEAK_VALUE) == 1)
             /\ (x == 0 ->
                 normalised truePeakRange (x - HIGHEST_TRUE_PEAK_VALUE)
                 == 125 # 128)).
  { intro x. split; [apply normalised_clamp|].
    split; [|split]; intro H.
    - apply normalised_below; [reflexivity|].
      unfold truePeakRange, LOWEST_TRUE_PEAK_VALUE, HIGHEST_TRUE_PEAK_VALUE in *.
      lra.
    - apply normalised_at_zero; [reflexivity|].
      rewrite H. ring.
    - rewrite normalised_clamp.
      unfold truePeakRange, LOWEST_TRUE_PEAK_VALUE, HIGHEST_TRUE_PEAK_VALUE.
      rewrite Q.max_l by lra. rewrite H. reflexivity. }
  split; [|split; [|split]].
  - intros m x H.
    destruct H as [H | [H | [H | [H | [H | []]]]]]; injection H as <- <-;
      [rewrite L1 | rewrite L2 | rewrite L3 | rewrite L4 | rewrite L5];
      apply Lufs.
  - intros m x H.
    destruct H as [H | [H | []]]; injection H as <- <-;
      [rewrite P1 | rewrite P2]; apply Peak.
  - rewrite ML, P1. destruct (updatesLeft r (holdView s)); auto.
  - rewrite MR, P2. destruct (updatesRight r (holdView s)); auto.
Qed.

(** A quiet programme at -23 LUFS peaking at 0 dB, on a fresh processor. *)
Lemma meter_normalisation_witness :
  exists s',
    hiResTimerCallback 2 (steady (-23) 0) (constructed None (-128))
    = Ok (tt, s')
    /\ meterv s' lufsShort == 41 # 64
    /\ meterv s' peakMeterLeft == 125 # 128.
Proof.
  destruct (meter_normalisation 2 (steady (-23) 0) (constructed None (-128)))
    as [T P]; [lia|].
  destruct T as [s' E]; [left; reflexivity|].
  exists s'. split; [exact E|].
  destruct (P s' E) as (A & B & _). split.
  - destruct (A lufsShort (-23)) as (A1 & _); [left; reflexivity|].
    rewrite A1. reflexivity.
  - destruct (B peakMeterLeft 0) as (_ & _ & _ & B1); [left; reflexivity|].
    apply B1. reflexivity.
Defined.

(** C4 as stated fails for the true-peak meters: a true peak of 0 dB is
    written as 125/128, not as 1. *)
Lemma true_peak_zero_db_counterexample :
  exists s',
    hiResTimerCallback 2 (steady (-23) 0) (constructed None (-128))
    = Ok (tt, s')
    /\ truePeakL (steady (-23) 0) == 0
    /\ meterv s' peakMeterLeft == 125 # 128
    /\ ~ meterv s' peakMeterLeft == 1.
Proof.
  eexists. split; [cbv -[BoolParam_eq_dec MeterParam_eq_dec app]; reflexivity|].
  cbn. repeat split; try reflexivity.
  intro H. vm_compute in H. discriminate.
Qed.

(** ** The meter packet *)

Lemma Qgtb_comp (a b c d : Q) : a == c -> b == d -> Qgtb a b = Qgtb c d.
Proof.
  intros H1 H2. unfold Qgtb, Qltb. f_equal. apply Qle_bool_comp; assumption.
Qed.

(** *** The clip test *)

Lemma Qeq_le (a b : Q) : a == b -> a <= b.
Proof. intro E. rewrite E. apply Qle_refl. Qed.

Lemma Qeq_ge (a b : Q) : a == b -> b <= a.
Proof. intro E. rewrite E. apply Qle_refl. Qed.

Lemma aboveClipThreshold_mono (p q : Q) :
  p <= q -> aboveClipThreshold p = true -> aboveClipThreshold q = true.
Proof.
  unfold aboveClipThreshold. intros H P.
  apply Qgtb_true in P. apply Qgtb_true.
  eapply Qlt_le_trans; [exact P|]. apply fl32_mono. lra.
Qed.

(** Between -3 + 2^-23 and -3 + 2^-22 a difference is rounded up to
    -3 + 2^-22, the float next to -3. *)
Lemma fl32_next_to_ceiling (x : Q) :
  1 # 8388608 < x -> x < 1 # 4194304 ->
  fl32 (x - 3) == -12582911 # 4194304.
Proof.
  intros L U. unfold fl32, roundTo.
  destruct (Qcompare_spec (x - 3) 0) as [A|A|A]; try (exfalso; lra).
  unfold roundPos, cexp.
  rewrite (mag_unique (- (x - 3)) 1)
    by (change (pow2 1) with 2; change (pow2 (1 + 1)) with 4; lra).
  change (Z.max (1 - (24 - 1)) (-149)) with (-22)%Z.
  change (pow2 (-22)) with (1 # 4194304).
  rewrite (rne_floor _ 12582911); [reflexivity | |];
    unfold Qdiv; change (/ (1 # 4194304)) with 4194304;
    change (inject_Z 12582911) with 12582911; lra.
Qed.

(** The clip test of the code, on the reading itself.  Taking the ceiling
    off and adding it back in single precision loses what lies within 2^-23
    above 0: the test holds exactly when the reading exceeds 2^-23. *)
Lemma clip_threshold (x : Q) :
  aboveClipThreshold (fl32 (x - HIGHEST_TRUE_PEAK_VALUE)) = Qgtb x clipMargin.
Proof.
  unfold aboveClipThreshold, HIGHEST_TRUE_PEAK_VALUE, clipMargin.
  destruct (Qlt_le_dec (1 # 8388608) x) as [H|H].
  - assert (G : -12582911 # 4194304 <= fl32 (x - 3)).
    { destruct (Qlt_le_dec x (1 # 4194304)) as [S|L].
      - apply Qeq_ge. apply fl32_next_to_ceiling; assumption.
      - assert (F : fl32 (-12582911 # 4194304) == -12582911 # 4194304)
          by (vm_compute; reflexivity).
        apply Qle_trans with (fl32 (-12582911 # 4194304));
          [apply Qeq_ge; exact F | apply fl32_mono; lra]. }
    assert (P : 1 # 4194304 <= fl32 (fl32 (x - 3) + 3)).
    { assert (F : fl32 (1 # 4194304) == 1 # 4194304)
        by (vm_compute; reflexivity).
      apply Qle_trans with (fl32 (1 # 4194304));
        [apply Qeq_ge; exact F | apply fl32_mono; lra]. }
    transitivity true; [apply Qgtb_true; lra | symmetry; apply Qgtb_true; exact H].
  - assert (G : fl32 (x - 3) <= -3).
    { assert (F : fl32 (-25165823 # 8388608) == -3)
        by (vm_compute; reflexivity).
      apply Qle_trans with (fl32 (-25165823 # 8388608));
        [apply fl32_mono; lra | apply Qeq_le; exact F]. }
    assert (P : fl32 (fl32 (x - 3) + 3) <= 0) by (apply fl32_nonpos; lra).
    transitivity false;
      [apply Qgtb_false; exact P | symmetry; apply Qgtb_false; exact H].
Qed.

Lemma clip_test_left (r : Readings) :
  aboveClipThreshold (peakLval r) = Qgtb (truePeakL r) clipMargin.
Proof. apply clip_threshold. Qed.

Lemma clip_test_right (r : Readings) :
  aboveClipThreshold (peakRval r) = Qgtb (truePeakR r) clipMargin.
Proof. apply clip_threshold. Qed.

(** Truncation is the floor of a number that is not negative, and minus
    the floor of the opposite of a negative one. *)
Lemma Qtrunc_floor (x : Q) :
  Qtrunc x = if Qle_bool 0 x then Qfloor x else (- Qfloor (- x))%Z.
Proof.
  destruct x as [n d]. unfold Qtrunc, Qfloor, Qopp. cbn [Qnum Qden].
  destruct (Qle_bool 0 (n # d)) eqn:E.
  - apply Qle_bool_iff in E. unfold Qle in E. cbn in E.
    apply Z.quot_div_nonneg; lia.
  - assert (N : (n < 0)%Z).
    { destruct (Z.lt_ge_cases n 0) as [L|G]; [exact L|].
      assert (T : Qle_bool 0 (n # d) = true)
        by (apply Qle_bool_iff; unfold Qle; cbn; lia).
      congruence. }
    rewrite <- (Z.quot_div_nonneg (- n) (Zpos d)) by lia.
    rewrite Z.quot_opp_l by discriminate. lia.
Qed.

Lemma Qtrunc_comp (x y : Q) : x == y -> Qtrunc x = Qtrunc y.
Proof.
  intro E. rewrite !Qtrunc_floor.
  rewrite (Qle_bool_comp 0 x 0 y) by (reflexivity || assumption).
  destruct (Qle_bool 0 y).
  - apply Qfloor_comp. exact E.
  - f_equal. apply Qfloor_comp. rewrite E. reflexivity.
Qed.

Lemma getMeterIntegralFractional_comp (x y : Q) :
  x == y -> getMeterIntegralFractional x = getMeterIntegralFractional y.
Proof.
  intro E. rewrite !getMeterIntegralFractional_narrowed.
  unfold EncodingSpec.encode_narrowed, EncodingSpec.frac.
  rewrite (Qtrunc_comp x y E).
  rewrite (narrowed_comp (Qabs (x - inject_Z (Qtrunc y)) * 100)
             (Qabs (y - inject_Z (Qtrunc y)) * 100)); [reflexivity|].
  rewrite E. reflexivity.
Qed.

(** The pairs of a packet, with the larger held peak written as a
    maximum. *)
Lemma packetValues_pairs (r : Readings) (s : Plugin) :
  map getMeterIntegralFractional (packetValues r s)
  = map getMeterIntegralFractional
      [ lufsSval r; lufsMval r; lufsIval r; lufsMinVal r; lufsMaxVal r;
        fl32 (lufsMaxVal r - lufsMinVal r);
        lufsTarget s;
        fl32 (truePeakL r - HIGHEST_TRUE_PEAK_VALUE);
        fl32 (truePeakR r - HIGHEST_TRUE_PEAK_VALUE);
        lastMaxLeft s; lastMaxRight s;
        Qmax (lastMaxLeft s) (lastMaxRight s) ].
Proof.
  unfold packetValues, peakLval, peakRval. cbn [map].
  do 11 (apply f_equal2; [reflexivity|]). apply f_equal2; [|reflexivity].
  apply getMeterIntegralFractional_comp.
  destruct (Qgtb (lastMaxLeft s) (lastMaxRight s)) eqn:G;
    [apply Qgtb_true in G | apply Qgtb_false in G].
  - symmetry. apply Q.max_l. lra.
  - symmetry. apply Q.max_r. exact G.
Qed.

Lemma sysexData_layout (r : Readings) (s : Plugin) :
  sysexData r s
  = [0x00; 0x21; 0x69; 1]%Z
    ++ flat_map pairBytes (map getMeterIntegralFractional (packetValues r s))
    ++ [ (if aboveClipThreshold (peakLval r) then 1 else 0)%Z;
         (if aboveClipThreshold (peakRval r) then 1 else 0)%Z ].
Proof. reflexivity. Qed.

(** C1 (as amended).  With the output port open every tick completes and
    sends, as its last message, one meter packet: the vendor id 00 21 69,
    the command code 1, then 12 integral/fractional byte pairs, each byte in
    0..99, for the quantities of [packetValues] (the loudness readings, the
    range span, the target, and the true peaks and held peaks with the 3 dB
    ceiling taken off), then the two clip flags, each 0 or 1: the clip test
    of the code on the channel's peak, which is 1 exactly when the true
    peak is more than 2^-23 dB above 0 dB; 4 + 24 + 2 = 30 bytes. *)
Theorem meter_packet_layout (fuel : nat) (r : Readings) (s : Plugin) :
  (2 <= fuel)%nat ->
  midiOutput s <> None ->
  (exists s', hiResTimerCallback fuel r s = Ok (tt, s'))
  /\ (forall s',
        hiResTimerCallback fuel r s = Ok (tt, s') ->
        exists earlier pairs clipL clipR,
          midiOutput s'
          = Some (earlier
                  ++ [SysExMessage
                        ([0x00; 0x21; 0x69]%Z
                         ++ [1]%Z
                         ++ flat_map pairBytes pairs
                         ++ [clipL; clipR])])
          /\ pairs
             = map getMeterIntegralFractional
                 [ lufsSval r; lufsMval r; lufsIval r;
                   lufsMinVal r; lufsMaxVal r;
                   fl32 (lufsMaxVal r - lufsMinVal r);
                   lufsTarget s';
                   fl32 (truePeakL r - HIGHEST_TRUE_PEAK_VALUE);
                   fl32 (truePeakR r - HIGHEST_TRUE_PEAK_VALUE);
                   lastMaxLeft s'; lastMaxRight s';
                   Qmax (lastMaxLeft s') (lastMaxRight s') ]
          /\ List.length pairs = 12%nat
          /\ Forall (fun p => (0 <= fst p <= 99)%Z /\ (0 <= snd p <= 99)%Z) pairs
          /\ clipL = (if aboveClipThreshold (peakLval r) then 1 else 0)%Z
          /\ clipR = (if aboveClipThreshold (peakRval r) then 1 else 0)%Z
          /\ clipL = (if Qgtb (truePeakL r) clipMargin then 1 else 0)%Z
          /\ clipR = (if Qgtb (truePeakR r) clipMargin then 1 else 0)%Z
          /\ List.length ([0x00; 0x21; 0x69]%Z ++ [1]%Z
                     ++ flat_map pairBytes pairs ++ [clipL; clipR]) = 30%nat).
Proof.
  intros Hf Ho. split; [apply tick_total; auto|].
  intros s' E. apply (tick_effect fuel r s s' Hf) in E.
  destruct E as (_ & _ & _ & _ & _ & _ & _ & _ & Hsent).
  destruct (Hsent Ho) as [earlier Hm].
  exists earlier, (map getMeterIntegralFractional (packetValues r s')).
  eexists. eexists.
  split; [rewrite Hm, sysexData_layout; reflexivity|].
  split; [apply packetValues_pairs|]. split; [reflexivity|].
  split; [|split; [reflexivity|split; [reflexivity|]]].
  - apply Forall_forall. intros p Hp. apply in_map_iff in Hp.
    destruct Hp as (v & <- & _). apply getMeterIntegralFractional_range.
  - rewrite clip_test_left, clip_test_right. repeat split; reflexivity.
Qed.

(** The packet of one tick on a fresh processor with an open port. *)
Lemma meter_packet_layout_witness :
  midiOutput (constructed (Some []) (-128)) <> None
  /\ exists s' earlier data,
       hiResTimerCallback 2
         (mkReadings (-237 # 10) (-215 # 10) (-24) (-30) (-18) (-6) (5 # 10))
         (constructed (Some []) (-128)) = Ok (tt, s')
       /\ midiOutput s' = Some (earlier ++ [SysExMessage data])
       /\ List.length data = 30%nat.
Proof.
  split; [discriminate|].
  destruct (meter_packet_layout 2
              (mkReadings (-237 # 10) (-215 # 10) (-24) (-30) (-18) (-6) (5 # 10))
              (constructed (Some []) (-128)))
    as [[s' E] P]; [lia | discriminate |].
  destruct (P s' E)
    as (earlier & pairs & clipL & clipR & Hm & _ & _ & _ & _ & _ & _ & _ & Hl).
  exists s', earlier. eexists. split; [exact E|]. split; [exact Hm | exact Hl].
Defined.

(** C1 as stated fails on the length: the packet of a tick has 30 bytes,
    12 pairs between the 4-byte header and the 2 clip flags, not 34. *)
Lemma meter_packet_length_counterexample :
  exists s',
    hiResTimerCallback 2
      (mkReadings (-237 # 10) (-215 # 10) (-24) (-30) (-18) (-6) (5 # 10))
      (constructed (Some []) (-128)) = Ok (tt, s')
    /\ midiOutput s'
       = Some [SysExMessage
                 [ 0; 33; 105; 1;
                   23; 70; 21; 50; 24; 0; 30; 0; 18; 0; 12; 0; 16; 0;
                   9; 0; 2; 50; 9; 0; 2; 50; 2; 50;
                   0; 1 ]%Z]
    /\ forall data,
         midiOutput s' = Some [SysExMessage data] ->
         List.length data = 30%nat /\ List.length data <> 34%nat.
Proof.
  eexists. split; [vm_compute; reflexivity|].
  split; [vm_compute; reflexivity|].
  intros data H. vm_compute in H. injection H as <-.
  split; [reflexivity | discriminate].
Qed.

(** ** Peak hold and clip indicators *)

Lemma holdView_idle (r : Readings) (s : Plugin) :
  boolv s lufsReset = false ->
  holdExpired (holdView s) = holdExpired s
  /\ updatesLeft r (holdView s) = updatesLeft r s
  /\ updatesRight r (holdView s) = updatesRight r s
  /\ msSinceLastPeakReset (holdView s) = msSinceLastPeakReset s.
Proof.
  intro H. unfold holdView. rewrite H. repeat split; reflexivity.
Qed.

Lemma holdExpired_iff (s : Plugin) :
  0 < peakHoldSeconds s ->
  (holdExpired s = true
   <-> holdMilliseconds s <= fl32 (msSinceLastPeakReset s)).
Proof.
  intro Hp. unfold holdExpired, holdMilliseconds.
  assert (E : Qeq_bool (peakHoldSeconds s) 0 = false).
  { destruct (Qeq_bool (peakHoldSeconds s) 0) eqn:E; [|reflexivity].
    apply Qeq_bool_iff in E. lra. }
  rewrite E. cbn. apply Qgeb_true.
Qed.

Lemma updatesLeft_iff (r : Readings) (s : Plugin) :
  updatesLeft r s = true
  <-> holdExpired s = true \/ lastMaxLeft s < peakLval r.
Proof.
  unfold updatesLeft. rewrite orb_true_iff, Qgtb_true. reflexivity.
Qed.

Lemma updatesRight_iff (r : Readings) (s : Plugin) :
  updatesRight r s = true
  <-> holdExpired s = true \/ lastMaxRight s < peakRval r.
Proof.
  unfold updatesRight. rewrite orb_true_iff, Qgtb_true. reflexivity.
Qed.

Lemma updatesLeft_view (r : Readings) (s : Plugin) :
  updatesLeft r (holdView s) = true
  <-> holdExpired (holdView s) = true \/ lastMaxLeft s < peakLval r.
Proof. exact (updatesLeft_iff r (holdView s)). Qed.

Lemma updatesRight_view (r : Readings) (s : Plugin) :
  updatesRight r (holdView s) = true
  <-> holdExpired (holdView s) = true \/ lastMaxRight s < peakRval r.
Proof. exact (updatesRight_iff r (holdView s)). Qed.

Lemma holdExpired_view_zero (s : Plugin) :
  peakHoldSeconds s == 0 -> holdExpired (holdView s) = true.
Proof.
  intro H. unfold holdExpired. cbn.
  apply Qeq_bool_iff in H. rewrite H. reflexivity.
Qed.

(** One channel of a tick: the clip parameter and the held peak before and
    after, given whether the held peak is updated. *)
Lemma clip_channel (upd : bool) (peak held held' : Q) (clip clip' : bool) :
  held' = (if upd then peak else held) ->
  clip' = (if upd then aboveClipThreshold peak else clip) ->
  (upd = false -> peak <= held) ->
  (clip' = aboveClipThreshold peak /\ held' = peak
   \/ clip' = clip /\ held' = held /\ peak <= held)
  /\ (clip = aboveClipThreshold held ->
      (aboveClipThreshold peak = true -> clip' = true)
      /\ clip' = aboveClipThreshold held').
Proof.
  intros Hh Hc Hn. subst held' clip'. destruct upd.
  - split; [left; split; reflexivity|]. intro A. split; [tauto | reflexivity].
  - specialize (Hn eq_refl). split; [right; repeat split; assumption|].
    intro A. split; [|exact A].
    intro P. rewrite A. apply (aboveClipThreshold_mono peak held Hn P).
Qed.

(** C3 (as amended).  On every completed tick and for each channel the clip
    parameter is written together with the held peak and only then: it
    becomes the result of the clip test on the instantaneous peak when the
    held peak is updated (always so when the peak exceeds the held value or
    the hold time is zero) and keeps its value otherwise.  The clip test,
    made in single precision on the reading with the 3 dB ceiling taken off
    and added back, holds exactly when the true peak is more than 2^-23 dB
    above 0 dB.  Hence, whatever the hold duration, held value and elapsed
    time, if the clip parameter agrees with the held peak before the tick
    then it is set after every tick whose true peak exceeds 0 dB by more
    than 2^-23 dB, and it agrees with the held peak again. *)
Theorem clip_indicator_on_tick (fuel : nat) (r : Readings) (s : Plugin) :
  (2 <= fuel)%nat ->
  (boolv s lufsReset = false \/ midiOutput s <> None ->
   exists s', hiResTimerCallback fuel r s = Ok (tt, s'))
  /\ (forall s',
        hiResTimerCallback fuel r s = Ok (tt, s') ->
        ((clipMeterLeft s' = aboveClipThreshold (peakLval r)
          /\ lastMaxLeft s' = peakLval r
          \/ clipMeterLeft s' = clipMeterLeft s
             /\ lastMaxLeft s' = lastMaxLeft s
             /\ peakLval r <= lastMaxLeft s)
         /\ (lastMaxLeft s < peakLval r \/ peakHoldSeconds s == 0 ->
             clipMeterLeft s' = aboveClipThreshold (peakLval r))
         /\ aboveClipThreshold (peakLval r) = Qgtb (truePeakL r) clipMargin
         /\ (clipAgreesLeft s ->
             (clipMargin < truePeakL r -> clipMeterLeft s' = true)
             /\ clipAgreesLeft s'))
        /\ ((clipMeterRight s' = aboveClipThreshold (peakRval r)
             /\ lastMaxRight s' = peakRval r
             \/ clipMeterRight s' = clipMeterRight s
                /\ lastMaxRight s' = lastMaxRight s
                /\ peakRval r <= lastMaxRight s)
            /\ (lastMaxRight s < peakRval r \/ peakHoldSeconds s == 0 ->
                clipMeterRight s' = aboveClipThreshold (peakRval r))
            /\ aboveClipThreshold (peakRval r) = Qgtb (truePeakR r) clipMargin
            /\ (clipAgreesRight s ->
                (clipMargin < truePeakR r -> clipMeterRight s' = true)
                /\ clipAgreesRight s'))).
Proof.
  intro Hf. split; [apply tick_total; assumption|].
  intros s' E. apply (tick_effect fuel r s s' Hf) in E.
  destruct E as ((HL & CL & _) & (HR & CR & _) & _).
  unfold clipAgreesLeft, clipAgreesRight.
  split.
  - assert (N : updatesLeft r (holdView s) = false -> peakLval r <= lastMaxLeft s).
    { intro G. apply Qnot_lt_le. intro L.
      assert (T : updatesLeft r (holdView s) = true)
        by (apply updatesLeft_view; right; assumption).
      congruence. }
    destruct (clip_channel _ _ _ _ _ _ HL CL N) as [K1 K2].
    split; [exact K1|]. split; [|split; [apply clip_test_left|]].
    + intro H. rewrite CL.
      assert (T : updatesLeft r (holdView s) = true).
      { apply updatesLeft_view. destruct H as [L | Z]; [right; exact L|].
        left. apply holdExpired_view_zero. exact Z. }
      rewrite T. reflexivity.
    + intro A. destruct (K2 A) as [K3 K4]. split; [|exact K4].
      intro P. apply K3. rewrite clip_test_left. apply Qgtb_true. exact P.
  - assert (N : updatesRight r (holdView s) = false -> peakRval r <= lastMaxRight s).
    { intro G. apply Qnot_lt_le. intro L.
      assert (T : updatesRight r (holdView s) = true)
        by (apply updatesRight_view; right; assumption).
      congruence. }
    destruct (clip_channel _ _ _ _ _ _ HR CR N) as [K1 K2].
    split; [exact K1|]. split; [|split; [apply clip_test_right|]].
    + intro H. rewrite CR.
      assert (T : updatesRight r (holdView s) = true).
      { apply updatesRight_view. destruct H as [L | Z]; [right; exact L|].
        left. apply holdExpired_view_zero. exact Z. }
      rewrite T. reflexivity.
    + intro A. destruct (K2 A) as [K3 K4]. split; [|exact K4].
      intro P. apply K3. rewrite clip_test_right. apply Qgtb_true. exact P.
Qed.

(** A true peak of +2 dB on a fresh processor whose held peaks start at the
    floor. *)
Lemma clip_indicator_on_tick_witness :
  clipAgreesLeft (constructed None (-128))
  /\ clipMargin < truePeakL (steady (-23) 2)
  /\ exists s',
       hiResTimerCallback 2 (steady (-23) 2) (constructed None (-128))
       = Ok (tt, s')
       /\ clipMeterLeft s' = true.
Proof.
  split; [vm_compute; reflexivity|]. split; [reflexivity|].
  destruct (clip_indicator_on_tick 2 (steady (-23) 2) (constructed None (-128)))
    as [T P]; [lia|].
  destruct T as [s' E]; [left; reflexivity|].
  exists s'. split; [exact E|].
  destruct (P s' E) as ((_ & _ & _ & A) & _).
  apply A; [vm_compute; reflexivity | reflexivity].
Defined.

(** A tick with no reset request pending always completes; the peak-hold
    members afterwards. *)
Lemma tick_idle (fuel : nat) (r : Readings) (s : Plugin) :
  (2 <= fuel)%nat ->
  boolv s lufsReset = false ->
  exists s',
    hiResTimerCallback fuel r s = Ok (tt, s')
    /\ lastMaxLeft s' = (if updatesLeft r s then peakLval r else lastMaxLeft s)
    /\ lastMaxRight s' = (if updatesRight r s then peakRval r else lastMaxRight s)
    /\ msSinceLastPeakReset s'
       = (if Qgtb (peakHoldSeconds s) 0
          then (if holdExpired s then 0 else msSinceLastPeakReset s)
               + CALLBACK_TIMER_PERIOD_MS
          else (if holdExpired s then 0 else msSinceLastPeakReset s))
    /\ peakHoldSeconds s' = peakHoldSeconds s
    /\ boolv s' lufsReset = false.
Proof.
  intros Hf Hr.
  destruct (tick_total fuel r s Hf (or_introl Hr)) as [s' E].
  exists s'. split; [exact E|].
  apply (tick_effect fuel r s s' Hf) in E.
  destruct E as ((HL & _) & (HR & _) & Hms & _ & _ & Hp & Hb & _).
  destruct (holdView_idle r s Hr) as (V1 & V2 & V3 & V4).
  rewrite V1, V4 in Hms. rewrite V2 in HL. rewrite V3 in HR.
  repeat split; assumption.
Qed.

(** A tick at +1 dB after a tick at +2 dB and a host write of [false] to the
    clip parameter: the peak does not exceed the held one and the parameter
    stays clear, whatever the held peak was at the start. *)
Lemma host_cleared_clip_stays (held : Q) :
  exists s1 s2,
    hiResTimerCallback 2 (steady (-23) 2) (constructed None held) = Ok (tt, s1)
    /\ hiResTimerCallback 2 (steady (-23) 1) (Upd.clipMeterLeft' false s1)
       = Ok (tt, s2)
    /\ clipMeterLeft s2 = false.
Proof.
  destruct (tick_idle 2 (steady (-23) 2) (constructed None held) (le_n 2) eq_refl)
    as (s1 & E1 & HL & _ & Hms & Hp & Hr).
  exists s1.
  destruct (tick_total 2 (steady (-23) 1) (Upd.clipMeterLeft' false s1) (le_n 2))
    as [s2 E2]; [left; exact Hr|].
  exists s2. split; [exact E1|]. split; [exact E2|].
  apply (tick_effect 2 _ _ s2 (le_n 2)) in E2.
  destruct E2 as ((_ & CL & _) & _). rewrite CL.
  replace (updatesLeft (steady (-23) 1) (holdView (Upd.clipMeterLeft' false s1)))
    with false; [reflexivity|].
  symmetry.
  assert (A : peakLval (steady (-23) 2) == -1) by (vm_compute; reflexivity).
  assert (B : peakLval (steady (-23) 1) == -2) by (vm_compute; reflexivity).
  assert (X0 : holdExpired (constructed None held) = false)
    by (vm_compute; reflexivity).
  unfold updatesLeft in HL. rewrite X0 in HL, Hms.
  change (lastMaxLeft (constructed None held)) with held in HL.
  change (Qgtb (peakHoldSeconds (constructed None held)) 0) with true in Hms.
  change (msSinceLastPeakReset (constructed None held)) with 0 in Hms.
  change (peakHoldSeconds (constructed None held)) with 5 in Hp.
  cbv iota in Hms. cbn [orb] in HL.
  unfold updatesLeft, holdExpired, holdView.
  cbn [boolv msSinceLastPeakReset peakHoldSeconds lastMaxLeft
       Upd.clipMeterLeft' Upd.msSinceLastPeakReset'].
  rewrite Hr, Hp, Hms, HL.
  set (p2 := peakLval (steady (-23) 2)) in *.
  set (p1 := peakLval (steady (-23) 1)) in *.
  clearbody p1 p2.
  apply orb_false_iff. split; [vm_compute; reflexivity|].
  apply Qgtb_false.
  destruct (Qgtb p2 held) eqn:G; [|apply Qgtb_false in G]; lra.
Qed.

(** C3 as stated fails.  The float nearest to 1e-7 is a true peak above
    0 dB; with the ceiling taken off it is rounded to -3, the clip test
    fails, and on a fresh processor the clip parameter is clear after the
    tick whatever the held peak was.  And after a tick at +2 dB (which sets
    the clip parameter when the held peaks start at the floor) and a host
    write that clears it, a tick at +1 dB, which does not exceed the held
    peak, leaves it cleared, again whatever the held peak was at the
    start. *)
Lemma clip_indicator_counterexample :
  0 < truePeakL (steady (-23) (14073749 # 140737488355328))
  /\ fl32 (14073749 # 140737488355328) == 14073749 # 140737488355328
  /\ (forall held,
        exists s',
          hiResTimerCallback 2 (steady (-23) (14073749 # 140737488355328))
            (constructed None held) = Ok (tt, s')
          /\ clipMeterLeft s' = false)
  /\ 0 < truePeakL (steady (-23) 1)
  /\ (forall held,
        exists s1 s2,
          hiResTimerCallback 2 (steady (-23) 2) (constructed None held)
          = Ok (tt, s1)
          /\ hiResTimerCallback 2 (steady (-23) 1) (Upd.clipMeterLeft' false s1)
             = Ok (tt, s2)
          /\ clipMeterLeft s2 = false)
  /\ (exists s1,
        hiResTimerCallback 2 (steady (-23) 2) (constructed None (-128))
        = Ok (tt, s1)
        /\ clipMeterLeft s1 = true).
Proof.
  split; [reflexivity|]. split; [vm_compute; reflexivity|].
  split; [|split; [reflexivity|split; [exact host_cleared_clip_stays|]]].
  - intro held.
    destruct (tick_total 2 (steady (-23) (14073749 # 140737488355328))
                (constructed None held)) as [s' E];
      [lia | left; reflexivity |].
    exists s'. split; [exact E|].
    apply (tick_effect 2 _ _ s' (le_n 2)) in E.
    destruct E as ((_ & CL & _) & _). rewrite CL.
    destruct (updatesLeft _ _); [vm_compute|]; reflexivity.
  - eexists. split; [vm_compute; reflexivity | reflexivity].
Qed.

Lemma runTicks_app (fuel : nat) (a b : list Readings) (s : Plugin) :
  runTicks fuel (a ++ b) s
  = match runTicks fuel a s with
    | Ok (_, s1) => runTicks fuel b s1
    | NullDeref => NullDeref
    | OutOfFuel => OutOfFuel
    end.
Proof.
  revert s. induction a as [|r a IH]; intro s; [reflexivity|].
  cbn [app runTicks]. unfold bind.
  destruct (hiResTimerCallback fuel r s) as [[[] s1]| |]; [|reflexivity..].
  apply IH.
Qed.

(** A hold of 5 s is 5000 ms, exactly. *)
Lemma holdMilliseconds_five (s : Plugin) :
  peakHoldSeconds s == 5 -> holdMilliseconds s == 5000.
Proof.
  intro H. unfold holdMilliseconds.
  rewrite (fl32_comp (peakHoldSeconds s * 1000) 5000) by (rewrite H; reflexivity).
  vm_compute. reflexivity.
Qed.

(** Inside a hold window of 5 s nothing higher arrives: the held peaks stay
    and the elapsed time advances by 10 ms per tick. *)
Lemma window_kept (fuel : nat) (rs : list Readings) :
  (2 <= fuel)%nat ->
  forall s,
    peakHoldSeconds s == 5 ->
    boolv s lufsReset = false ->
    msSinceLastPeakReset s + 10 * inject_Z (Z.of_nat (List.length rs))
    <= 5000 ->
    Forall (fun r => peakLval r <= lastMaxLeft s
                     /\ peakRval r <= lastMaxRight s) rs ->
    exists s1,
      runTicks fuel rs s = Ok (tt, s1)
      /\ lastMaxLeft s1 = lastMaxLeft s
      /\ lastMaxRight s1 = lastMaxRight s
      /\ msSinceLastPeakReset s1
         == msSinceLastPeakReset s + 10 * inject_Z (Z.of_nat (List.length rs))
      /\ peakHoldSeconds s1 = peakHoldSeconds s
      /\ boolv s1 lufsReset = false.
Proof.
  intro Hf. induction rs as [|r rs IH]; intros s H5 Hr Hw Hd.
  - exists s. cbn. repeat split; try reflexivity; try assumption. ring.
  - assert (Hp : 0 < peakHoldSeconds s) by lra.
    assert (Hlen : inject_Z (Z.of_nat (List.length (r :: rs)))
                   == inject_Z (Z.of_nat (List.length rs)) + 1).
    { cbn [List.length]. rewrite Nat2Z.inj_succ, <- Z.add_1_r.
      rewrite inject_Z_plus. reflexivity. }
    rewrite Hlen in Hw.
    assert (Hn : 0 <= inject_Z (Z.of_nat (List.length rs))).
    { change 0 with (inject_Z 0). rewrite <- Zle_Qle. lia. }
    inversion Hd as [|r' rs' [HdL HdR] Hd']; subst.
    destruct (tick_idle fuel r s Hf Hr) as (s' & E & HL & HR & Hms & Hp' & Hr').
    assert (X : holdExpired s = false).
    { destruct (holdExpired s) eqn:X; [|reflexivity].
      apply holdExpired_iff in X; [|assumption].
      rewrite (holdMilliseconds_five s H5) in X.
      assert (F : fl32 4990 == 4990) by (vm_compute; reflexivity).
      assert (B : fl32 (msSinceLastPeakReset s) <= fl32 4990)
        by (apply fl32_mono; lra).
      lra. }
    assert (UL : updatesLeft r s = false).
    { unfold updatesLeft. rewrite X. cbn. apply Qgtb_false. assumption. }
    assert (UR : updatesRight r s = false).
    { unfold updatesRight. rewrite X. cbn. apply Qgtb_false. assumption. }
    assert (G : Qgtb (peakHoldSeconds s) 0 = true) by (apply Qgtb_true; assumption).
    rewrite UL in HL. rewrite UR in HR. rewrite X, G in Hms.
    unfold CALLBACK_TIMER_PERIOD_MS in Hms.
    destruct (IH s') as (s1 & E1 & K1 & K2 & K3 & K4 & K5).
    + rewrite Hp'. assumption.
    + assumption.
    + rewrite Hms. lra.
    + rewrite HL, HR. assumption.
    + exists s1. cbn [runTicks]. unfold bind. rewrite E.
      split; [exact E1|].
      rewrite K1, K2, K4, HL, HR, Hp'.
      repeat split; try assumption.
      rewrite K3, Hms, Hlen. ring.
Qed.

Lemma Forall_firstn_of {A : Type} (P : A -> Prop) (k : nat) (l : list A) :
  Forall P l -> Forall P (firstn k l).
Proof.
  intro H. rewrite <- (firstn_skipn k l) in H.
  apply Forall_app in H. apply H.
Qed.

Lemma inject_Z_of_nat_le (k n : nat) :
  (k <= n)%nat -> inject_Z (Z.of_nat k) <= inject_Z (Z.of_nat n).
Proof. intro H. rewrite <- Zle_Qle. lia. Qed.

(** The tick on which the hold window restarts takes the current peaks. *)
Lemma tick_expired (fuel : nat) (r : Readings) (s : Plugin) :
  (2 <= fuel)%nat ->
  0 < peakHoldSeconds s ->
  boolv s lufsReset = false ->
  holdMilliseconds s <= fl32 (msSinceLastPeakReset s) ->
  exists s',
    hiResTimerCallback fuel r s = Ok (tt, s')
    /\ lastMaxLeft s' = peakLval r
    /\ lastMaxRight s' = peakRval r
    /\ msSinceLastPeakReset s' == 10
    /\ peakHoldSeconds s' = peakHoldSeconds s
    /\ boolv s' lufsReset = false.
Proof.
  intros Hf Hp Hr Hx.
  destruct (tick_idle fuel r s Hf Hr) as (s' & E & HL & HR & Hms & Hp' & Hr').
  assert (X : holdExpired s = true) by (apply holdExpired_iff; assumption).
  assert (G : Qgtb (peakHoldSeconds s) 0 = true) by (apply Qgtb_true; assumption).
  unfold updatesLeft in HL. unfold updatesRight in HR.
  rewrite X in HL, HR, Hms. rewrite G in Hms. cbn in HL, HR.
  exists s'. repeat split; try assumption.
  rewrite Hms. reflexivity.
Qed.

(** From 5000 ms on a window of 5 s has run out. *)
Lemma five_seconds_over (s : Plugin) :
  peakHoldSeconds s == 5 -> 5000 <= msSinceLastPeakReset s ->
  holdMilliseconds s <= fl32 (msSinceLastPeakReset s).
Proof.
  intros H5 Hx. rewrite (holdMilliseconds_five s H5).
  assert (F : fl32 5000 == 5000) by (vm_compute; reflexivity).
  apply Qle_trans with (fl32 5000); [apply Qeq_ge; exact F|].
  apply fl32_mono. exact Hx.
Qed.

(** C2 (as amended).  On a tick with a positive hold duration and no reset
    request pending, each channel's held maximum is replaced by the
    instantaneous peak whenever that peak exceeds the held value or the
    elapsed time has reached the hold duration in milliseconds, and is kept
    otherwise.  The hold duration in milliseconds is the single-precision
    product of the duration and 1000, and the elapsed time is compared as a
    float: 5 s is 5000 ms exactly, while for the float 0.07 the product is
    70 although 0.07f x 1000 exceeds 70.  The elapsed time, one counter for
    both channels, restarts only when it has reached the hold duration; a
    new higher peak does not restart it, and it then advances by the 10 ms
    period.  So with a hold of 5 s a maximum taken on the tick that restarts
    the window is held, under a decaying sequence, for 500 ticks and
    released to the instantaneous value on the next one. *)
Theorem peak_hold_tracking :
  (forall fuel r s,
     (2 <= fuel)%nat ->
     0 < peakHoldSeconds s ->
     boolv s lufsReset = false ->
     exists s',
       hiResTimerCallback fuel r s = Ok (tt, s')
       /\ (holdMilliseconds s <= fl32 (msSinceLastPeakReset s)
           \/ lastMaxLeft s < peakLval r ->
           lastMaxLeft s' = peakLval r)
       /\ (fl32 (msSinceLastPeakReset s) < holdMilliseconds s ->
           peakLval r <= lastMaxLeft s ->
           lastMaxLeft s' = lastMaxLeft s)
       /\ (holdMilliseconds s <= fl32 (msSinceLastPeakReset s)
           \/ lastMaxRight s < peakRval r ->
           lastMaxRight s' = peakRval r)
       /\ (fl32 (msSinceLastPeakReset s) < holdMilliseconds s ->
           peakRval r <= lastMaxRight s ->
           lastMaxRight s' = lastMaxRight s)
       /\ (holdMilliseconds s <= fl32 (msSinceLastPeakReset s) ->
           msSinceLastPeakReset s' == CALLBACK_TIMER_PERIOD_MS)
       /\ (fl32 (msSinceLastPeakReset s) < holdMilliseconds s ->
           msSinceLastPeakReset s'
           == msSinceLastPeakReset s + CALLBACK_TIMER_PERIOD_MS))
  /\ (forall s, peakHoldSeconds s == 5 -> holdMilliseconds s == 5000)
  /\ (fl32 ((9395241 # 134217728) * 1000) == 70
      /\ 70 < (9395241 # 134217728) * 1000
      /\ fl32 70 == 70)
  /\ (forall fuel s r0 rs rN,
        (2 <= fuel)%nat ->
        peakHoldSeconds s == 5 ->
        boolv s lufsReset = false ->
        5000 <= msSinceLastPeakReset s ->
        List.length rs = 499%nat ->
        Forall (fun r => peakLval r <= peakLval r0
                         /\ peakRval r <= peakRval r0) rs ->
        (forall k,
           (k <= 499)%nat ->
           exists sk,
             runTicks fuel (r0 :: firstn k rs) s = Ok (tt, sk)
             /\ lastMaxLeft sk = peakLval r0
             /\ lastMaxRight sk = peakRval r0)
        /\ exists sN,
             runTicks fuel (r0 :: rs ++ [rN]) s = Ok (tt, sN)
             /\ lastMaxLeft sN = peakLval rN
             /\ lastMaxRight sN = peakRval rN).
Proof.
  split; [|split; [exact holdMilliseconds_five|split]].
  - intros fuel r s Hf Hp Hr.
    destruct (tick_idle fuel r s Hf Hr) as (s' & E & HL & HR & Hms & _).
    exists s'. split; [exact E|].
    assert (G : Qgtb (peakHoldSeconds s) 0 = true) by (apply Qgtb_true; assumption).
    rewrite G in Hms. rewrite HL, HR, Hms.
    pose proof (holdExpired_iff s Hp) as X.
    pose proof (updatesLeft_iff r s) as UL.
    pose proof (updatesRight_iff r s) as UR.
    repeat split.
    + intro H. assert (T : updatesLeft r s = true) by (apply UL; tauto).
      rewrite T. reflexivity.
    + intros H1 H2. destruct (updatesLeft r s); [|reflexivity].
      exfalso. destruct UL as [UL _]. destruct (UL eq_refl) as [K | K].
      * apply X in K. lra.
      * lra.
    + intro H. assert (T : updatesRight r s = true) by (apply UR; tauto).
      rewrite T. reflexivity.
    + intros H1 H2. destruct (updatesRight r s); [|reflexivity].
      exfalso. destruct UR as [UR _]. destruct (UR eq_refl) as [K | K].
      * apply X in K. lra.
      * lra.
    + intro H. apply X in H. rewrite H. ring.
    + intro H. destruct (holdExpired s); [|reflexivity].
      exfalso. destruct X as [X _]. specialize (X eq_refl). lra.
  - repeat split; vm_compute; reflexivity.
  - intros fuel s r0 rs rN Hf H5 Hr Hx Hlen Hd.
    assert (Hp : 0 < peakHoldSeconds s) by lra.
    destruct (tick_expired fuel r0 s Hf Hp Hr) as (sa & E & HL & HR & Hms & Hpa & Hra);
      [apply five_seconds_over; assumption|].
    assert (Hda : Forall (fun r => peakLval r <= lastMaxLeft sa
                                   /\ peakRval r <= lastMaxRight sa) rs)
      by (rewrite HL, HR; assumption).
    split.
    + intros k Hk.
      destruct (window_kept fuel (firstn k rs) Hf sa)
        as (sk & Ek & K1 & K2 & _).
      * rewrite Hpa. assumption.
      * assumption.
      * rewrite Hms, length_firstn, Hlen.
        pose proof (inject_Z_of_nat_le (Nat.min k 499) 499 (Nat.le_min_r k 499)) as B.
        change (inject_Z (Z.of_nat 499)) with 499 in B. lra.
      * apply Forall_firstn_of. assumption.
      * exists sk. cbn [runTicks]. unfold bind. rewrite E.
        split; [exact Ek|]. rewrite K1, K2. split; assumption.
    + destruct (window_kept fuel rs Hf sa)
        as (sb & Eb & K1 & K2 & K3 & K4 & K5).
      * rewrite Hpa. assumption.
      * assumption.
      * rewrite Hms, Hlen.
        change (inject_Z (Z.of_nat 499)) with 499. lra.
      * assumption.
      * rewrite Hlen in K3. change (inject_Z (Z.of_nat 499)) with 499 in K3.
        destruct (tick_expired fuel rN sb Hf) as (sN & EN & NL & NR & _).
        -- rewrite K4, Hpa. assumption.
        -- assumption.
        -- apply five_seconds_over; [rewrite K4, Hpa; assumption|].
           rewrite K3, Hms. lra.
        -- exists sN. cbn [runTicks]. unfold bind at 1. rewrite E.
           rewrite runTicks_app, Eb. cbn [runTicks]. unfold bind. rewrite EN.
           repeat split; assumption.
Qed.

(** A new maximum 100 ms into the window, and a maximum of -1 dB taken as
    the window restarts, followed by 499 ticks at -10 dB and one at
    -12 dB. *)
Lemma peak_hold_tracking_witness :
  (exists s',
     hiResTimerCallback 2 (steady (-23) (-7))
       (Upd.msSinceLastPeakReset' 100 (constructed None (-20))) = Ok (tt, s')
     /\ lastMaxLeft s' = peakLval (steady (-23) (-7)))
  /\ (exists sN,
        runTicks 2
          (steady (-23) (-1)
           :: repeat (steady (-23) (-10)) 499 ++ [steady (-23) (-12)])
          (Upd.msSinceLastPeakReset' 5000 (constructed None (-128)))
        = Ok (tt, sN)
        /\ lastMaxLeft sN = peakLval (steady (-23) (-12))).
Proof.
  destruct peak_hold_tracking as (P1 & _ & _ & P2). split.
  - destruct (P1 2%nat (steady (-23) (-7))
                (Upd.msSinceLastPeakReset' 100 (constructed None (-20))))
      as (s' & E & A & _); [lia | reflexivity | reflexivity |].
    exists s'. split; [exact E|]. apply A. right. vm_compute. reflexivity.
  - destruct (P2 2%nat
                (Upd.msSinceLastPeakReset' 5000 (constructed None (-128)))
                (steady (-23) (-1)) (repeat (steady (-23) (-10)) 499)
                (steady (-23) (-12)))
      as (_ & sN & E & A & _).
    + lia.
    + reflexivity.
    + reflexivity.
    + cbn. lra.
    + apply repeat_length.
    + apply Forall_forall. intros r Hr. apply repeat_spec in Hr. subst r.
      split; vm_compute; discriminate.
    + exists sN. split; [exact E | exact A].
Defined.

(** C2 as stated fails: 4990 ms into a 5 s window a peak of -7 dB exceeds
    the held value and is taken, yet the elapsed time is not restarted and
    reaches 5000 ms; on the next tick, 10 ms later, the held maximum is
    released to the decayed peak of -30 dB. *)
Lemma peak_hold_counterexample :
  exists s1 s2,
    peakHoldSeconds (Upd.msSinceLastPeakReset' 4990 (constructed None (-20))) == 5
    /\ lastMaxLeft (Upd.msSinceLastPeakReset' 4990 (constructed None (-20)))
       < peakLval (steady (-23) (-7))
    /\ hiResTimerCallback 2 (steady (-23) (-7))
         (Upd.msSinceLastPeakReset' 4990 (constructed None (-20)))
       = Ok (tt, s1)
    /\ lastMaxLeft s1 == -10
    /\ msSinceLastPeakReset s1 == 5000
    /\ hiResTimerCallback 2 (steady (-23) (-30)) s1 = Ok (tt, s2)
    /\ lastMaxLeft s2 == -33.
Proof.
  eexists. eexists.
  split; [reflexivity|]. split; [vm_compute; reflexivity|].
  split; [vm_compute; reflexivity|].
  split; [reflexivity|]. split; [reflexivity|].
  split; [vm_compute; reflexivity|].
  reflexivity.
Qed.

(** ** The band solo router *)

Lemma anySolo_false (s : Plugin) (bands : list BoolParam) :
  (forall b, In b bands -> boolv s b = false) -> anySolo s bands = false.
Proof.
  induction bands as [|b bands IH]; intro H; [reflexivity|].
  cbn. rewrite (H b) by (left; reflexivity).
  apply IH. intros b' Hb'. apply H. right. assumption.
Qed.

(** C9.  In a block in which no band-solo flag is set the router returns
    the buffer it was given, sample for sample, and touches no filter. *)
Theorem band_solo_router_passthrough
    (sample : Type) (zero : sample) (add : sample -> sample -> sample)
    (CrossoverFilter : Type)
    (applyFilter : CrossoverFilter -> list sample -> CrossoverFilter * list sample)
    (s : Plugin) (crossoverFilters : list (list CrossoverFilter))
    (buffer : list (list sample)) :
  (forall b, In b bandSolo -> boolv s b = false) ->
  bandSoloRouter sample zero add CrossoverFilter applyFilter
    s crossoverFilters buffer
  = (crossoverFilters, buffer).
Proof.
  intro H. unfold bandSoloRouter, isAnyBandSolo.
  rewrite anySolo_false by assumption. reflexivity.
Qed.

(** A stereo block of integer samples through a processor with no solo. *)
Lemma band_solo_router_passthrough_witness :
  (forall b, In b bandSolo -> boolv (constructed None 0) b = false)
  /\ bandSoloRouter Z 0%Z Z.add unit (fun f block => (f, block))
       (constructed None 0)
       [repeat tt 12; repeat tt 12] [[1; -2; 3]%Z; [4; 5; -6]%Z]
     = ([repeat tt 12; repeat tt 12], [[1; -2; 3]%Z; [4; 5; -6]%Z]).
Proof.
  split; [intros b _; reflexivity|].
  apply (band_solo_router_passthrough Z 0%Z Z.add unit
           (fun f block => (f, block)) (constructed None 0)).
  intros b _. reflexivity.
Defined.

(** With the low band soloed the router does filter: the low band has two
    stages, so a filter that doubles each sample returns four times the
    block. *)
Example band_solo_router_solo_low :
  bandSoloRouter Z 0%Z Z.add unit (fun f block => (f, map (Z.mul 2) block))
    (Upd.boolv' solo1 true (constructed None 0))
    [repeat tt 12; repeat tt 12] [[1; -2; 3]%Z; [4; 5; -6]%Z]
  = ([repeat tt 12; repeat tt 12], [[4; -8; 12]%Z; [16; 20; -24]%Z]).
Proof. reflexivity. Qed.

(** ** Further examples *)

(** The float nearest to 1e-7 as both true peaks, on a fresh processor with
    an open port: the peaks less the ceiling are -3 exactly, the packet
    carries 3 0 for them and both clip flags are 0. *)
Example meter_packet_small_excess :
  match hiResTimerCallback 2 (steady (-23) (14073749 # 140737488355328))
          (constructed (Some []) (-128)) with
  | Ok (_, s') => midiOutput s'
  | _ => None
  end
  = Some [SysExMessage
            [ 0; 33; 105; 1;
              23; 0; 23; 0; 23; 0; 23; 0; 23; 0; 0; 0; 16; 0;
              3; 0; 3; 0; 3; 0; 3; 0; 3; 0;
              0; 0 ]%Z].
Proof. vm_compute. reflexivity. Qed.

(** A hold of 0.07 s (the float 0.07 is a little more than 0.07) runs out
    at 70 ms: the product with 1000 is the float 70.  A hold of 0.1 s runs
    out at 100 ms. *)
Example hold_expiry_in_single_precision :
  holdExpired
    (mkPlugin (fun _ => false) (fun _ => 0) false false (-16)
       (9395241 # 134217728) (-128) (-128) 70 (mkLufs 0 0) None) = true
  /\ holdExpired
       (mkPlugin (fun _ => false) (fun _ => 0) false false (-16)
          (9395241 # 134217728) (-128) (-128) 60 (mkLufs 0 0) None) = false
  /\ holdExpired
       (mkPlugin (fun _ => false) (fun _ => 0) false false (-16)
          (13421773 # 134217728) (-128) (-128) 100 (mkLufs 0 0) None) = true
  /\ holdExpired
       (mkPlugin (fun _ => false) (fun _ => 0) false false (-16)
          (13421773 # 134217728) (-128) (-128) 90 (mkLufs 0 0) None) = false.
Proof. repeat split; vm_compute; reflexivity. Qed.

(** The binary32 number nearest to -23.7 is -12425626 / 2^19; it encodes as
    (23,70) as well. *)
Example telemetry_pair_nearest_float :
  getMeterIntegralFractional (-12425626 # 524288) = (23, 70)%Z.
Proof. vm_compute. reflexivity. Qed.

(** A fractional part that rounds up to 100 is cut back to 99. *)
Example telemetry_pair_fraction_cap :
  getMeterIntegralFractional (-12996 # 1000) = (12, 99)%Z.
Proof. vm_compute. reflexivity. Qed.

(** The button echoed for a mode change is found through the map. *)
Example echo_of_mute_press :
  exists s',
    handleIncomingMidiMessage 2 (isNoteOn BUTTON_MONMUTE 127)
      (constructed (Some []) 0) = Ok (tt, s')
    /\ boolv s' muteMode = true
    /\ midiOutput s' = Some [noteOn 1 BUTTON_MONMUTE 1].
Proof. eexists. split; [vm_compute; reflexivity|]. split; reflexivity. Qed.

(** * Further properties *)

(** ** The byte pair encoding *)

Lemma Qtrunc_opp (v : Q) : Qtrunc (- v) = (- Qtrunc v)%Z.
Proof.
  unfold Qtrunc. destruct v as [n d]. cbn. apply Z.quot_opp_l. discriminate.
Qed.

Lemma frac_opp (v : Q) : EncodingSpec.frac (- v) == - EncodingSpec.frac v.
Proof.
  unfold EncodingSpec.frac. rewrite Qtrunc_opp, inject_Z_opp. ring.
Qed.

(** X1.  The sign of the value is discarded: a value and its negation give
    the same byte pair. *)
Theorem telemetry_pair_sign_discarded (v : Q) :
  getMeterIntegralFractional (- v) = getMeterIntegralFractional v.
Proof.
  rewrite !getMeterIntegralFractional_narrowed.
  unfold EncodingSpec.encode_narrowed.
  rewrite Qtrunc_opp, Z.abs_opp.
  rewrite (narrowed_comp (Qabs (EncodingSpec.frac (- v)) * 100)
             (Qabs (EncodingSpec.frac v) * 100)); [reflexivity|].
  rewrite frac_opp, Qabs_opp. reflexivity.
Qed.

(** X2.  Below 100 in magnitude a byte pair reads back as the magnitude of
    the value to within a hundredth: less than one hundredth below it, and
    above it by no more than half a hundredth plus the 2^-17 hundredths by
    which the single-precision product can exceed the exact one (the
    fraction is capped at 99 and never carried into the integral byte). *)
Theorem telemetry_pair_reads_back (v : Q) :
  Qabs v < 100 ->
  Qabs v - (1 # 100) < pairValue (getMeterIntegralFractional v)
  /\ pairValue (getMeterIntegralFractional v)
     <= Qabs v + (1 # 200) + (1 # 13107200).
Proof.
  intro Hv.
  destruct (fractional_byte_nearest v) as [N1 N2].
  destruct (scaled_fraction_bounds v) as ((X0 & X1) & Y0 & Y1).
  pose proof (narrowed_error (Qabs (EncodingSpec.frac v) * 100)) as Er.
  rewrite (Qabs_pos (Qabs (EncodingSpec.frac v) * 100)) in Er by exact X0.
  specialize (Er ltac:(lra)). apply Qabs_Qle_condition in Er.
  destruct (getMeterIntegralFractional_range v) as [_ Rf].
  assert (Hi : fst (getMeterIntegralFractional v) = Z.abs (Qtrunc v)).
  { rewrite getMeterIntegralFractional_narrowed.
    unfold EncodingSpec.encode_narrowed, EncodingSpec.clamp_0_99. cbn [fst].
    destruct (Qabs_trunc_frac v) as (E & F0 & F1).
    assert (K : inject_Z (Z.abs (Qtrunc v)) < inject_Z 100)
      by (change (inject_Z 100) with 100; lra).
    rewrite <- Zlt_Qlt in K. pose proof (Z.abs_nonneg (Qtrunc v)). lia. }
  unfold pairValue. rewrite Hi.
  destruct (Qabs_trunc_frac v) as (E & F0 & F1).
  set (x := Qabs (EncodingSpec.frac v) * 100) in *.
  set (y := EncodingSpec.narrowed x) in *.
  set (f := snd (getMeterIntegralFractional v)) in *.
  set (t := inject_Z (Z.abs (Qtrunc v))) in *.
  set (q := Qabs (EncodingSpec.frac v)) in *.
  assert (Xq : x == q * 100) by reflexivity.
  unfold Qdiv. change (/ 100) with (1 # 100).
  clearbody x y f t q.
  destruct (Qlt_le_dec y (199 # 2)) as [L | G].
  - destruct (N1 L) as [A B]. split; lra.
  - rewrite (N2 G). change (inject_Z 99) with 99. split; lra.
Qed.

Lemma telemetry_pair_reads_back_witness :
  Qabs (5368709 # 1073741824) < 100
  /\ pairValue (getMeterIntegralFractional (5368709 # 1073741824))
     <= Qabs (5368709 # 1073741824) + (1 # 200) + (1 # 13107200).
Proof.
  split; [reflexivity|].
  apply (telemetry_pair_reads_back (5368709 # 1073741824)). reflexivity.
Defined.

(** X3.  Every byte of a meter packet is a MIDI data byte (0..127), so the
    packet is a well-formed SysEx body whatever the readings are. *)
Theorem meter_packet_bytes_are_data_bytes (r : Readings) (s : Plugin) :
  Forall (fun b => (0 <= b <= 127)%Z) (sysexData r s).
Proof.
  rewrite sysexData_layout.
  cbn [packetValues map flat_map pairBytes app].
  repeat apply Forall_cons; try apply Forall_nil;
    try match goal with
        | |- context [getMeterIntegralFractional ?v] =>
            pose proof (getMeterIntegralFractional_range v)
        end;
    try lia;
    match goal with
    | |- context [if ?c then _ else _] => destruct c; lia
    end.
Qed.

(** ** Button-state messages of a write *)

(** Each mode parameter is bound to exactly the button the callback finds
    for it, and each button to one parameter. *)
Lemma button_table (k : Z) (p : BoolParam) :
  In (k, p) button_param_map <-> buttonOf p = k.
Proof.
  split.
  - intro H. cbn in H.
    repeat (destruct H as [H | H]; [injection H as <- <-; reflexivity|]).
    contradiction.
  - intros <-. destruct p; cbn; tauto.
Qed.

Lemma setValueNotifyingHost_sent (p : BoolParam) (v : bool) (s : Plugin)
    (sent : list MidiMessage) :
  midiOutput s = Some sent ->
  match setValueNotifyingHost 2 p v s with
  | Ok (_, s') => midiOutput s'
  | NullDeref => None
  | OutOfFuel => None
  end = Some (sent ++ echoes p v).
Proof.
  intro H. destruct s as [bv mv cl cr lt ph ll lr ms lp mo]. cbn in H. subst mo.
  destruct p, v; cbv -[app]; rewrite <- ?app_assoc; reflexivity.
Qed.

(** X4.  A completed write of [v] to a mode parameter appends to the port's
    log the button-state message of that parameter, with its own button
    number and velocity 1 for on and 0 for off, as the last message; a
    write of [true] to a member of an exclusive pair puts the "off" message
    of the cleared partner in front of it, and nothing else is sent. *)
Theorem mode_change_echo (fuel : nat) (p : BoolParam) (v : bool)
    (s s' : Plugin) (sent : list MidiMessage) :
  (2 <= fuel)%nat ->
  midiOutput s = Some sent ->
  setValueNotifyingHost fuel p v s = Ok (tt, s') ->
  midiOutput s' = Some (sent ++ echoes p v)
  /\ In (buttonOf p, p) button_param_map
  /\ (forall q, partnerOf p = Some q -> In (p, q) exclusivePairs).
Proof.
  intros Hf Ho E. rewrite setValueNotifyingHost_fuel in E by assumption.
  pose proof (setValueNotifyingHost_sent p v s sent Ho) as K.
  rewrite E in K. split; [exact K|]. split.
  - apply button_table. reflexivity.
  - intros q Hq. destruct p; cbn in Hq; try discriminate;
      injection Hq as <-; cbn; tauto.
Qed.

Lemma mode_change_echo_witness :
  exists s',
    setValueNotifyingHost 2 dimMode true (constructed (Some []) 0) = Ok (tt, s')
    /\ midiOutput s'
       = Some [noteOn 1 BUTTON_REF 0; noteOn 1 BUTTON_DIM 1].
Proof.
  destruct (setValueNotifyingHost_open dimMode true (constructed (Some []) 0))
    as [s' E]; [discriminate|].
  exists s'. split; [exact E|].
  destruct (mode_change_echo 2 dimMode true (constructed (Some []) 0) s' [])
    as (K & _); [lia | reflexivity | exact E |].
  exact K.
Defined.

(** ** Members after a tick *)

Lemma handleLufsReset_members (fuel : nat) (s s1 : Plugin) :
  (2 <= fuel)%nat ->
  handleLufsReset fuel s = Ok (tt, s1) ->
  (forall q, boolv s1 q
             = if BoolParam_eq_dec q lufsReset then false else boolv s q)
  /\ lufsProcessor s1
     = (if boolv s lufsReset
        then mkLufs 0 (S (S (resets (lufsProcessor s))))
        else lufsProcessor s)
  /\ midiOutput s1
     = (if boolv s lufsReset
        then option_map (fun sent => sent ++ [noteOn 1 BUTTON_RESET_METER 0])
               (midiOutput s)
        else midiOutput s).
Proof.
  intros Hf H. unfold handleLufsReset, bind, gets, when in H.
  destruct (boolv s lufsReset) eqn:B.
  - rewrite setValueNotifyingHost_fuel in H by assumption.
    destruct s as [bv mv cl cr lt ph ll lr ms lp [sent|]];
      [|rewrite setValueNotifyingHost_null in H by reflexivity; discriminate].
    cbv -[BoolParam_eq_dec app] in H. injection H as <-.
    cbn in B. split; [|split; reflexivity].
    intro q. cbn. destruct (BoolParam_eq_dec q lufsReset) as [-> | N];
      reflexivity.
  - injection H as <-. split; [|split; reflexivity].
    intro q. destruct (BoolParam_eq_dec q lufsReset) as [-> | N];
      [assumption | reflexivity].
Qed.

Lemma writeLufsMeters_lufs (r : Readings) (s s0 : Plugin) :
  writeLufsMeters r s = Ok (tt, s0) ->
  lufsProcessor s0 = lufsProcessor s.
Proof. intro H. injection H as <-. reflexivity. Qed.

(** The mode parameters, the loudness unit and the port's log after a
    completed tick. *)
Lemma tick_members (fuel : nat) (r : Readings) (s s' : Plugin) :
  (2 <= fuel)%nat ->
  hiResTimerCallback fuel r s = Ok (tt, s') ->
  (forall q, boolv s' q
             = if BoolParam_eq_dec q lufsReset then false else boolv s q)
  /\ lufsProcessor s'
     = (if boolv s lufsReset
        then mkLufs 0 (S (S (resets (lufsProcessor s))))
        else lufsProcessor s)
  /\ midiOutput s'
     = match midiOutput s with
       | Some sent =>
           Some (sent
                 ++ (if boolv s lufsReset
                     then [noteOn 1 BUTTON_RESET_METER 0] else [])
                 ++ [SysExMessage (sysexData r s')])
       | None => None
       end.
Proof.
  intros Hf H. unfold hiResTimerCallback in H.
  destruct (writeLufsMeters_effect r s)
    as (s0 & E0 & _ & _ & _ & _ & _ & _ & _ & F1 & _ & _ & _ & _
        & _ & _ & _ & F9).
  pose proof (writeLufsMeters_lufs r s s0 E0) as FL.
  unfold bind at 1 in H. rewrite E0 in H. unfold bind at 1 in H.
  destruct (handleLufsReset fuel s0) as [[[] s1]| |] eqn:E1; try discriminate.
  apply handleLufsReset_members in E1; [|assumption].
  destruct E1 as (B1 & L1 & M1).
  destruct (meter_tail_effect r s1)
    as (s2 & E2 & _ & _ & _ & _ & _ & _ & _ & _ & _ & _ & _
        & _ & _ & _ & T15 & T16 & _ & _ & T19).
  rewrite E2 in H. injection H as <-.
  rewrite F1 in *. rewrite FL in L1. rewrite F9 in M1.
  split; [|split].
  - intro q. rewrite T15. apply B1.
  - rewrite T16. exact L1.
  - rewrite T19, M1.
    destruct (boolv s lufsReset); destruct (midiOutput s) as [sent|]; cbn;
      rewrite <- ?app_assoc; reflexivity.
Qed.

(** ** More on the timer callback *)

(** X5.  With a hold duration of zero nothing is held: after every
    completed tick the held peaks are the instantaneous peaks, the clip
    parameters are the clip test on them (they say whether the true peak is
    more than 2^-23 dB above 0 dB), the held-peak meters equal the
    true-peak meters, and no time has elapsed. *)
Theorem hold_zero_shows_instantaneous (fuel : nat) (r : Readings) (s s' : Plugin) :
  (2 <= fuel)%nat ->
  peakHoldSeconds s == 0 ->
  hiResTimerCallback fuel r s = Ok (tt, s') ->
  lastMaxLeft s' = peakLval r
  /\ lastMaxRight s' = peakRval r
  /\ clipMeterLeft s' = aboveClipThreshold (peakLval r)
  /\ clipMeterRight s' = aboveClipThreshold (peakRval r)
  /\ clipMeterLeft s' = Qgtb (truePeakL r) clipMargin
  /\ clipMeterRight s' = Qgtb (truePeakR r) clipMargin
  /\ meterv s' peakMeterMaxLeft = meterv s' peakMeterLeft
  /\ meterv s' peakMeterMaxRight = meterv s' peakMeterRight
  /\ msSinceLastPeakReset s' == 0.
Proof.
  intros Hf Hz E. apply (tick_effect fuel r s s' Hf) in E.
  destruct E as ((HL & CL & ML) & (HR & CR & MR) & Hms
                 & (_ & _ & _ & _ & _ & P1 & P2) & _).
  pose proof (holdExpired_view_zero s Hz) as X.
  assert (UL : updatesLeft r (holdView s) = true)
    by (apply updatesLeft_view; left; exact X).
  assert (UR : updatesRight r (holdView s) = true)
    by (apply updatesRight_view; left; exact X).
  assert (G : Qgtb (peakHoldSeconds s) 0 = false)
    by (apply Qgtb_false; rewrite Hz; apply Qle_refl).
  rewrite UL in HL, CL, ML. rewrite UR in HR, CR, MR.
  rewrite G, X in Hms.
  rewrite HL, HR, CL, CR, ML, MR, P1, P2, Hms.
  rewrite clip_test_left, clip_test_right.
  repeat split; reflexivity.
Qed.

Lemma hold_zero_shows_instantaneous_witness :
  exists s',
    hiResTimerCallback 2 (steady (-23) (-6))
      (mkPlugin (fun _ => false) (fun _ => 0) false false (-16) 0 5 5 70
         (mkLufs 0 0) None) = Ok (tt, s')
    /\ lastMaxLeft s' = peakLval (steady (-23) (-6))
    /\ msSinceLastPeakReset s' == 0.
Proof.
  destruct (tick_total 2 (steady (-23) (-6))
              (mkPlugin (fun _ => false) (fun _ => 0) false false (-16) 0 5 5 70
                 (mkLufs 0 0) None)) as [s' E]; [lia | left; reflexivity |].
  exists s'. split; [exact E|].
  destruct (hold_zero_shows_instantaneous 2 (steady (-23) (-6))
              (mkPlugin (fun _ => false) (fun _ => 0) false false (-16) 0 5 5 70
                 (mkLufs 0 0) None) s')
    as (A & _ & _ & _ & _ & _ & _ & _ & B); [lia | reflexivity | exact E |].
  split; [exact A | exact B].
Defined.

(** X6.  After every completed tick the held peak of each channel is at
    least the instantaneous peak of that tick. *)
Theorem held_peak_not_below_instantaneous (fuel : nat) (r : Readings) (s s' : Plugin) :
  (2 <= fuel)%nat ->
  hiResTimerCallback fuel r s = Ok (tt, s') ->
  peakLval r <= lastMaxLeft s' /\ peakRval r <= lastMaxRight s'.
Proof.
  intros Hf E. apply (tick_effect fuel r s s' Hf) in E.
  destruct E as ((HL & _) & (HR & _) & _).
  rewrite HL, HR. split.
  - destruct (updatesLeft r (holdView s)) eqn:G; [apply Qle_refl|].
    apply Qnot_lt_le. intro L.
    assert (T : updatesLeft r (holdView s) = true)
      by (apply updatesLeft_view; right; assumption).
    congruence.
  - destruct (updatesRight r (holdView s)) eqn:G; [apply Qle_refl|].
    apply Qnot_lt_le. intro L.
    assert (T : updatesRight r (holdView s) = true)
      by (apply updatesRight_view; right; assumption).
    congruence.
Qed.

Lemma held_peak_not_below_instantaneous_witness :
  exists s',
    hiResTimerCallback 2 (steady (-23) (-6)) (constructed None 0) = Ok (tt, s')
    /\ peakLval (steady (-23) (-6)) <= lastMaxLeft s'.
Proof.
  destruct (tick_total 2 (steady (-23) (-6)) (constructed None 0))
    as [s' E]; [lia | left; reflexivity |].
  exists s'. split; [exact E|].
  apply (held_peak_not_below_instantaneous 2 (steady (-23) (-6))
           (constructed None 0) s'); [lia | exact E].
Defined.

(** X7.  With a hold duration that is not negative, the elapsed time after
    a completed tick is below the hold duration plus one timer period, and
    it is not negative if it was not negative before. *)
Theorem elapsed_time_bounded (fuel : nat) (r : Readings) (s s' : Plugin) :
  (2 <= fuel)%nat ->
  0 <= peakHoldSeconds s ->
  hiResTimerCallback fuel r s = Ok (tt, s') ->
  msSinceLastPeakReset s'
  < peakHoldSeconds s * 1000 + CALLBACK_TIMER_PERIOD_MS
  /\ (0 <= msSinceLastPeakReset s -> 0 <= msSinceLastPeakReset s')
  /\ peakHoldSeconds s' = peakHoldSeconds s.
Proof.
  intros Hf Hp E. apply (tick_effect fuel r s s' Hf) in E.
  destruct E as (_ & _ & Hms & _ & _ & Hh & _).
  split; [|split; [|exact Hh]].
  - rewrite Hms. unfold CALLBACK_TIMER_PERIOD_MS.
    destruct (holdExpired (holdView s)) eqn:X.
    + destruct (Qgtb (peakHoldSeconds s) 0) eqn:G;
        [apply Qgtb_true in G|]; lra.
    + unfold holdExpired in X. apply orb_false_iff in X. destruct X as [_ X].
      apply Qgeb_false in X.
      change (peakHoldSeconds (holdView s)) with (peakHoldSeconds s) in X.
      assert (B : msSinceLastPeakReset (holdView s) < peakHoldSeconds s * 1000).
      { apply Qnot_le_lt. intro C. apply fl32_mono in C. lra. }
      destruct (Qgtb (peakHoldSeconds s) 0) eqn:G; lra.
  - intro H0. rewrite Hms. unfold CALLBACK_TIMER_PERIOD_MS.
    assert (V : 0 <= msSinceLastPeakReset (holdView s)).
    { unfold holdView. cbn. destruct (boolv s lufsReset); [apply Qle_refl | assumption]. }
    destruct (holdExpired (holdView s)), (Qgtb (peakHoldSeconds s) 0); lra.
Qed.

Lemma elapsed_time_bounded_witness :
  exists s',
    hiResTimerCallback 2 (steady (-23) (-6))
      (Upd.msSinceLastPeakReset' 4990 (constructed None 0)) = Ok (tt, s')
    /\ msSinceLastPeakReset s' < 5010.
Proof.
  destruct (tick_total 2 (steady (-23) (-6))
              (Upd.msSinceLastPeakReset' 4990 (constructed None 0)))
    as [s' E]; [lia | left; reflexivity |].
  exists s'. split; [exact E|].
  destruct (elapsed_time_bounded 2 (steady (-23) (-6))
              (Upd.msSinceLastPeakReset' 4990 (constructed None 0)) s')
    as (A & _); [lia | discriminate | exact E |].
  exact A.
Defined.

(** X8.  A tick that finds the reset trigger set, with the output port
    open, completes: the trigger reads false again and every other mode
    parameter is unchanged, the loudness unit has been reset, the elapsed
    time has restarted, and the port has received the "off" message of the
    reset button followed by the meter packet. *)
Theorem reset_trigger_on_tick (fuel : nat) (r : Readings) (s : Plugin)
    (sent : list MidiMessage) :
  (2 <= fuel)%nat ->
  boolv s lufsReset = true ->
  midiOutput s = Some sent ->
  exists s',
    hiResTimerCallback fuel r s = Ok (tt, s')
    /\ boolv s' lufsReset = false
    /\ (forall q, q <> lufsReset -> boolv s' q = boolv s q)
    /\ accumulated (lufsProcessor s') = 0%nat
    /\ (resets (lufsProcessor s) < resets (lufsProcessor s'))%nat
    /\ msSinceLastPeakReset s'
       == (if Qgtb (peakHoldSeconds s) 0 then CALLBACK_TIMER_PERIOD_MS else 0)
    /\ midiOutput s'
       = Some (sent ++ [noteOn 1 BUTTON_RESET_METER 0;
                        SysExMessage (sysexData r s')]).
Proof.
  intros Hf Hr Ho.
  destruct (tick_total fuel r s Hf) as [s' E];
    [right; rewrite Ho; discriminate|].
  exists s'. split; [exact E|].
  pose proof (tick_members fuel r s s' Hf E) as (B & L & M).
  apply (tick_effect fuel r s s' Hf) in E.
  destruct E as (_ & _ & Hms & _).
  rewrite Hr in L. rewrite Hr, Ho in M.
  split; [|split; [|split; [|split; [|split]]]].
  - rewrite B. reflexivity.
  - intros q N. rewrite B.
    destruct (BoolParam_eq_dec q lufsReset); [contradiction | reflexivity].
  - rewrite L. reflexivity.
  - rewrite L. cbn. lia.
  - rewrite Hms. unfold holdView. rewrite Hr.
    change (msSinceLastPeakReset (Upd.msSinceLastPeakReset' 0 s)) with 0.
    destruct (holdExpired (Upd.msSinceLastPeakReset' 0 s));
      destruct (Qgtb (peakHoldSeconds s) 0);
      unfold CALLBACK_TIMER_PERIOD_MS; reflexivity.
  - exact M.
Qed.

Lemma reset_trigger_on_tick_witness :
  exists s',
    hiResTimerCallback 2 (steady (-23) (-6))
      (Upd.boolv' lufsReset true (constructed (Some []) 0)) = Ok (tt, s')
    /\ boolv s' lufsReset = false
    /\ accumulated (lufsProcessor s') = 0%nat.
Proof.
  destruct (reset_trigger_on_tick 2 (steady (-23) (-6))
              (Upd.boolv' lufsReset true (constructed (Some []) 0)) [])
    as (s' & E & A & _ & B & _); [lia | reflexivity | reflexivity |].
  exists s'. split; [exact E|]. split; [exact A | exact B].
Defined.



(** ** Incoming MIDI *)

Lemma find_button_of (k : Z) (p : BoolParam) :
  In (k, p) button_param_map ->
  find (fun kv => (fst kv =? k)%Z) button_param_map = Some (k, p).
Proof.
  intro H. cbn in H.
  repeat (destruct H as [H | H]; [injection H as <- <-; reflexivity|]).
  contradiction.
Qed.

Lemma find_button_none (k : Z) :
  (forall p, ~ In (k, p) button_param_map) ->
  find (fun kv => (fst kv =? k)%Z) button_param_map = None.
Proof.
  intro H.
  destruct (find (fun kv => (fst kv =? k)%Z) button_param_map) as [[k' p]|] eqn:E;
    [|reflexivity].
  apply find_some in E. destruct E as [E1 E2]. cbn [fst] in E2.
  apply Z.eqb_eq in E2. subst k'. exfalso. apply (H p E1).
Qed.

(** X11.  Incoming messages that are not a deliberate press of a bound
    button or a sync request are ignored, also with a closed output port:
    a note-on whose velocity is not 127, a note-on for a number no
    parameter is bound to, a SysEx whose first data byte is not the sync
    command (or that has no data), and any other message leave the
    processor as it was. *)
Theorem incoming_midi_ignored (fuel : nat) (s : Plugin) :
  (forall note velocity,
     velocity <> 127%Z ->
     handleIncomingMidiMessage fuel (isNoteOn note velocity) s = Ok (tt, s))
  /\ (forall note,
        (forall p, ~ In (note, p) button_param_map) ->
        handleIncomingMidiMessage fuel (isNoteOn note 127) s = Ok (tt, s))
  /\ (forall d0 data,
        d0 <> SYSEX_COMMAND_SYNC_BUTTONS ->
        handleIncomingMidiMessage fuel (isSysEx (d0 :: data)) s = Ok (tt, s))
  /\ handleIncomingMidiMessage fuel (isSysEx []) s = Ok (tt, s)
  /\ handleIncomingMidiMessage fuel otherMidi s = Ok (tt, s).
Proof.
  repeat split.
  - intros note velocity H. cbn.
    destruct (Z.eqb_spec velocity 127); [contradiction | reflexivity].
  - intros note H. cbn [handleIncomingMidiMessage].
    rewrite find_button_none by assumption. reflexivity.
  - intros d0 data H. cbn [handleIncomingMidiMessage].
    destruct (Z.eqb_spec d0 SYSEX_COMMAND_SYNC_BUTTONS);
      [contradiction | reflexivity].
Qed.

Lemma incoming_midi_ignored_witness :
  handleIncomingMidiMessage 2 (isNoteOn BUTTON_MONMUTE 64) (constructed None 0)
  = Ok (tt, constructed None 0)
  /\ handleIncomingMidiMessage 2 (isNoteOn 99 127) (constructed None 0)
     = Ok (tt, constructed None 0).
Proof.
  destruct (incoming_midi_ignored 2 (constructed None 0)) as (A & B & _).
  split; [apply A; discriminate|].
  apply B. intros p H. cbn in H.
  repeat (destruct H as [H | H]; [discriminate|]). contradiction.
Defined.

Lemma sync_dump_sent (l : list (Z * BoolParam))
    (bv : BoolParam -> bool) (mv : MeterParam -> Q) (cl cr : bool)
    (lt ph ll lr ms : Q) (lp : LufsProcessor) (sent : list MidiMessage) :
  forEach l
    (fun p =>
       v <- gets (fun s => boolv s (snd p)) ;;
       sendMessageNow (noteOn 1 (fst p) (if v then 1 else 0)))
    (mkPlugin bv mv cl cr lt ph ll lr ms lp (Some sent))
  = Ok (tt, mkPlugin bv mv cl cr lt ph ll lr ms lp
              (Some (sent
                     ++ map (fun p => noteOn 1 (fst p)
                                        (if bv (snd p) then 1 else 0)) l))).
Proof.
  revert sent. induction l as [|p l IH]; intro sent.
  - cbn. rewrite app_nil_r. reflexivity.
  - cbn [forEach map]. unfold bind at 1.
    change ((v <- gets (fun s => boolv s (snd p)) ;;
             sendMessageNow (noteOn 1 (fst p) (if v then 1 else 0)))
              (mkPlugin bv mv cl cr lt ph ll lr ms lp (Some sent)))
      with (Ok (tt, mkPlugin bv mv cl cr lt ph ll lr ms lp
                      (Some (sent ++ [noteOn 1 (fst p)
                                        (if bv (snd p) then 1 else 0)])))).
    cbv beta iota. rewrite IH. rewrite <- app_assoc. reflexivity.
Qed.

Lemma handle_sync_run (fuel : nat) (data : list Z) (s : Plugin)
    (sent : list MidiMessage) :
  midiOutput s = Some sent ->
  handleIncomingMidiMessage fuel (isSysEx (SYSEX_COMMAND_SYNC_BUTTONS :: data)) s
  = Ok (tt,
        Upd.midiOutput'
          (Some (sent
                 ++ map (fun kp => noteOn 1 (fst kp)
                                     (if boolv s (snd kp) then 1 else 0))
                      button_param_map)) s).
Proof.
  intro H.
  destruct s as [bv mv cl cr lt ph ll lr ms lp mo]. cbn in H. subst mo.
  cbn [handleIncomingMidiMessage]. unfold when.
  change (SYSEX_COMMAND_SYNC_BUTTONS =? SYSEX_COMMAND_SYNC_BUTTONS)%Z with true.
  cbv iota. rewrite sync_dump_sent. reflexivity.
Qed.

(** X12.  A sync request (a SysEx whose first data byte is 2) received with
    the output port open sends one button-state message per bound button,
    by increasing button number, each with the current value of its
    parameter, and changes nothing but the port's log. *)
Theorem sync_request_dump (fuel : nat) (data : list Z) (s : Plugin)
    (sent : list MidiMessage) :
  midiOutput s = Some sent ->
  handleIncomingMidiMessage fuel (isSysEx (SYSEX_COMMAND_SYNC_BUTTONS :: data)) s
  = Ok (tt,
        Upd.midiOutput'
          (Some (sent
                 ++ map (fun kp => noteOn 1 (fst kp)
                                     (if boolv s (snd kp) then 1 else 0))
                      button_param_map)) s)
  /\ map fst button_param_map
     = [0; 1; 2; 3; 4; 5; 6; 18; 19; 20; 35; 36; 37; 45; 46; 47]%Z.
Proof.
  intro H. split; [apply handle_sync_run; assumption | reflexivity].
Qed.

Lemma sync_request_dump_witness :
  exists s' msgs,
    handleIncomingMidiMessage 2 (isSysEx [2%Z])
      (Upd.boolv' muteMode true (constructed (Some []) 0)) = Ok (tt, s')
    /\ midiOutput s' = Some msgs
    /\ List.length msgs = 16%nat
    /\ nth 7 msgs (noteOn 0 0 0) = noteOn 1 BUTTON_MONMUTE 1.
Proof.
  destruct (sync_request_dump 2 []
              (Upd.boolv' muteMode true (constructed (Some []) 0)) [])
    as [E _]; [reflexivity|].
  eexists. eexists. split; [exact E|].
  split; [reflexivity|]. split; reflexivity.
Defined.

(** X13.  A press (note-on with velocity 127) of a bound button, received
    with the output port open, completes, inverts the parameter bound to
    that button, and sends the button-state messages of that write, the
    last of which carries the pressed button's number and the new value. *)
Theorem button_press_toggles (fuel : nat) (k : Z) (p : BoolParam) (s : Plugin)
    (sent : list MidiMessage) :
  (2 <= fuel)%nat ->
  In (k, p) button_param_map ->
  midiOutput s = Some sent ->
  exists s',
    handleIncomingMidiMessage fuel (isNoteOn k 127) s = Ok (tt, s')
    /\ boolv s' p = negb (boolv s p)
    /\ midiOutput s' = Some (sent ++ echoes p (negb (boolv s p)))
    /\ last (echoes p (negb (boolv s p))) (noteOn 0 0 0)
       = noteOn 1 k (if negb (boolv s p) then 1 else 0).
Proof.
  intros Hf Hin Ho.
  cbn [handleIncomingMidiMessage]. unfold when. cbn [Z.eqb Pos.eqb].
  rewrite (find_button_of k p Hin). cbn [snd].
  unfold bind at 1. cbn [gets].
  rewrite setValueNotifyingHost_fuel by assumption.
  destruct (setValueNotifyingHost_open p (negb (boolv s p)) s) as [s' E];
    [rewrite Ho; discriminate|].
  exists s'. split; [exact E|].
  pose proof (setValueNotifyingHost_sent p (negb (boolv s p)) s sent Ho) as K.
  rewrite E in K.
  apply setValueNotifyingHost_effect in E. destruct E as (B & _).
  split; [|split; [exact K|]].
  - rewrite B. destruct (BoolParam_eq_dec p p); [reflexivity | contradiction].
  - apply button_table in Hin. subst k.
    unfold echoes. rewrite last_last. reflexivity.
Qed.

Lemma button_press_toggles_witness :
  exists s',
    handleIncomingMidiMessage 2 (isNoteOn BUTTON_MONO 127)
      (Upd.boolv' sideSolo true (constructed (Some []) 0)) = Ok (tt, s')
    /\ boolv s' midSolo = true
    /\ midiOutput s' = Some [noteOn 1 BUTTON_SIDE 0; noteOn 1 BUTTON_MONO 1].
Proof.
  destruct (button_press_toggles 2 BUTTON_MONO midSolo
              (Upd.boolv' sideSolo true (constructed (Some []) 0)) [])
    as (s' & E & A & B & _);
    [lia | right; left; reflexivity | reflexivity |].
  exists s'. split; [exact E|]. split; [exact A | exact B].
Defined.

(** ** The exclusive pairs as an invariant *)

Lemma exclusive_after_write (p : BoolParam) (v : bool) (s s' : Plugin) :
  exclusive s ->
  setValueNotifyingHost 2 p v s = Ok (tt, s') ->
  exclusive s'.
Proof.
  intros [X1 X2] E. apply setValueNotifyingHost_effect in E.
  destruct E as (B & _). unfold exclusive. rewrite !B.
  destruct p, v; cbn; rewrite ?X1, ?X2, ?andb_false_r; split; reflexivity.
Qed.

(** X14.  A freshly constructed processor has neither mid and side solo nor
    dim and reference on together, and every completed operation keeps it
    so: a write to any mode parameter, any incoming MIDI message, any timer
    tick. *)
Theorem exclusive_pairs_invariant (fuel : nat) (s : Plugin) :
  (2 <= fuel)%nat ->
  exclusive s ->
  (forall p v s',
     setValueNotifyingHost fuel p v s = Ok (tt, s') -> exclusive s')
  /\ (forall m s',
        handleIncomingMidiMessage fuel m s = Ok (tt, s') -> exclusive s')
  /\ (forall r s',
        hiResTimerCallback fuel r s = Ok (tt, s') -> exclusive s')
  /\ (forall out held, exclusive (constructed out held)).
Proof.
  intros Hf X. split; [|split; [|split]].
  - intros p v s' E. rewrite setValueNotifyingHost_fuel in E by assumption.
    apply (exclusive_after_write p v s s' X E).
  - intros m s' E. destruct m as [data | note velocity |].
    + destruct data as [|d0 data]; [injection E as <-; assumption|].
      destruct (Z.eq_dec d0 SYSEX_COMMAND_SYNC_BUTTONS) as [-> | N].
      * destruct (midiOutput s) as [sent|] eqn:Ho.
        -- rewrite (handle_sync_run fuel data s sent Ho) in E.
           injection E as <-. exact X.
        -- exfalso. destruct s as [bv mv cl cr lt ph ll lr ms lp mo].
           cbn in Ho. subst mo. discriminate E.
      * cbn [handleIncomingMidiMessage] in E. unfold when in E.
        destruct (Z.eqb_spec d0 SYSEX_COMMAND_SYNC_BUTTONS);
          [contradiction|]. injection E as <-. exact X.
    + cbn [handleIncomingMidiMessage] in E. unfold when in E.
      destruct (velocity =? 127)%Z; [|injection E as <-; exact X].
      destruct (find (fun kv => (fst kv =? note)%Z) button_param_map)
        as [kv|]; [|injection E as <-; exact X].
      unfold bind at 1 in E. cbn [gets] in E.
      rewrite setValueNotifyingHost_fuel in E by assumption.
      apply (exclusive_after_write _ _ s s' X E).
    + injection E as <-. exact X.
  - intros r s' E. pose proof (tick_members fuel r s s' Hf E) as (B & _).
    destruct X as [X1 X2]. unfold exclusive. rewrite !B. cbn. split; assumption.
  - intros out held. split; reflexivity.
Qed.

Lemma exclusive_pairs_invariant_witness :
  exclusive (constructed (Some []) 0)
  /\ exists s',
       setValueNotifyingHost 2 sideSolo true (constructed (Some []) 0)
       = Ok (tt, s')
       /\ exclusive s'.
Proof.
  split; [split; reflexivity|].
  destruct (setValueNotifyingHost_open sideSolo true (constructed (Some []) 0))
    as [s' E]; [discriminate|].
  exists s'. split; [exact E|].
  destruct (exclusive_pairs_invariant 2 (constructed (Some []) 0))
    as (K & _); [lia | split; reflexivity |].
  apply (K _ _ s' E).
Defined.

(** ** The crossover filter topology *)

Section TopologyFacts.

Variable CrossoverFilter : Type.
Variable makeCrossover : CrossoverFilter -> Q -> Q -> bool -> bool -> CrossoverFilter.
Variable newCrossoverFilter : CrossoverFilter.

Lemma updateRow_run (c0 c1 c2 c3 c4 c5 c6 c7 c8 c9 c10 c11 : CrossoverFilter)
    (extra : list CrossoverFilter) (f0 f1 f2 : Q) (more : list Q) (sr : Q) :
  updateRow CrossoverFilter makeCrossover (f0 :: f1 :: f2 :: more) sr
    ([c0; c1; c2; c3; c4; c5; c6; c7; c8; c9; c10; c11] ++ extra)
  = Some ([ makeCrossover c0 f0 sr true false;
            makeCrossover c1 f0 sr true false;
            makeCrossover c2 f0 sr true true;
            makeCrossover c3 f1 sr true false;
            makeCrossover c4 f0 sr true true;
            makeCrossover c5 f1 sr true false;
            makeCrossover c6 f1 sr true true;
            makeCrossover c7 f2 sr true false;
            makeCrossover c8 f1 sr true true;
            makeCrossover c9 f2 sr true false;
            makeCrossover c10 f2 sr true true;
            makeCrossover c11 f2 sr true true ] ++ extra).
Proof. reflexivity. Qed.

Lemma updateRow_some_iff (crossoverFreq : list Q) (sr : Q)
    (row : list CrossoverFilter) :
  updateRow CrossoverFilter makeCrossover crossoverFreq sr row <> None
  <-> (12 <= List.length row)%nat /\ (3 <= List.length crossoverFreq)%nat.
Proof.
  destruct crossoverFreq as [|f0 [|f1 [|f2 more]]];
    do 12 (destruct row as [|? row];
           [cbn; split; [intro H; contradiction H; reflexivity
                        | intros [A B]; cbn in A, B; lia]|]);
    try (cbn; split; [intro H; contradiction H; reflexivity
                     | intros [A B]; cbn in A, B; lia]).
  split; [intros _; cbn; split; lia | intros _; discriminate].
Qed.


Lemma updateRow_length (crossoverFreq : list Q) (sr : Q)
    (row row' : list CrossoverFilter) :
  updateRow CrossoverFilter makeCrossover crossoverFreq sr row = Some row' ->
  List.length row' = List.length row.
Proof.
  intro H.
  assert (N : updateRow CrossoverFilter makeCrossover crossoverFreq sr row <> None)
    by (rewrite H; discriminate).
  apply updateRow_some_iff in N. destruct N as [Nr Nf].
  destruct crossoverFreq as [|f0 [|f1 [|f2 more]]]; cbn in Nf; try lia.
  do 12 (destruct row as [|? row]; [cbn in Nr; lia|]).
  change (?a :: ?b :: ?c :: ?d :: ?e :: ?f :: ?g :: ?h :: ?i :: ?j :: ?k :: ?l :: row)
    with ([a; b; c; d; e; f; g; h; i; j; k; l] ++ row) in H.
  rewrite updateRow_run in H. injection H as <-. reflexivity.
Qed.

Lemma updateFilters_some_iff (crossoverFreq : list Q) (sr : Q)
    (rows : list (list CrossoverFilter)) :
  (3 <= List.length crossoverFreq)%nat ->
  (updateFilters CrossoverFilter makeCrossover crossoverFreq sr rows <> None
   <-> Forall (fun row => (12 <= List.length row)%nat) rows).
Proof.
  intro Hf. induction rows as [|row rows IH].
  - cbn. split; [constructor | discriminate].
  - cbn [updateFilters].
    pose proof (updateRow_some_iff crossoverFreq sr row) as R.
    destruct (updateRow CrossoverFilter makeCrossover crossoverFreq sr row)
      as [row'|].
    + destruct (updateFilters CrossoverFilter makeCrossover crossoverFreq sr rows)
        as [rows'|].
      * split; [|discriminate]. intros _. constructor.
        -- apply R. discriminate.
        -- apply IH. discriminate.
      * split; [intro H; contradiction H; reflexivity|].
        intro H. inversion H; subst. exfalso.
        apply (proj2 IH); [assumption | reflexivity].
    + split; [intro H; contradiction H; reflexivity|].
      intro H. inversion H; subst. exfalso.
      apply (proj2 R); [split; assumption | reflexivity].
Qed.

Lemma updateFilters_lengths (crossoverFreq : list Q) (sr : Q)
    (rows rows' : list (list CrossoverFilter)) :
  updateFilters CrossoverFilter makeCrossover crossoverFreq sr rows = Some rows' ->
  map (@List.length CrossoverFilter) rows' = map (@List.length CrossoverFilter) rows.
Proof.
  revert rows'. induction rows as [|row rows IH]; intros rows' H.
  - injection H as <-. reflexivity.
  - cbn [updateFilters] in H.
    destruct (updateRow CrossoverFilter makeCrossover crossoverFreq sr row)
      as [row'|] eqn:E; [|discriminate].
    destruct (updateFilters CrossoverFilter makeCrossover crossoverFreq sr rows)
      as [rows1|]; [|discriminate].
    injection H as <-. cbn [map]. f_equal.
    + apply (updateRow_length _ _ _ _ E).
    + apply IH. reflexivity.
Qed.

End TopologyFacts.

(** X15.  [updateFilters] gives the first twelve filters of a channel's row
    the crossover roles the router relies on and touches no other filter:
    two low-passes at the first frequency for the lowest band; for each
    inner band a high-pass at its lower and a low-pass at its upper
    frequency, twice over; two high-passes at the last frequency for the
    highest band. *)
Theorem update_filters_topology
    (CrossoverFilter : Type)
    (makeCrossover : CrossoverFilter -> Q -> Q -> bool -> bool -> CrossoverFilter)
    (c0 c1 c2 c3 c4 c5 c6 c7 c8 c9 c10 c11 : CrossoverFilter)
    (extra : list CrossoverFilter) (f0 f1 f2 : Q) (more : list Q) (sr : Q) :
  updateFilters CrossoverFilter makeCrossover (f0 :: f1 :: f2 :: more) sr
    [[c0; c1; c2; c3; c4; c5; c6; c7; c8; c9; c10; c11] ++ extra]
  = Some [[ makeCrossover c0 f0 sr true false;
            makeCrossover c1 f0 sr true false;
            makeCrossover c2 f0 sr true true;
            makeCrossover c3 f1 sr true false;
            makeCrossover c4 f0 sr true true;
            makeCrossover c5 f1 sr true false;
            makeCrossover c6 f1 sr true true;
            makeCrossover c7 f2 sr true false;
            makeCrossover c8 f1 sr true true;
            makeCrossover c9 f2 sr true false;
            makeCrossover c10 f2 sr true true;
            makeCrossover c11 f2 sr true true ] ++ extra]
  /\ map filtCount (seq 0 numBands) = [2; 4; 4; 2]%nat.
Proof.
  split; [|reflexivity].
  cbn [updateFilters]. rewrite updateRow_run. reflexivity.
Qed.

(** X16.  With three crossover frequencies, [updateFilters] stays inside
    its vectors exactly when every channel's row has at least twelve
    filters; it then returns as many rows as it was given, each of its old
    length.  With fewer than three frequencies a non-empty set of rows
    makes it read outside [crossoverFreq]. *)
Theorem update_filters_bounds
    (CrossoverFilter : Type)
    (makeCrossover : CrossoverFilter -> Q -> Q -> bool -> bool -> CrossoverFilter)
    (crossoverFreq : list Q) (sr : Q) (rows : list (list CrossoverFilter)) :
  ((3 <= List.length crossoverFreq)%nat ->
   (updateFilters CrossoverFilter makeCrossover crossoverFreq sr rows <> None
    <-> Forall (fun row => (12 <= List.length row)%nat) rows))
  /\ (forall rows',
        updateFilters CrossoverFilter makeCrossover crossoverFreq sr rows
        = Some rows' ->
        map (@List.length CrossoverFilter) rows'
        = map (@List.length CrossoverFilter) rows)
  /\ ((List.length crossoverFreq < 3)%nat -> rows <> [] ->
      updateFilters CrossoverFilter makeCrossover crossoverFreq sr rows = None).
Proof.
  split; [|split].
  - apply updateFilters_some_iff.
  - intros rows'. apply updateFilters_lengths.
  - intros Hf Hn. destruct rows as [|row rows]; [contradiction|].
    cbn [updateFilters].
    pose proof (updateRow_some_iff CrossoverFilter makeCrossover
                  crossoverFreq sr row) as R.
    destruct (updateRow CrossoverFilter makeCrossover crossoverFreq sr row);
      [|reflexivity].
    exfalso. assert (K : (3 <= List.length crossoverFreq)%nat)
      by (apply R; discriminate). lia.
Qed.

Lemma update_filters_bounds_witness :
  updateFilters (Q * bool) (fun _ freq _ _ hp => (freq, hp)) [100; 400; 4000] 48000
    [repeat (0, false) 12; repeat (0, false) 11] = None
  /\ updateFilters (Q * bool) (fun _ freq _ _ hp => (freq, hp)) [100; 400] 48000
       [repeat (0, false) 12] = None.
Proof.
  destruct (update_filters_bounds (Q * bool) (fun _ freq _ _ hp => (freq, hp))
              [100; 400; 4000] 48000
              [repeat (0, false) 12; repeat (0, false) 11]) as (A & _).
  destruct (update_filters_bounds (Q * bool) (fun _ freq _ _ hp => (freq, hp))
              [100; 400] 48000 [repeat (0, false) 12]) as (_ & _ & B).
  split.
  - destruct (updateFilters (Q * bool) (fun _ freq _ _ hp => (freq, hp))
                [100; 400; 4000] 48000
                [repeat (0, false) 12; repeat (0, false) 11]) eqn:E;
      [|reflexivity].
    exfalso. assert (K : Forall (fun row : list (Q * bool) => (12 <= List.length row)%nat)
                           [repeat (0, false) 12; repeat (0, false) 11])
      by (apply A; [cbn; lia | discriminate]).
    inversion K as [|? ? _ K']; subst. inversion K' as [|? ? K'' _]; subst.
    cbn in K''. lia.
  - apply B; [cbn; lia | discriminate].
Defined.

(** ** Sizes of the filter rows and of the buffer *)

Section RouterSizes.

Variable sample : Type.
Variable zero : sample.
Variable add : sample -> sample -> sample.
Variable CrossoverFilter : Type.
Variable applyFilter : CrossoverFilter -> list sample -> CrossoverFilter * list sample.

Lemma applyChain_length (chain : list CrossoverFilter) (source : list sample) :
  List.length (fst (applyChain sample CrossoverFilter applyFilter chain source))
  = List.length chain.
Proof.
  revert source. induction chain as [|f chain IH]; intro source; [reflexivity|].
  cbn [applyChain]. destruct (applyFilter f source) as [f' c].
  specialize (IH c).
  destruct (applyChain sample CrossoverFilter applyFilter chain c) as [ch out].
  cbn in *. rewrite IH. reflexivity.
Qed.

Lemma sumInto_length (buffer chanBuffer : list sample) :
  List.length (sumInto sample add buffer chanBuffer) = List.length buffer.
Proof.
  revert chanBuffer. induction buffer as [|x buffer IH]; intro chanBuffer;
    [reflexivity|].
  destruct chanBuffer as [|y chanBuffer]; [reflexivity|].
  cbn. rewrite IH. reflexivity.
Qed.

Lemma routeBands_lengths (s : Plugin) (bands : list BoolParam) :
  forall band filters input output,
    List.length
      (fst (routeBands sample add CrossoverFilter applyFilter
              s band bands filters input output))
    = List.length filters
    /\ List.length
         (snd (routeBands sample add CrossoverFilter applyFilter
                 s band bands filters input output))
       = List.length output.
Proof.
  induction bands as [|b bands IH]; intros band filters input output;
    [split; reflexivity|].
  cbn [routeBands].
  pose proof (firstn_skipn (filtCount band) filters) as FS.
  destruct (boolv s b).
  - pose proof (applyChain_length (firstn (filtCount band) filters) input) as AL.
    destruct (applyChain sample CrossoverFilter applyFilter
                (firstn (filtCount band) filters) input) as [chain' chanBuffer].
    specialize (IH (S band) (skipn (filtCount band) filters) input
                  (sumInto sample add output chanBuffer)).
    destruct (routeBands sample add CrossoverFilter applyFilter s (S band) bands
                (skipn (filtCount band) filters) input
                (sumInto sample add output chanBuffer)) as [later' output'].
    cbn [fst snd] in *. destruct IH as [I1 I2]. split.
    + rewrite length_app, AL, I1, <- length_app, FS. reflexivity.
    + rewrite I2. apply sumInto_length.
  - specialize (IH (S band) (skipn (filtCount band) filters) input output).
    destruct (routeBands sample add CrossoverFilter applyFilter s (S band) bands
                (skipn (filtCount band) filters) input output)
      as [later' output'].
    cbn [fst snd] in *. destruct IH as [I1 I2]. split.
    + rewrite length_app, I1, <- length_app, FS. reflexivity.
    + exact I2.
Qed.

Lemma routeChannels_lengths (s : Plugin) (rows : list (list CrossoverFilter)) :
  forall buffer,
    map (@List.length CrossoverFilter)
      (fst (routeChannels sample zero add CrossoverFilter applyFilter s rows buffer))
    = map (@List.length CrossoverFilter) rows
    /\ map (@List.length sample)
         (snd (routeChannels sample zero add CrossoverFilter applyFilter s rows buffer))
       = map (@List.length sample) buffer.
Proof.
  induction rows as [|row rows IH]; intro buffer.
  - cbn. split; [reflexivity|].
    rewrite map_map. apply map_ext. intro c. apply length_map.
  - destruct buffer as [|input inputs].
    + cbn. split; reflexivity.
    + cbn [routeChannels].
      pose proof (routeBands_lengths s bandSolo 0 row input (cleared sample zero input))
        as [R1 R2].
      destruct (routeBands sample add CrossoverFilter applyFilter s 0 bandSolo
                  row input (cleared sample zero input)) as [row' output].
      specialize (IH inputs).
      destruct (routeChannels sample zero add CrossoverFilter applyFilter
                  s rows inputs) as [rows' outputs].
      cbn [fst snd map] in *. destruct IH as [I1 I2]. split.
      * rewrite R1, I1. reflexivity.
      * rewrite R2, I2. unfold cleared. rewrite length_map. reflexivity.
Qed.

Lemma bandSoloRouter_lengths (s : Plugin) (rows : list (list CrossoverFilter))
    (buffer : list (list sample)) :
  map (@List.length CrossoverFilter)
    (fst (bandSoloRouter sample zero add CrossoverFilter applyFilter s rows buffer))
  = map (@List.length CrossoverFilter) rows
  /\ map (@List.length sample)
       (snd (bandSoloRouter sample zero add CrossoverFilter applyFilter s rows buffer))
     = map (@List.length sample) buffer.
Proof.
  unfold bandSoloRouter. destruct (isAnyBandSolo s).
  - apply routeChannels_lengths.
  - split; reflexivity.
Qed.

End RouterSizes.

Lemma repeat_rows_sized {A : Type} (x : A) (n m : nat) :
  map (@List.length A) (repeat (repeat x n) m) = repeat n m.
Proof.
  induction m as [|m IH]; [reflexivity|].
  cbn. rewrite repeat_length, IH. reflexivity.
Qed.

Lemma Forall_repeat_const (n m : nat) (P : nat -> Prop) :
  P n -> Forall P (repeat n m).
Proof.
  intro H. induction m; cbn; constructor; assumption.
Qed.

(** X17.  The rows [prepareToPlay] allocates are kept at their size: for
    any channel count, and with three crossover frequencies, preparing
    succeeds and yields one row of twelve filters per channel; on rows of
    that size every later [updateFilters] succeeds and the band solo router
    and [updateFilters] both return rows of the same sizes.  So no call
    after [prepareToPlay] indexes outside a row. *)
Theorem filter_rows_stay_sized
    (CrossoverFilter : Type)
    (makeCrossover : CrossoverFilter -> Q -> Q -> bool -> bool -> CrossoverFilter)
    (newCrossoverFilter : CrossoverFilter)
    (applyFilter : CrossoverFilter -> list Q -> CrossoverFilter * list Q)
    (crossoverFreq : list Q) :
  (3 <= List.length crossoverFreq)%nat ->
  (forall numChannels sr,
     exists rows,
       prepareCrossovers CrossoverFilter makeCrossover newCrossoverFilter
         numChannels crossoverFreq sr = Some rows
       /\ map (@List.length CrossoverFilter) rows = repeat 12%nat numChannels)
  /\ (forall rows sr,
        Forall (fun n => n = 12%nat) (map (@List.length CrossoverFilter) rows) ->
        exists rows',
          updateFilters CrossoverFilter makeCrossover crossoverFreq sr rows
          = Some rows'
          /\ map (@List.length CrossoverFilter) rows'
             = map (@List.length CrossoverFilter) rows)
  /\ (forall rows s buffer,
        map (@List.length CrossoverFilter)
          (fst (bandSoloRouter Q 0 Qplus CrossoverFilter applyFilter s rows buffer))
        = map (@List.length CrossoverFilter) rows).
Proof.
  intro Hf.
  assert (U : forall rows sr,
             Forall (fun n => n = 12%nat) (map (@List.length CrossoverFilter) rows) ->
             exists rows',
               updateFilters CrossoverFilter makeCrossover crossoverFreq sr rows
               = Some rows'
               /\ map (@List.length CrossoverFilter) rows'
                  = map (@List.length CrossoverFilter) rows).
  { intros rows sr H.
    destruct (updateFilters CrossoverFilter makeCrossover crossoverFreq sr rows)
      as [rows'|] eqn:E.
    - exists rows'. split; [reflexivity|].
      apply (updateFilters_lengths _ _ _ _ _ _ E).
    - exfalso.
      apply (proj2 (updateFilters_some_iff CrossoverFilter makeCrossover
                      crossoverFreq sr rows Hf)); [|exact E].
      apply Forall_forall. intros row Hin.
      rewrite Forall_forall in H.
      rewrite (H (List.length row)); [lia|]. apply in_map. assumption. }
  split; [|split].
  - intros numChannels sr. unfold prepareCrossovers.
    destruct (U (repeat (repeat newCrossoverFilter filtersPerRow) numChannels) sr)
      as (rows & E & L).
    + rewrite repeat_rows_sized. apply Forall_repeat_const. reflexivity.
    + exists rows. split; [exact E|].
      rewrite L. apply repeat_rows_sized.
  - exact U.
  - intros rows s buffer.
    apply (bandSoloRouter_lengths Q 0 Qplus CrossoverFilter applyFilter s rows buffer).
Qed.

Lemma filter_rows_stay_sized_witness :
  exists rows,
    prepareCrossovers (Q * bool) (fun _ freq _ _ hp => (freq, hp)) (0, false)
      2 [100; 400; 4000] 48000 = Some rows
    /\ map (@List.length (Q * bool)) rows = [12; 12]%nat.
Proof.
  destruct (filter_rows_stay_sized (Q * bool) (fun _ freq _ _ hp => (freq, hp))
              (0, false) (fun f block => (f, block)) [100; 400; 4000])
    as (A & _); [cbn; lia|].
  destruct (A 2%nat 48000) as (rows & E & L).
  exists rows. split; [exact E | exact L].
Defined.

(** ** Mid/side solo *)

Lemma midLoop_run (ch0 ch1 : list Q) :
  List.length ch0 = List.length ch1 ->
  midLoop ch0 ch1
  = (map (fun lr => (fst lr + snd lr) / 2) (combine ch0 ch1),
     map (fun lr => (fst lr + snd lr) / 2) (combine ch0 ch1)).
Proof.
  revert ch1. induction ch0 as [|l ch0 IH]; intros [|r ch1] H;
    try discriminate; [reflexivity|].
  cbn [midLoop combine map fst snd]. rewrite IH by (cbn in H; lia).
  reflexivity.
Qed.

Lemma sideLoop_run (in0 in1 : list Q) :
  List.length in0 = List.length in1 ->
  exists d,
    sideLoop in0 in1 = (d, d)
    /\ List.length d = List.length in0
    /\ Forall2 (fun x lr => x == snd lr - fst lr) d (combine in0 in1).
Proof.
  revert in1. induction in0 as [|l in0 IH]; intros [|r in1] H;
    try discriminate.
  - exists []. repeat split; constructor.
  - destruct (IH in1) as (d & E & L & F); [cbn in H; lia|].
    exists (((r - l) + - (l - r)) / 2 :: d).
    cbn [sideLoop]. rewrite E. split; [reflexivity|]. split.
    + cbn. rewrite L. reflexivity.
    + cbn [combine]. constructor; [|assumption].
      cbn [fst snd]. field.
Qed.

(** X18.  On a buffer whose first two channels have the same number of
    samples, mid solo writes the average (L + R) / 2 to both channels, and
    side solo (with mid solo off) writes the difference R - L to both;
    further channels are left alone.  Mid solo wins when both flags are on;
    with both off the buffer is returned as it is.  On a single channel
    that has samples either solo reads a second channel that is not
    there. *)
Theorem mid_side_solo (s : Plugin) (ch0 ch1 : list Q) (rest : list (list Q)) :
  List.length ch0 = List.length ch1 ->
  (boolv s midSolo = true ->
   midSideStage s (ch0 :: ch1 :: rest)
   = Some (map (fun lr => (fst lr + snd lr) / 2) (combine ch0 ch1)
           :: map (fun lr => (fst lr + snd lr) / 2) (combine ch0 ch1)
           :: rest))
  /\ (boolv s midSolo = false -> boolv s sideSolo = true ->
      exists d,
        midSideStage s (ch0 :: ch1 :: rest) = Some (d :: d :: rest)
        /\ List.length d = List.length ch0
        /\ Forall2 (fun x lr => x == snd lr - fst lr) d (combine ch0 ch1))
  /\ (boolv s midSolo = false -> boolv s sideSolo = false ->
      forall buffer, midSideStage s buffer = Some buffer)
  /\ (boolv s midSolo = true \/ boolv s sideSolo = true ->
      forall x mono, midSideStage s [x :: mono] = None).
Proof.
  intro H. split; [|split; [|split]].
  - intro M. unfold midSideStage. rewrite M. cbn [onStereo].
    rewrite midLoop_run by assumption. destruct ch0; reflexivity.
  - intros M S. destruct (sideLoop_run ch0 ch1 H) as (d & E & L & F).
    exists d. unfold midSideStage. rewrite M, S. cbn [onStereo]. rewrite E.
    split; [destruct ch0; reflexivity|]. split; assumption.
  - intros M S buffer. unfold midSideStage. rewrite M, S. reflexivity.
  - intros [M | S] x mono; unfold midSideStage.
    + rewrite M. reflexivity.
    + rewrite S. destruct (boolv s midSolo); reflexivity.
Qed.

Lemma mid_side_solo_witness :
  midSideStage (Upd.boolv' sideSolo true (constructed None 0))
    [[1; 2; 3]; [5; 5; 5]]
  <> None
  /\ midSideStage (Upd.boolv' midSolo true (constructed None 0))
       [[1; 2; 3]; [5; 5; 5]]
     = Some [[(1 + 5) / 2; (2 + 5) / 2; (3 + 5) / 2];
             [(1 + 5) / 2; (2 + 5) / 2; (3 + 5) / 2]].
Proof.
  split; [discriminate|].
  destruct (mid_side_solo (Upd.boolv' midSolo true (constructed None 0))
              [1; 2; 3] [5; 5; 5] []) as (A & _); [reflexivity|].
  apply A. reflexivity.
Defined.

(** ** The whole block *)

Section BlockFacts.

Variable CrossoverFilter : Type.
Variable applyFilter : CrossoverFilter -> list Q -> CrossoverFilter * list Q.
Variable IIRFilter : Type.
Variable processSamples : IIRFilter -> list Q -> IIRFilter * list Q.
Variable decibelsToGain : Q -> Q.

Lemma routeBands_ext (s1 s2 : Plugin) (bands : list BoolParam) :
  (forall b, In b bands -> boolv s2 b = boolv s1 b) ->
  forall band filters input output,
    routeBands Q Qplus CrossoverFilter applyFilter s2 band bands filters input output
    = routeBands Q Qplus CrossoverFilter applyFilter s1 band bands filters input output.
Proof.
  induction bands as [|b bands IH]; intros H band filters input output;
    [reflexivity|].
  cbn [routeBands]. rewrite (H b) by (left; reflexivity).
  assert (H' : forall b', In b' bands -> boolv s2 b' = boolv s1 b')
    by (intros b' Hb; apply H; right; assumption).
  destruct (boolv s1 b).
  - destruct (applyChain Q CrossoverFilter applyFilter
                (firstn (filtCount band) filters) input) as [chain' chanBuffer].
    rewrite (IH H'). reflexivity.
  - rewrite (IH H'). reflexivity.
Qed.

Lemma bandSoloRouter_ext (s1 s2 : Plugin) :
  (forall b, In b bandSolo -> boolv s2 b = boolv s1 b) ->
  forall rows buffer,
    bandSoloRouter Q 0 Qplus CrossoverFilter applyFilter s2 rows buffer
    = bandSoloRouter Q 0 Qplus CrossoverFilter applyFilter s1 rows buffer.
Proof.
  intros H rows buffer. unfold bandSoloRouter, isAnyBandSolo.
  assert (A : anySolo s2 bandSolo = anySolo s1 bandSolo).
  { cbn. rewrite !H by (cbn; tauto). reflexivity. }
  rewrite A. destruct (anySolo s1 bandSolo); [|reflexivity].
  revert buffer. induction rows as [|row rows IH]; intro buffer; [reflexivity|].
  destruct buffer as [|input inputs]; [reflexivity|].
  cbn [routeChannels]. rewrite (routeBands_ext s1 s2 bandSolo H).
  rewrite IH. reflexivity.
Qed.

Lemma gainStage_silent (s : Plugin) (lv : Levels) (buffer : list (list Q)) :
  boolv s muteMode = true \/ currentGainDb s lv <= LOWEST_VOLUME_VALUE ->
  gainStage decibelsToGain s lv buffer = map (map (fun _ => 0)) buffer.
Proof.
  intro H. unfold gainStage.
  assert (T : boolv s muteMode
              || Qle_bool (currentGainDb s lv) LOWEST_VOLUME_VALUE = true).
  { destruct H as [H | H]; [rewrite H; reflexivity|].
    apply Qle_bool_iff in H. rewrite H. apply orb_true_r. }
  rewrite T. reflexivity.
Qed.

Lemma processBlock_parts (s : Plugin) (lv : Levels)
    (xf : list (list CrossoverFilter)) (ef : list (list IIRFilter))
    (buffer : list (list Q)) (p : Processed CrossoverFilter IIRFilter) :
  processBlock CrossoverFilter applyFilter IIRFilter processSamples
    decibelsToGain s lv xf ef buffer = Some p ->
  exists b2,
    midSideStage s
      (snd (bandSoloRouter Q 0 Qplus CrossoverFilter applyFilter s xf buffer))
    = Some b2
    /\ crossoverFiltersAfter _ _ p
       = fst (bandSoloRouter Q 0 Qplus CrossoverFilter applyFilter s xf buffer)
    /\ loudnessEqFiltersAfter _ _ p
       = fst (loudnessEqStage IIRFilter processSamples s ef b2)
    /\ measured _ _ p = snd (loudnessEqStage IIRFilter processSamples s ef b2)
    /\ bufferAfter _ _ p = gainStage decibelsToGain s lv (measured _ _ p)
    /\ pluginAfter _ _ p
       = Upd.lufsProcessor'
           (mkLufs (S (accumulated (lufsProcessor s)))
              (resets (lufsProcessor s))) s.
Proof.
  unfold processBlock. intro H.
  destruct (bandSoloRouter Q 0 Qplus CrossoverFilter applyFilter s xf buffer)
    as [xf' b1].
  cbn [fst snd].
  destruct (midSideStage s b1) as [b2|]; [|discriminate].
  exists b2. split; [reflexivity|].
  destruct (loudnessEqStage IIRFilter processSamples s ef b2) as [ef' b3].
  injection H as <-. cbn. repeat split; reflexivity.
Qed.

End BlockFacts.

(** X19.  When mute is on, or the level in force is at or below -64 dB,
    every sample of the block [processBlock] returns is zero, whatever the
    solo and loudness modes are; the block has still been handed to the
    loudness unit, and the returned buffer has the shape of the measured
    one. *)
Theorem muted_block_is_silent
    (CrossoverFilter : Type)
    (applyFilter : CrossoverFilter -> list Q -> CrossoverFilter * list Q)
    (IIRFilter : Type)
    (processSamples : IIRFilter -> list Q -> IIRFilter * list Q)
    (decibelsToGain : Q -> Q)
    (s : Plugin) (lv : Levels)
    (xf : list (list CrossoverFilter)) (ef : list (list IIRFilter))
    (buffer : list (list Q)) (p : Processed CrossoverFilter IIRFilter) :
  boolv s muteMode = true \/ currentGainDb s lv <= LOWEST_VOLUME_VALUE ->
  processBlock CrossoverFilter applyFilter IIRFilter processSamples
    decibelsToGain s lv xf ef buffer = Some p ->
  bufferAfter _ _ p = map (map (fun _ => 0)) (measured _ _ p)
  /\ accumulated (lufsProcessor (pluginAfter _ _ p))
     = S (accumulated (lufsProcessor s)).
Proof.
  intros H E. apply processBlock_parts in E.
  destruct E as (b2 & _ & _ & _ & _ & B & P).
  rewrite B, P. split; [apply gainStage_silent; assumption | reflexivity].
Qed.

Lemma muted_block_is_silent_witness :
  exists p,
    processBlock unit (fun f block => (f, block)) unit (fun f block => (f, block))
      (fun _ => 1) (Upd.boolv' muteMode true (constructed None 0))
      (mkLevels 0 (-25) (-10)) [] [] [[1; 2]; [3; 4]] = Some p
    /\ bufferAfter _ _ p = [[0; 0]; [0; 0]].
Proof.
  eexists. split; [reflexivity|].
  destruct (muted_block_is_silent unit (fun f block => (f, block)) unit
              (fun f block => (f, block)) (fun _ => 1)
              (Upd.boolv' muteMode true (constructed None 0))
              (mkLevels 0 (-25) (-10)) [] [] [[1; 2]; [3; 4]] _
              (or_introl eq_refl) eq_refl) as [A _].
  exact A.
Defined.

(** X20.  The loudness unit measures the block before the gain stage: the
    block handed to it, and the filter objects left behind, do not depend
    on mute, dim, reference or any of the three levels. *)
Theorem metering_is_pre_gain
    (CrossoverFilter : Type)
    (applyFilter : CrossoverFilter -> list Q -> CrossoverFilter * list Q)
    (IIRFilter : Type)
    (processSamples : IIRFilter -> list Q -> IIRFilter * list Q)
    (decibelsToGain : Q -> Q)
    (s1 s2 : Plugin) (lv1 lv2 : Levels)
    (xf : list (list CrossoverFilter)) (ef : list (list IIRFilter))
    (buffer : list (list Q)) :
  (forall q, ~ In q [muteMode; dimMode; refMode] -> boolv s2 q = boolv s1 q) ->
  option_map (fun p => (measured _ _ p, crossoverFiltersAfter _ _ p,
                        loudnessEqFiltersAfter _ _ p))
    (processBlock CrossoverFilter applyFilter IIRFilter processSamples
       decibelsToGain s2 lv2 xf ef buffer)
  = option_map (fun p => (measured _ _ p, crossoverFiltersAfter _ _ p,
                          loudnessEqFiltersAfter _ _ p))
      (processBlock CrossoverFilter applyFilter IIRFilter processSamples
         decibelsToGain s1 lv1 xf ef buffer).
Proof.
  intro H. unfold processBlock.
  rewrite (bandSoloRouter_ext CrossoverFilter applyFilter s1 s2).
  2:{ intros b Hb. apply H. cbn in Hb. cbn. intuition (subst; discriminate). }
  destruct (bandSoloRouter Q 0 Qplus CrossoverFilter applyFilter s1 xf buffer)
    as [xf' b1].
  unfold midSideStage, loudnessEqStage.
  rewrite (H midSolo), (H sideSolo), (H loudnessMode)
    by (cbn; intuition discriminate).
  destruct (boolv s1 midSolo), (boolv s1 sideSolo), (boolv s1 loudnessMode);
    repeat match goal with
           | |- context [onStereo ?l ?b] => destruct (onStereo l b)
           | |- context [eqChannels ?a ?b ?c ?d] => destruct (eqChannels a b c d)
           end; reflexivity.
Qed.

Lemma metering_is_pre_gain_witness :
  option_map (fun p => (measured _ _ p, crossoverFiltersAfter _ _ p,
                        loudnessEqFiltersAfter _ _ p))
    (processBlock unit (fun f block => (f, block)) unit (fun f block => (f, block))
       (fun _ => 1) (Upd.boolv' muteMode true (constructed None 0))
       (mkLevels (-64) (-25) (-10)) [] [] [[1; 2]; [3; 4]])
  = Some ([[1; 2]; [3; 4]], [], []).
Proof.
  rewrite (metering_is_pre_gain unit (fun f block => (f, block)) unit
             (fun f block => (f, block)) (fun _ => 1)
             (constructed None 0) (Upd.boolv' muteMode true (constructed None 0))
             (mkLevels 0 0 0) (mkLevels (-64) (-25) (-10)) [] [] [[1; 2]; [3; 4]]).
  - reflexivity.
  - intros q N. cbn. destruct (BoolParam_eq_dec q muteMode) as [-> | _];
      [exfalso; apply N; left; reflexivity | reflexivity].
Defined.

(** X21.  With every band solo, mid and side solo and the loudness mode
    off, mute off and the level in force above -64 dB, [processBlock]
    touches no filter, hands the block to the loudness unit as it came, and
    returns every sample multiplied by the gain of that level: the dim
    level when dim is on, else the reference level when reference is on,
    else the monitor level. *)
Theorem plain_block_is_scaled
    (CrossoverFilter : Type)
    (applyFilter : CrossoverFilter -> list Q -> CrossoverFilter * list Q)
    (IIRFilter : Type)
    (processSamples : IIRFilter -> list Q -> IIRFilter * list Q)
    (decibelsToGain : Q -> Q)
    (s : Plugin) (lv : Levels)
    (xf : list (list CrossoverFilter)) (ef : list (list IIRFilter))
    (buffer : list (list Q)) :
  (forall q, In q [solo1; solo2; solo3; solo4; midSolo; sideSolo;
                   loudnessMode; muteMode] -> boolv s q = false) ->
  LOWEST_VOLUME_VALUE < currentGainDb s lv ->
  exists p,
    processBlock CrossoverFilter applyFilter IIRFilter processSamples
      decibelsToGain s lv xf ef buffer = Some p
    /\ crossoverFiltersAfter _ _ p = xf
    /\ loudnessEqFiltersAfter _ _ p = ef
    /\ measured _ _ p = buffer
    /\ bufferAfter _ _ p
       = map (map (fun x => x * decibelsToGain (currentGainDb s lv))) buffer
    /\ (currentGainDb s lv = dimLevel lv /\ boolv s dimMode = true
        \/ currentGainDb s lv = refLevel lv
           /\ boolv s dimMode = false /\ boolv s refMode = true
        \/ currentGainDb s lv = monitorLevel lv
           /\ boolv s dimMode = false /\ boolv s refMode = false).
Proof.
  intros H G.
  assert (A : anySolo s bandSolo = false).
  { apply anySolo_false. intros b Hb. apply H. cbn in Hb. cbn. tauto. }
  assert (N : Qle_bool (currentGainDb s lv) LOWEST_VOLUME_VALUE = false).
  { destruct (Qle_bool (currentGainDb s lv) LOWEST_VOLUME_VALUE) eqn:E;
      [|reflexivity].
    apply Qle_bool_iff in E. exfalso. apply (Qlt_not_le _ _ G E). }
  eexists. split.
  - unfold processBlock, bandSoloRouter, isAnyBandSolo, midSideStage,
      loudnessEqStage, gainStage.
    rewrite A, (H midSolo), (H sideSolo), (H loudnessMode), (H muteMode), N
      by (cbn; tauto).
    reflexivity.
  - cbn. repeat split.
    unfold currentGainDb.
    destruct (boolv s dimMode); [tauto|]. destruct (boolv s refMode); tauto.
Qed.

Lemma plain_block_is_scaled_witness :
  exists p,
    processBlock unit (fun f block => (f, block)) unit (fun f block => (f, block))
      (fun db => if Qeq_bool db (-25) then 1 # 2 else 1)
      (Upd.boolv' dimMode true (constructed None 0))
      (mkLevels 0 (-25) (-10)) [] [] [[2; 4]; [6; 8]] = Some p
    /\ bufferAfter _ _ p = [[2 * (1 # 2); 4 * (1 # 2)]; [6 * (1 # 2); 8 * (1 # 2)]].
Proof.
  destruct (plain_block_is_scaled unit (fun f block => (f, block)) unit
              (fun f block => (f, block))
              (fun db => if Qeq_bool db (-25) then 1 # 2 else 1)
              (Upd.boolv' dimMode true (constructed None 0))
              (mkLevels 0 (-25) (-10)) [] [] [[2; 4]; [6; 8]])
    as (p & E & _ & _ & _ & B & _).
  - intros q Hq. cbn in Hq.
    repeat (destruct Hq as [<- | Hq]; [reflexivity|]). contradiction.
  - reflexivity.
  - exists p. split; [exact E | exact B].
Defined.

Lemma midLoop_lengths (ch0 ch1 : list Q) :
  List.length (fst (midLoop ch0 ch1)) = List.length ch0
  /\ List.length (snd (midLoop ch0 ch1)) = List.length ch1.
Proof.
  revert ch1. induction ch0 as [|l ch0 IH]; intros [|r ch1];
    try (split; reflexivity).
  cbn [midLoop]. specialize (IH ch1). destruct (midLoop ch0 ch1) as [o0 o1].
  cbn in *. destruct IH as [A B]. rewrite A, B. split; reflexivity.
Qed.

Lemma sideLoop_lengths (in0 in1 : list Q) :
  List.length (fst (sideLoop in0 in1)) = List.length in0
  /\ List.length (snd (sideLoop in0 in1)) = List.length in1.
Proof.
  revert in1. induction in0 as [|l in0 IH]; intros [|r in1];
    try (split; reflexivity).
  cbn [sideLoop]. specialize (IH in1). destruct (sideLoop in0 in1) as [o0 o1].
  cbn in *. destruct IH as [A B]. rewrite A, B. split; reflexivity.
Qed.

Lemma onStereo_shape (loop : list Q -> list Q -> list Q * list Q)
    (buffer b2 : list (list Q)) :
  (forall a b, List.length (fst (loop a b)) = List.length a
               /\ List.length (snd (loop a b)) = List.length b) ->
  onStereo loop buffer = Some b2 ->
  map (@List.length Q) b2 = map (@List.length Q) buffer.
Proof.
  intros L H. destruct buffer as [|ch0 [|ch1 rest]].
  - injection H as <-. reflexivity.
  - destruct ch0; [injection H as <-; reflexivity | discriminate].
  - cbn [onStereo] in H. destruct (L ch0 ch1) as [A B].
    destruct (loop ch0 ch1) as [o0 o1]. cbn [fst snd] in *.
    assert (E : b2 = o0 :: o1 :: rest) by (destruct ch0; injection H as <-; reflexivity).
    subst b2. cbn. rewrite A, B. reflexivity.
Qed.

Lemma midSideStage_shape (s : Plugin) (buffer b2 : list (list Q)) :
  midSideStage s buffer = Some b2 ->
  map (@List.length Q) b2 = map (@List.length Q) buffer.
Proof.
  unfold midSideStage. intro H.
  destruct (boolv s midSolo).
  - apply (onStereo_shape midLoop buffer b2 midLoop_lengths H).
  - destruct (boolv s sideSolo).
    + apply (onStereo_shape sideLoop buffer b2 sideLoop_lengths H).
    + injection H as <-. reflexivity.
Qed.

Section ShapeFacts.

Variable IIRFilter : Type.
Variable processSamples : IIRFilter -> list Q -> IIRFilter * list Q.
Hypothesis processSamples_in_place :
  forall f x, List.length (snd (processSamples f x)) = List.length x.

Lemma eqChain_length (filters : list IIRFilter) (channel : list Q) :
  List.length (snd (eqChain IIRFilter processSamples filters channel))
  = List.length channel.
Proof.
  revert channel. induction filters as [|f filters IH]; intro channel;
    [reflexivity|].
  cbn [eqChain]. pose proof (processSamples_in_place f channel) as P.
  destruct (processSamples f channel) as [f' c]. specialize (IH c).
  destruct (eqChain IIRFilter processSamples filters c) as [fs out].
  cbn in *. congruence.
Qed.

Lemma eqChannels_shape (rows : list (list IIRFilter)) (buffer : list (list Q)) :
  map (@List.length Q) (snd (eqChannels IIRFilter processSamples rows buffer))
  = map (@List.length Q) buffer.
Proof.
  revert buffer. induction rows as [|row rows IH]; intro buffer; [reflexivity|].
  destruct buffer as [|channel channels]; [reflexivity|].
  cbn [eqChannels]. pose proof (eqChain_length (firstn 7 row) channel) as C.
  destruct (eqChain IIRFilter processSamples (firstn 7 row) channel) as [used out].
  specialize (IH channels).
  destruct (eqChannels IIRFilter processSamples rows channels) as [rows' outs].
  cbn in *. rewrite C, IH. reflexivity.
Qed.

End ShapeFacts.

Lemma gainStage_shape (decibelsToGain : Q -> Q) (s : Plugin) (lv : Levels)
    (buffer : list (list Q)) :
  map (@List.length Q) (gainStage decibelsToGain s lv buffer)
  = map (@List.length Q) buffer.
Proof.
  unfold gainStage.
  destruct (boolv s muteMode || Qle_bool (currentGainDb s lv) LOWEST_VOLUME_VALUE);
    rewrite map_map; apply map_ext; intro c;
    [unfold cleared|]; apply length_map.
Qed.

(** X22.  Provided the loudness equaliser's filter works in place (returns
    as many samples as it is given), a completed [processBlock] returns a
    buffer with as many channels and as many samples per channel as it was
    given, and hands a block of that shape to the loudness unit, in every
    combination of modes. *)
Theorem block_shape_kept
    (CrossoverFilter : Type)
    (applyFilter : CrossoverFilter -> list Q -> CrossoverFilter * list Q)
    (IIRFilter : Type)
    (processSamples : IIRFilter -> list Q -> IIRFilter * list Q)
    (decibelsToGain : Q -> Q)
    (s : Plugin) (lv : Levels)
    (xf : list (list CrossoverFilter)) (ef : list (list IIRFilter))
    (buffer : list (list Q)) (p : Processed CrossoverFilter IIRFilter) :
  (forall f x, List.length (snd (processSamples f x)) = List.length x) ->
  processBlock CrossoverFilter applyFilter IIRFilter processSamples
    decibelsToGain s lv xf ef buffer = Some p ->
  map (@List.length Q) (bufferAfter _ _ p) = map (@List.length Q) buffer
  /\ map (@List.length Q) (measured _ _ p) = map (@List.length Q) buffer.
Proof.
  intros Hp E. apply processBlock_parts in E.
  destruct E as (b2 & M & _ & _ & Me & B & _).
  assert (K : map (@List.length Q) (measured _ _ p) = map (@List.length Q) buffer).
  { rewrite Me. unfold loudnessEqStage.
    apply midSideStage_shape in M.
    destruct (bandSoloRouter_lengths Q 0 Qplus CrossoverFilter applyFilter s xf buffer)
      as [_ R].
    destruct (boolv s loudnessMode).
    - rewrite (eqChannels_shape IIRFilter processSamples Hp). congruence.
    - cbn [snd]. congruence. }
  split; [|exact K].
  rewrite B, gainStage_shape. exact K.
Qed.

Lemma block_shape_kept_witness :
  exists p,
    processBlock unit (fun f block => (f, map (Qmult 2) block))
      unit (fun f block => (f, map (Qplus 1) block)) (fun _ => 1 # 2)
      (Upd.boolv' loudnessMode true
         (Upd.boolv' solo2 true (Upd.boolv' sideSolo true (constructed None 0))))
      (mkLevels (-6) (-25) (-10))
      [repeat tt 12; repeat tt 12] [repeat tt 7; repeat tt 7]
      [[1; 2; 3]; [4; 5; 6]] = Some p
    /\ map (@List.length Q) (bufferAfter _ _ p) = [3; 3]%nat.
Proof.
  eexists. split; [reflexivity|].
  destruct (block_shape_kept unit (fun f block => (f, map (Qmult 2) block))
              unit (fun f block => (f, map (Qplus 1) block)) (fun _ => 1 # 2)
              (Upd.boolv' loudnessMode true
                 (Upd.boolv' solo2 true
                    (Upd.boolv' sideSolo true (constructed None 0))))
              (mkLevels (-6) (-25) (-10))
              [repeat tt 12; repeat tt 12] [repeat tt 7; repeat tt 7]
              [[1; 2; 3]; [4; 5; 6]] _
              (fun f x => length_map (Qplus 1) x) eq_refl) as [A _].
  exact A.
Defined.

(** ** Bands that are not soloed *)

Lemma routeBands_untouched
    (sample : Type) (add : sample -> sample -> sample)
    (CrossoverFilter : Type)
    (applyFilter : CrossoverFilter -> list sample -> CrossoverFilter * list sample)
    (s : Plugin)
    (c0 c1 c2 c3 c4 c5 c6 c7 c8 c9 c10 c11 : CrossoverFilter)
    (input output : list sample) :
  exists d0 d1 d2 d3 d4 d5 d6 d7 d8 d9 d10 d11,
    fst (routeBands sample add CrossoverFilter applyFilter s 0 bandSolo
           [c0; c1; c2; c3; c4; c5; c6; c7; c8; c9; c10; c11] input output)
    = [d0; d1; d2; d3; d4; d5; d6; d7; d8; d9; d10; d11]
    /\ (boolv s solo1 = false -> [d0; d1] = [c0; c1])
    /\ (boolv s solo2 = false -> [d2; d3; d4; d5] = [c2; c3; c4; c5])
    /\ (boolv s solo3 = false -> [d6; d7; d8; d9] = [c6; c7; c8; c9])
    /\ (boolv s solo4 = false -> [d10; d11] = [c10; c11]).
Proof.
  unfold bandSolo. cbn [routeBands].
  change (filtCount 0) with 2%nat. change (filtCount 1) with 4%nat.
  change (filtCount 2) with 4%nat. change (filtCount 3) with 2%nat.
  cbn [firstn skipn applyChain].
  destruct (boolv s solo1), (boolv s solo2), (boolv s solo3), (boolv s solo4);
    repeat match goal with
           | |- context [applyFilter ?f ?x] =>
               destruct (applyFilter f x); cbn [applyChain]
           end;
    cbn [fst app];
    do 12 eexists; (split; [reflexivity|]);
    repeat split; intro; try discriminate; reflexivity.
Qed.

Lemma Forall2_same {A : Type} (P : A -> A -> Prop) (l : list A) :
  (forall x, P x x) -> Forall2 P l l.
Proof. intro H. induction l; constructor; auto. Qed.

(** X23.  A band whose solo flag is off is not filtered: on rows of twelve
    filters the router returns the filter objects of that band, the ones at
    the positions [updateFilters] configured for it, exactly as they were,
    in every channel. *)
Theorem unsoloed_band_not_filtered
    (sample : Type) (zero : sample) (add : sample -> sample -> sample)
    (CrossoverFilter : Type)
    (applyFilter : CrossoverFilter -> list sample -> CrossoverFilter * list sample)
    (s : Plugin) (rows : list (list CrossoverFilter)) (buffer : list (list sample))
    (band : nat) (b : BoolParam) :
  Forall (fun row => List.length row = 12%nat) rows ->
  nth_error bandSolo band = Some b ->
  boolv s b = false ->
  Forall2
    (fun row row' =>
       firstn (filtCount band)
         (skipn (list_sum (map filtCount (seq 0 band))) row')
       = firstn (filtCount band)
           (skipn (list_sum (map filtCount (seq 0 band))) row))
    rows
    (fst (bandSoloRouter sample zero add CrossoverFilter applyFilter s rows buffer)).
Proof.
  intros Hl Hb Hoff. unfold bandSoloRouter.
  destruct (isAnyBandSolo s); [|apply Forall2_same; reflexivity].
  revert buffer. induction Hl as [|row rows Hrow Hrows IH]; intro buffer.
  - cbn. constructor.
  - destruct buffer as [|input inputs];
      [apply Forall2_same; reflexivity|].
    cbn [routeChannels].
    do 12 (destruct row as [|? row]; [discriminate Hrow|]).
    destruct row; [|discriminate Hrow].
    match goal with
    | |- context [routeBands _ _ _ _ _ _ _
                    [?c0; ?c1; ?c2; ?c3; ?c4; ?c5; ?c6; ?c7; ?c8; ?c9; ?c10; ?c11]
                    ?i ?o] =>
        destruct (routeBands_untouched sample add CrossoverFilter applyFilter s
                    c0 c1 c2 c3 c4 c5 c6 c7 c8 c9 c10 c11 i o)
          as (d0 & d1 & d2 & d3 & d4 & d5 & d6 & d7 & d8 & d9 & d10 & d11
              & E & U0 & U1 & U2 & U3);
        destruct (routeBands sample add CrossoverFilter applyFilter s 0 bandSolo
                    [c0; c1; c2; c3; c4; c5; c6; c7; c8; c9; c10; c11] i o)
          as [row' out]
    end.
    cbn [fst] in E. subst row'.
    specialize (IH inputs).
    destruct (routeChannels sample zero add CrossoverFilter applyFilter
                s rows inputs) as [rows' outs].
    cbn [fst] in *. constructor; [|exact IH].
    destruct band as [|[|[|[|band]]]]; cbn in Hb;
      [injection Hb as <-; cbn; apply U0; assumption
      |injection Hb as <-; cbn; apply U1; assumption
      |injection Hb as <-; cbn; apply U2; assumption
      |injection Hb as <-; cbn; apply U3; assumption
      |destruct band; discriminate Hb].
Qed.

Lemma unsoloed_band_not_filtered_witness :
  fst (bandSoloRouter Q 0 Qplus nat (fun calls block => (S calls, block))
         (Upd.boolv' solo1 true (constructed None 0))
         [repeat 0%nat 12] [[1; 2; 3]])
  = [[1; 1; 0; 0; 0; 0; 0; 0; 0; 0; 0; 0]%nat]
  /\ Forall2
       (fun row row' => firstn 4 (skipn 2 row') = firstn 4 (skipn 2 row))
       [repeat 0%nat 12]
       (fst (bandSoloRouter Q 0 Qplus nat (fun calls block => (S calls, block))
               (Upd.boolv' solo1 true (constructed None 0))
               [repeat 0%nat 12] [[1; 2; 3]])).
Proof.
  split; [reflexivity|].
  apply (unsoloed_band_not_filtered Q 0 Qplus nat
           (fun calls block => (S calls, block))
           (Upd.boolv' solo1 true (constructed None 0))
           [repeat 0%nat 12] [[1; 2; 3]] 1%nat solo2).
  - constructor; [reflexivity | constructor].
  - reflexivity.
  - reflexivity.
Defined.

(** ** Saturation of the byte pair, and the packet cadence *)

(** X24.  From a magnitude of 99 on the integral byte is 99, and no byte
    pair reads back above 99.99: larger values saturate instead of
    wrapping. *)
Theorem telemetry_pair_saturates (v : Q) :
  (99 <= Qabs v -> fst (getMeterIntegralFractional v) = 99%Z)
  /\ pairValue (getMeterIntegralFractional v) <= 9999 # 100.
Proof.
  split.
  - intro H. rewrite getMeterIntegralFractional_narrowed.
    unfold EncodingSpec.encode_narrowed. cbn [fst].
    destruct (Qabs_trunc_frac v) as (E & F0 & F1).
    assert (K : inject_Z 98 < inject_Z (Z.abs (Qtrunc v)))
      by (change (inject_Z 98) with 98; lra).
    rewrite <- Zlt_Qlt in K. unfold EncodingSpec.clamp_0_99. lia.
  - destruct (getMeterIntegralFractional_range v) as [A B].
    unfold pairValue.
    destruct (getMeterIntegralFractional v) as [i f]. cbn [fst snd] in *.
    assert (Ki : inject_Z i <= inject_Z 99) by (rewrite <- Zle_Qle; lia).
    assert (Kf : inject_Z f <= inject_Z 99) by (rewrite <- Zle_Qle; lia).
    change (inject_Z 99) with 99 in Ki, Kf.
    unfold Qdiv. change (/ 100) with (1 # 100). lra.
Qed.

Lemma telemetry_pair_saturates_witness :
  99 <= Qabs (-1505 # 10)
  /\ fst (getMeterIntegralFractional (-1505 # 10)) = 99%Z.
Proof.
  split; [discriminate|].
  apply (telemetry_pair_saturates (-1505 # 10)). discriminate.
Defined.

Lemma sysexData_length (r : Readings) (s : Plugin) :
  List.length (sysexData r s) = 30%nat.
Proof. rewrite sysexData_layout. reflexivity. Qed.

(** X25.  Over any run of ticks that starts with the reset trigger clear
    and the output port open, every tick completes and the port receives
    exactly one message per tick, each a meter packet of 30 bytes, and
    nothing else. *)
Theorem one_packet_per_tick (fuel : nat) (rs : list Readings) (s : Plugin)
    (sent : list MidiMessage) :
  (2 <= fuel)%nat ->
  boolv s lufsReset = false ->
  midiOutput s = Some sent ->
  exists s' packets,
    runTicks fuel rs s = Ok (tt, s')
    /\ midiOutput s' = Some (sent ++ packets)
    /\ List.length packets = List.length rs
    /\ Forall (fun m => exists data,
                 m = SysExMessage data /\ List.length data = 30%nat) packets.
Proof.
  intro Hf. revert s sent. induction rs as [|r rs IH]; intros s sent Hr Ho.
  - exists s, []. cbn. rewrite app_nil_r. repeat split; [assumption | constructor].
  - destruct (tick_total fuel r s Hf (or_introl Hr)) as [s1 E].
    pose proof (tick_members fuel r s s1 Hf E) as (B & _ & M).
    rewrite Hr, Ho in M. cbn [app] in M.
    assert (Hr1 : boolv s1 lufsReset = false) by (rewrite B; reflexivity).
    destruct (IH s1 _ Hr1 M) as (s' & packets & E' & M' & L & F).
    exists s', (SysExMessage (sysexData r s1) :: packets).
    cbn [runTicks]. unfold bind. rewrite E.
    split; [exact E'|]. split.
    + rewrite M', <- app_assoc. reflexivity.
    + split; [cbn; rewrite L; reflexivity|].
      constructor; [|exact F].
      exists (sysexData r s1). split; [reflexivity | apply sysexData_length].
Qed.

Lemma one_packet_per_tick_witness :
  exists s' packets,
    runTicks 2 (repeat (steady (-23) (-6)) 100) (constructed (Some []) 0)
    = Ok (tt, s')
    /\ midiOutput s' = Some packets
    /\ List.length packets = 100%nat.
Proof.
  destruct (one_packet_per_tick 2 (repeat (steady (-23) (-6)) 100)
              (constructed (Some []) 0) [])
    as (s' & packets & E & M & L & _); [lia | reflexivity | reflexivity |].
  exists s', packets. split; [exact E|]. split; [exact M|].
  rewrite L. apply repeat_length.
Defined.
